(** * mako (libsatoshi): transaction engine, compact blocks, chain store

    A shallow embedding of [src/tx.c], [src/bip152.c] and
    [src/node/chaindb.c].  Machine integers are [Z] with their wrap-around
    written out, byte buffers are [list byte], C vectors are lists, and a
    pointer that may be NULL is an [option].  A function that writes through
    a pointer returns the new value of what it points to. *)

From Stdlib Require Import String.
From Stdlib Require Import ZArith List Bool Lia.
From Stdlib.Strings Require Import Byte.
Import ListNotations.
Local Open Scope Z_scope.

(* ================================================================== *)
(** * Part I: definitions *)
(* ================================================================== *)

(** ** Bytes and fixed-width integers *)

Definition bytes := list byte.

Definition byte_of_Z (x : Z) : byte :=
  match Byte.of_N (Z.to_N (x mod 256)) with
  | Some b => b
  | None => x00
  end.

Definition Z_of_byte (b : byte) : Z := Z.of_N (Byte.to_N b).

(** [n] little-endian bytes of [x] (the low [8n] bits). *)
Fixpoint le_bytes (n : nat) (x : Z) : bytes :=
  match n with
  | O => []
  | S k => byte_of_Z x :: le_bytes k (x / 256)
  end.

(** The value of a little-endian byte string. *)
Fixpoint le_value (bs : bytes) : Z :=
  match bs with
  | [] => 0
  | b :: rest => Z_of_byte b + 256 * le_value rest
  end.

Definition u32 (x : Z) : Z := x mod 2 ^ 32.
Definition u64 (x : Z) : Z := x mod 2 ^ 64.

(** Two's complement reading of the low [w] bits of [x]. *)
Definition sint (w : Z) (x : Z) : Z :=
  let m := x mod 2 ^ w in
  if m <? 2 ^ (w - 1) then m else m - 2 ^ w.

Definition i32 (x : Z) : Z := sint 32 x.
Definition i64 (x : Z) : Z := sint 64 x.

(** ** Data model ([satoshi/types.h] is not part of the sources; the
    records list the members the three files use) *)

Record btc_outpoint_t := {
  op_hash : bytes;        (* uint8_t hash[32] *)
  op_index : Z            (* uint32_t *)
}.

Record btc_input_t := {
  in_prevout : btc_outpoint_t;
  in_script : bytes;
  in_witness : list bytes;   (* btc_stack_t *)
  in_sequence : Z            (* uint32_t *)
}.

Record btc_output_t := {
  out_value : Z;          (* int64_t *)
  out_script : bytes
}.

(** The canonical members of [btc_tx_t].  [btc_tx_copy] copies exactly
    these four, so on this record [btc_tx_copy] and [btc_tx_clone] are the
    identity.  The transient member [_index], which [btc_tx_copy] leaves
    alone, is carried beside the transaction in [btc_ptx_t] below. *)
Record btc_tx_t := {
  tx_version : Z;         (* uint32_t *)
  tx_inputs : list btc_input_t;
  tx_outputs : list btc_output_t;
  tx_locktime : Z         (* uint32_t *)
}.

(** Modelled from the spec: "header (80 bytes: version, prev_block H256,
    merkle_root H256, time u32, bits u32, nonce u32)". *)
Record btc_header_t := {
  hdr_version : Z;
  prev_block : bytes;
  merkle_root : bytes;
  hdr_time : Z;
  hdr_bits : Z;
  hdr_nonce : Z
}.

Record btc_block_t := {
  header : btc_header_t;
  txs : list btc_tx_t
}.

Record btc_coin_t := {
  coin_version : Z;
  coin_height : Z;
  coin_coinbase : bool;
  coin_spent : bool;
  coin_output : btc_output_t
}.

(** [btc_tx_cache_t]: three 32-byte slots, each with a presence flag. *)
Record btc_tx_cache_t := {
  has_prevouts : bool;
  prevouts : bytes;
  has_sequences : bool;
  sequences : bytes;
  has_outputs : bool;
  outputs : bytes
}.

Record btc_verify_error_t := {
  msg : string;
  score : Z
}.

(** Modelled from the spec: the pending UTXO delta of [satoshi/coins.h],
    which is not part of the sources: "mapping Outpoint -> Coin, plus an
    ordered undo log (stack of Coin records spent by the batch)".  The map
    is kept as an association list, newest binding first; the undo stack
    has its top at the end, as a C vector does. *)
Record btc_view_t := {
  view_map : list (btc_outpoint_t * btc_coin_t);
  view_undo : list btc_coin_t
}.

Definition default_outpoint : btc_outpoint_t :=
  {| op_hash := repeat x00 32; op_index := 0 |}.
Definition default_input : btc_input_t :=
  {| in_prevout := default_outpoint; in_script := [];
     in_witness := []; in_sequence := 0 |}.
Definition default_output : btc_output_t :=
  {| out_value := 0; out_script := [] |}.

(** [v.items[i]]; an index past the end is undefined behaviour in C and
    reads a default here. *)
Definition inp_at (tx : btc_tx_t) (i : nat) : btc_input_t :=
  nth i (tx_inputs tx) default_input.
Definition out_at (tx : btc_tx_t) (i : nat) : btc_output_t :=
  nth i (tx_outputs tx) default_output.

(** A [btc_entry_t *] is named by the entry's hash; the entries live in
    [db_entries], so that [entry->prev->next = entry] is an update of the
    store. *)
Record btc_entry_t := {
  e_hash : bytes;
  e_header : btc_header_t;
  e_height : Z;              (* uint32_t *)
  e_time : Z;                (* uint32_t *)
  block_file : Z;
  block_pos : Z;
  undo_file : Z;
  undo_pos : Z;
  e_prev : option bytes;
  e_next : option bytes
}.

(** What the LMDB environment holds: the four sub-databases. *)
Record mdb_t := {
  meta_F : option (Z * Z);
  meta_R : option bytes;
  db_coin : list (btc_outpoint_t * btc_coin_t);
  db_index : list (bytes * btc_entry_t);
  db_tip : list bytes
}.

(** The calls of LMDB whose return code [src/node/chaindb.c] checks,
    with the sub-database and the key they are made on. *)
Inductive mdb_dbi := DB_META | DB_COIN | DB_INDEX | DB_TIP.

Inductive mdb_call :=
| mdb_txn_begin
| mdb_get (dbi : mdb_dbi) (key : bytes)
| mdb_put (dbi : mdb_dbi) (key : bytes)
| mdb_del (dbi : mdb_dbi) (key : bytes)
| mdb_txn_commit.

(** ** External collaborators

    Constants, hashing and the script interpreter live in headers and
    files that are not part of the sources, and LMDB, the file system
    and the allocator can fail; the embedding takes them as
    parameters. *)

Class Collaborators := {
  BTC_MAX_BLOCK_SIZE : Z;
  BTC_SIGHASH_NONE : Z;
  BTC_SIGHASH_SINGLE : Z;
  BTC_SIGHASH_ANYONECANPAY : Z;
  BTC_SCRIPT_ERR_OK : Z;
  (** [btc_hash256_final] over everything fed to the context *)
  btc_hash256 : bytes -> bytes;
  btc_header_hash : btc_header_t -> bytes;
  (** the lengths [btc_block_export] and [btc_undo_size] report *)
  btc_block_size : btc_block_t -> Z;
  btc_undo_size : list btc_coin_t -> Z;
  btc_script_remove_separators : bytes -> bytes;
  (** [btc_script_verify(script, witness, prev script, tx, index, value,
      flags, cache)]: the error code and the cache as it leaves it *)
  btc_script_verify :
    bytes -> list bytes -> bytes -> btc_tx_t -> nat -> Z -> Z ->
    btc_tx_cache_t -> Z * btc_tx_cache_t;
  (** LMDB can fail: [mdb_rc call txn] is the error code [call] returns
      on the transaction as it stands (for [mdb_txn_begin], on the
      environment), and 0 when LMDB carries the call out *)
  mdb_rc : mdb_call -> mdb_t -> Z;
  (** whether [btc_fs_open] of [blocks/<file>.dat] for appending gives a
      descriptor *)
  btc_fs_open_ok : Z -> bool;
  (** whether [btc_fs_write] of [len] bytes to file [file], whose end is
      at [pos], writes them all: file, pos, len *)
  btc_fs_write_ok : Z -> Z -> Z -> bool;
  BTC_MAX_RAW_BLOCK_SIZE : Z;
  (** whether [malloc] of so many bytes gives a buffer *)
  malloc_ok : Z -> bool
}.

(** Modelled from the spec: "Valid range: 0 <= value <= MAX_MONEY =
    21*10^14" ([satoshi/consensus.h] is not part of the sources). *)
Definition BTC_MAX_MONEY : Z := 21 * 10 ^ 14.

(** ** Codec library *)

(** Modelled from the spec: the primitive writers of [impl.h] and of the
    input, output, outpoint and stack modules, none of which is part of
    the sources: "uint8/16/32/64, int32/64, size (varint), raw(n)
    readers/writers", with Bitcoin's wire layout (little-endian integers,
    a var-int length before every script, vector and stack).  A writer
    takes the bytes written so far ([zp]) and returns them extended. *)
Definition btc_uint8_write (zp : bytes) (x : Z) : bytes := zp ++ le_bytes 1 x.
Definition btc_uint16_write (zp : bytes) (x : Z) : bytes := zp ++ le_bytes 2 x.
Definition btc_uint32_write (zp : bytes) (x : Z) : bytes := zp ++ le_bytes 4 x.
Definition btc_uint64_write (zp : bytes) (x : Z) : bytes := zp ++ le_bytes 8 x.
Definition btc_int64_write (zp : bytes) (x : Z) : bytes := zp ++ le_bytes 8 x.
Definition btc_raw_write (zp : bytes) (xp : bytes) (n : nat) : bytes :=
  zp ++ firstn n xp.

Definition btc_size_write (zp : bytes) (x : Z) : bytes :=
  if x <? 0xfd then btc_uint8_write zp x
  else if x <=? 0xffff then btc_uint16_write (btc_uint8_write zp 0xfd) x
  else if x <=? 0xffffffff then btc_uint32_write (btc_uint8_write zp 0xfe) x
  else btc_uint64_write (btc_uint8_write zp 0xff) x.

Definition btc_script_write (zp : bytes) (s : bytes) : bytes :=
  btc_raw_write (btc_size_write zp (Z.of_nat (length s))) s (length s).

Definition btc_outpoint_write (zp : bytes) (o : btc_outpoint_t) : bytes :=
  btc_uint32_write (btc_raw_write zp (op_hash o) 32) (op_index o).

Definition btc_input_write (zp : bytes) (i : btc_input_t) : bytes :=
  btc_uint32_write
    (btc_script_write (btc_outpoint_write zp (in_prevout i)) (in_script i))
    (in_sequence i).

Definition btc_output_write (zp : bytes) (o : btc_output_t) : bytes :=
  btc_script_write (btc_int64_write zp (out_value o)) (out_script o).

Definition btc_inpvec_write (zp : bytes) (v : list btc_input_t) : bytes :=
  fold_left btc_input_write v (btc_size_write zp (Z.of_nat (length v))).

Definition btc_outvec_write (zp : bytes) (v : list btc_output_t) : bytes :=
  fold_left btc_output_write v (btc_size_write zp (Z.of_nat (length v))).

Definition btc_stack_write (zp : bytes) (st : list bytes) : bytes :=
  fold_left btc_script_write st (btc_size_write zp (Z.of_nat (length st))).

(** Modelled from the spec: the readers of the same codec library.  A
    reader takes the unread bytes ([*xp], [*xn]) and returns the value
    with what is left, or [None] for the C function's 0. *)
Definition read_le (n : nat) (xp : bytes) : option (Z * bytes) :=
  if (n <=? length xp)%nat
  then Some (le_value (firstn n xp), skipn n xp)
  else None.

Definition btc_uint8_read := read_le 1.
Definition btc_uint16_read := read_le 2.
Definition btc_uint32_read := read_le 4.
Definition btc_uint64_read := read_le 8.

Definition btc_int64_read (xp : bytes) : option (Z * bytes) :=
  match read_le 8 xp with
  | Some (v, rest) => Some (i64 v, rest)
  | None => None
  end.

Definition btc_raw_read (n : nat) (xp : bytes) : option (bytes * bytes) :=
  if (n <=? length xp)%nat then Some (firstn n xp, skipn n xp) else None.

Definition btc_size_read (xp : bytes) : option (Z * bytes) :=
  match btc_uint8_read xp with
  | None => None
  | Some (t, rest) =>
      if t =? 0xff then btc_uint64_read rest
      else if t =? 0xfe then btc_uint32_read rest
      else if t =? 0xfd then btc_uint16_read rest
      else Some (t, rest)
  end.

Definition btc_script_read (xp : bytes) : option (bytes * bytes) :=
  match btc_size_read xp with
  | None => None
  | Some (n, rest) => btc_raw_read (Z.to_nat n) rest
  end.

Definition btc_outpoint_read (xp : bytes) : option (btc_outpoint_t * bytes) :=
  match btc_raw_read 32 xp with
  | None => None
  | Some (h, rest) =>
      match btc_uint32_read rest with
      | None => None
      | Some (i, rest') => Some ({| op_hash := h; op_index := i |}, rest')
      end
  end.

(** Modelled from the spec: the input reader.  A freshly read input has
    an empty witness: the input codec does not carry it. *)
Definition btc_input_read (xp : bytes) : option (btc_input_t * bytes) :=
  match btc_outpoint_read xp with
  | None => None
  | Some (o, r1) =>
      match btc_script_read r1 with
      | None => None
      | Some (s, r2) =>
          match btc_uint32_read r2 with
          | None => None
          | Some (q, r3) =>
              Some ({| in_prevout := o; in_script := s;
                       in_witness := []; in_sequence := q |}, r3)
          end
      end
  end.

Definition btc_output_read (xp : bytes) : option (btc_output_t * bytes) :=
  match btc_int64_read xp with
  | None => None
  | Some (v, r1) =>
      match btc_script_read r1 with
      | None => None
      | Some (s, r2) => Some ({| out_value := v; out_script := s |}, r2)
      end
  end.

(** Modelled from the spec: the vector readers; [n] items read one
    after the other. *)
Fixpoint read_items {A : Type} (rd : bytes -> option (A * bytes))
    (n : nat) (xp : bytes) : option (list A * bytes) :=
  match n with
  | O => Some ([], xp)
  | S k =>
      match rd xp with
      | None => None
      | Some (a, rest) =>
          match read_items rd k rest with
          | None => None
          | Some (l, rest') => Some (a :: l, rest')
          end
      end
  end.

Definition read_vector {A : Type} (rd : bytes -> option (A * bytes))
    (xp : bytes) : option (list A * bytes) :=
  match btc_size_read xp with
  | None => None
  | Some (n, rest) => read_items rd (Z.to_nat n) rest
  end.

Definition btc_inpvec_read := read_vector btc_input_read.
Definition btc_outvec_read := read_vector btc_output_read.
Definition btc_stack_read := read_vector btc_script_read.

(** Modelled from the spec: the "hash-digest-update variants" feed a
    hash context the bytes the writers emit; a context is the bytes fed
    so far. *)
Definition btc_hash256_init : bytes := [].
Definition btc_uint8_update := btc_uint8_write.
Definition btc_uint32_update := btc_uint32_write.
Definition btc_int64_update := btc_int64_write.
Definition btc_size_update := btc_size_write.
Definition btc_raw_update := btc_raw_write.
Definition btc_script_update := btc_script_write.
Definition btc_outpoint_update := btc_outpoint_write.
Definition btc_output_update := btc_output_write.
Definition btc_inpvec_update := btc_inpvec_write.
Definition btc_outvec_update := btc_outvec_write.
Definition btc_stack_update := btc_stack_write.

(** Modelled from the spec: "base_size: non-witness serialization
    length"; sizes are the lengths of what the writers emit. *)
Definition btc_inpvec_size (v : list btc_input_t) : Z :=
  Z.of_nat (length (btc_inpvec_write [] v)).
Definition btc_outvec_size (v : list btc_output_t) : Z :=
  Z.of_nat (length (btc_outvec_write [] v)).

(** Modelled from the spec: "Null iff txid is all-zero and index is
    0xFFFFFFFF". *)
Definition btc_outpoint_is_null (o : btc_outpoint_t) : bool :=
  forallb (fun b => Byte.eqb b x00) (op_hash o) && (op_index o =? 0xffffffff).

Definition bytes_eqb (a b : bytes) : bool :=
  if list_eq_dec Byte.byte_eq_dec a b then true else false.

(** Modelled from the spec: outpoints compare by txid and index. *)
Definition btc_outpoint_equal (a b : btc_outpoint_t) : bool :=
  bytes_eqb (op_hash a) (op_hash b) && (op_index a =? op_index b).

(** Modelled from the spec: [btc_view_get], NULL when the view holds no
    coin for the outpoint. *)
Fixpoint assoc_get {V : Type} (m : list (btc_outpoint_t * V))
    (k : btc_outpoint_t) : option V :=
  match m with
  | [] => None
  | (k', v) :: rest => if btc_outpoint_equal k' k then Some v else assoc_get rest k
  end.

Definition btc_view_get (view : btc_view_t) (prevout : btc_outpoint_t)
  : option btc_coin_t :=
  assoc_get (view_map view) prevout.

(** ** [src/tx.c] *)

Section Tx.
Context `{Collaborators}.

Definition btc_tx_copy (z x : btc_tx_t) : btc_tx_t :=
  {| tx_version := tx_version x;
     tx_inputs := tx_inputs x;
     tx_outputs := tx_outputs x;
     tx_locktime := tx_locktime x |}.

(** [btc_tx_create] then [btc_tx_copy] (the object macro of [impl.h]). *)
Definition btc_tx_init : btc_tx_t :=
  {| tx_version := 1; tx_inputs := []; tx_outputs := []; tx_locktime := 0 |}.

Definition btc_tx_clone (x : btc_tx_t) : btc_tx_t := btc_tx_copy btc_tx_init x.

Definition btc_tx_is_coinbase (tx : btc_tx_t) : bool :=
  if negb (length (tx_inputs tx) =? 1)%nat then false
  else btc_outpoint_is_null (in_prevout (inp_at tx 0)).

Definition btc_tx_has_witness (tx : btc_tx_t) : bool :=
  existsb (fun i => (0 <? length (in_witness i))%nat) (tx_inputs tx).

Definition btc_tx_digest (tx : btc_tx_t) (witness : bool) : bytes :=
  let witness := if witness then btc_tx_has_witness tx else false in
  let ctx := btc_hash256_init in
  let ctx := btc_uint32_update ctx (tx_version tx) in
  let ctx := if witness
             then btc_uint8_update (btc_uint8_update ctx 0) 1 else ctx in
  let ctx := btc_inpvec_update ctx (tx_inputs tx) in
  let ctx := btc_outvec_update ctx (tx_outputs tx) in
  let ctx := if witness
             then fold_left (fun c i => btc_stack_update c (in_witness i))
                            (tx_inputs tx) ctx
             else ctx in
  let ctx := btc_uint32_update ctx (tx_locktime tx) in
  btc_hash256 ctx.

Definition btc_tx_txid (tx : btc_tx_t) : bytes := btc_tx_digest tx false.
Definition btc_tx_wtxid (tx : btc_tx_t) : bytes := btc_tx_digest tx true.

(** The input loop of [btc_tx_sighash_v0] without ANYONECANPAY; [i] is
    the position of the head of [ins]. *)
Fixpoint sighash_v0_inputs (ins : list btc_input_t) (i index : nat)
    (prev : bytes) (type : Z) (ctx : bytes) : bytes :=
  match ins with
  | [] => ctx
  | input :: rest =>
      let ctx := btc_outpoint_update ctx (in_prevout input) in
      let ctx :=
        if (i =? index)%nat then
          btc_uint32_update (btc_script_update ctx prev) (in_sequence input)
        else
          let ctx := btc_size_update ctx 0 in
          if (Z.land type 0x1f =? BTC_SIGHASH_NONE)
             || (Z.land type 0x1f =? BTC_SIGHASH_SINGLE)
          then btc_uint32_update ctx 0
          else btc_uint32_update ctx (in_sequence input)
      in
      sighash_v0_inputs rest (S i) index prev type ctx
  end.

Definition btc_tx_sighash_v0 (tx : btc_tx_t) (index : nat) (prev_ : bytes)
    (type : Z) : bytes :=
  if (Z.land type 0x1f =? BTC_SIGHASH_SINGLE)
     && (length (tx_outputs tx) <=? index)%nat
  then
    (* memset(hash, 0, 32); hash[0] = 0x01; *)
    x01 :: repeat x00 31
  else
    let prev := btc_script_remove_separators prev_ in
    let ctx := btc_hash256_init in
    let ctx := btc_uint32_update ctx (tx_version tx) in
    let ctx :=
      if negb (Z.land type BTC_SIGHASH_ANYONECANPAY =? 0) then
        let input := inp_at tx index in
        let ctx := btc_size_update ctx 1 in
        let ctx := btc_outpoint_update ctx (in_prevout input) in
        let ctx := btc_script_update ctx prev in
        btc_uint32_update ctx (in_sequence input)
      else
        let ctx := btc_size_update ctx (Z.of_nat (length (tx_inputs tx))) in
        sighash_v0_inputs (tx_inputs tx) 0 index prev type ctx
    in
    let ctx :=
      if Z.land type 0x1f =? BTC_SIGHASH_NONE then
        btc_size_update ctx 0
      else if Z.land type 0x1f =? BTC_SIGHASH_SINGLE then
        let output := out_at tx index in
        let ctx := btc_size_update ctx (Z.of_nat index + 1) in
        let ctx :=
          Nat.iter index
            (fun c => btc_size_update (btc_int64_update c (-1)) 0) ctx in
        btc_output_update ctx output
      else
        let ctx := btc_size_update ctx (Z.of_nat (length (tx_outputs tx))) in
        fold_left btc_output_update (tx_outputs tx) ctx
    in
    let ctx := btc_uint32_update ctx (tx_locktime tx) in
    let ctx := btc_uint32_update ctx type in
    btc_hash256 ctx.

Definition zero32 : bytes := repeat x00 32.

(** The three sub-hashes, as [btc_tx_sighash_v1] computes them when it
    does not take them from the cache. *)
Definition hash_prevouts (tx : btc_tx_t) : bytes :=
  btc_hash256
    (fold_left (fun c i => btc_outpoint_update c (in_prevout i))
               (tx_inputs tx) btc_hash256_init).

Definition hash_sequences (tx : btc_tx_t) : bytes :=
  btc_hash256
    (fold_left (fun c i => btc_uint32_update c (in_sequence i))
               (tx_inputs tx) btc_hash256_init).

Definition hash_outputs (tx : btc_tx_t) : bytes :=
  btc_hash256 (fold_left btc_output_update (tx_outputs tx) btc_hash256_init).

Definition set_prevouts (c : btc_tx_cache_t) (h : bytes) : btc_tx_cache_t :=
  {| has_prevouts := true; prevouts := h;
     has_sequences := has_sequences c; sequences := sequences c;
     has_outputs := has_outputs c; outputs := outputs c |}.

Definition set_sequences (c : btc_tx_cache_t) (h : bytes) : btc_tx_cache_t :=
  {| has_prevouts := has_prevouts c; prevouts := prevouts c;
     has_sequences := true; sequences := h;
     has_outputs := has_outputs c; outputs := outputs c |}.

Definition set_outputs (c : btc_tx_cache_t) (h : bytes) : btc_tx_cache_t :=
  {| has_prevouts := has_prevouts c; prevouts := prevouts c;
     has_sequences := has_sequences c; sequences := sequences c;
     has_outputs := true; outputs := h |}.

(** One memoised slot: take it from the cache when the cache is there and
    has it, otherwise compute it and store it when the cache is there. *)
Definition cached (cache : option btc_tx_cache_t)
    (has : btc_tx_cache_t -> bool) (get : btc_tx_cache_t -> bytes)
    (set : btc_tx_cache_t -> bytes -> btc_tx_cache_t) (compute : bytes)
  : bytes * option btc_tx_cache_t :=
  match cache with
  | Some c => if has c then (get c, Some c) else (compute, Some (set c compute))
  | None => (compute, None)
  end.

Definition btc_tx_sighash_v1 (tx : btc_tx_t) (index : nat) (prev : bytes)
    (value : Z) (type : Z) (cache : option btc_tx_cache_t)
  : bytes * option btc_tx_cache_t :=
  let input := inp_at tx index in
  let anyone := negb (Z.land type BTC_SIGHASH_ANYONECANPAY =? 0) in
  let single := Z.land type 0x1f =? BTC_SIGHASH_SINGLE in
  let none := Z.land type 0x1f =? BTC_SIGHASH_NONE in
  let '(prevouts, cache) :=
    if negb anyone
    then cached cache has_prevouts prevouts set_prevouts (hash_prevouts tx)
    else (zero32, cache) in
  let '(sequences, cache) :=
    if negb anyone && negb single && negb none
    then cached cache has_sequences sequences set_sequences (hash_sequences tx)
    else (zero32, cache) in
  let '(outputs, cache) :=
    if negb single && negb none
    then cached cache has_outputs outputs set_outputs (hash_outputs tx)
    else if single then
      if (index <? length (tx_outputs tx))%nat
      then (btc_hash256 (btc_output_update btc_hash256_init (out_at tx index)),
            cache)
      else (zero32, cache)
    else (zero32, cache) in
  let ctx := btc_hash256_init in
  let ctx := btc_uint32_update ctx (tx_version tx) in
  let ctx := btc_raw_update ctx prevouts 32 in
  let ctx := btc_raw_update ctx sequences 32 in
  let ctx := btc_outpoint_update ctx (in_prevout input) in
  let ctx := btc_script_update ctx prev in
  let ctx := btc_int64_update ctx value in
  let ctx := btc_uint32_update ctx (in_sequence input) in
  let ctx := btc_raw_update ctx outputs 32 in
  let ctx := btc_uint32_update ctx (tx_locktime tx) in
  let ctx := btc_uint32_update ctx type in
  (btc_hash256 ctx, cache).

(** [None] is [btc_abort()]. *)
Definition btc_tx_sighash (tx : btc_tx_t) (index : nat) (prev : bytes)
    (value : Z) (type : Z) (version : Z) (cache : option btc_tx_cache_t)
  : option (bytes * option btc_tx_cache_t) :=
  if version =? 0 then Some (btc_tx_sighash_v0 tx index prev type, cache)
  else if version =? 1 then Some (btc_tx_sighash_v1 tx index prev value type cache)
  else None.

Definition btc_tx_verify_input (tx : btc_tx_t) (index : nat)
    (coin : btc_output_t) (flags : Z) (cache : btc_tx_cache_t)
  : Z * btc_tx_cache_t :=
  let input := inp_at tx index in
  let '(ret, cache) :=
    btc_script_verify (in_script input) (in_witness input) (out_script coin)
                      tx index (out_value coin) flags cache in
  (if ret =? BTC_SCRIPT_ERR_OK then 1 else 0, cache).

(** memset(&cache, 0, sizeof(cache)) *)
Definition cache_zero : btc_tx_cache_t :=
  {| has_prevouts := false; prevouts := zero32;
     has_sequences := false; sequences := zero32;
     has_outputs := false; outputs := zero32 |}.

(** The loop of [btc_tx_verify] from input [i] on; [n] counts the inputs
    still to visit. *)
Fixpoint verify_from (tx : btc_tx_t) (view : btc_view_t) (flags : Z)
    (n : nat) (i : nat) (cache : btc_tx_cache_t) : Z :=
  match n with
  | O => 1
  | S k =>
      let input := inp_at tx i in
      match btc_view_get view (in_prevout input) with
      | None => 0
      | Some coin =>
          let '(ok, cache) :=
            btc_tx_verify_input tx i (coin_output coin) flags cache in
          if ok =? 0 then 0 else verify_from tx view flags k (S i) cache
      end
  end.

Definition btc_tx_verify (tx : btc_tx_t) (view : btc_view_t) (flags : Z) : Z :=
  verify_from tx view flags (length (tx_inputs tx)) 0 cache_zero.

(** Modelled from the spec: the outpoint set that
    [KHASH_SET_INIT_CONST_OUTPOINT] declares ([map.h] is not part of the
    sources; "generic containers ... assumed available").  [kh_put]
    answers 0 when the key is already a member and inserts it otherwise. *)
Definition kh_put (set : list btc_outpoint_t) (key : btc_outpoint_t)
  : list btc_outpoint_t * Z :=
  if existsb (btc_outpoint_equal key) set then (set, 0) else (key :: set, 1).

Fixpoint duplicate_from (ins : list btc_input_t) (set : list btc_outpoint_t)
  : bool :=
  match ins with
  | [] => false
  | input :: rest =>
      let '(set, ret) := kh_put set (in_prevout input) in
      if ret =? 0 then true else duplicate_from rest set
  end.

Definition btc_tx_has_duplicate_inputs (tx : btc_tx_t) : bool :=
  duplicate_from (tx_inputs tx) [].

Definition btc_tx_base_size (tx : btc_tx_t) : Z :=
  4 + btc_inpvec_size (tx_inputs tx) + btc_outvec_size (tx_outputs tx) + 4.

(** The THROW macro: fill [err] when it is not NULL and return 0. *)
Definition THROW (err : option btc_verify_error_t) (m : string) (s : Z)
  : Z * option btc_verify_error_t :=
  (0, match err with
      | Some _ => Some {| msg := m; score := s |}
      | None => None
      end).

(** The output loop of [btc_tx_check_sanity]: the first complaint, if
    any.  [total] is an int64_t. *)
Fixpoint sanity_outputs (outs : list btc_output_t) (total : Z)
  : option (string * Z) :=
  match outs with
  | [] => None
  | output :: rest =>
      if out_value output <? 0 then
        Some ("bad-txns-vout-negative"%string, 100)
      else if out_value output >? BTC_MAX_MONEY then
        Some ("bad-txns-vout-toolarge"%string, 100)
      else
        let total := i64 (total + out_value output) in
        if (total <? 0) || (total >? BTC_MAX_MONEY) then
          Some ("bad-txns-txouttotal-toolarge"%string, 100)
        else sanity_outputs rest total
  end.

Definition btc_tx_check_sanity (err : option btc_verify_error_t)
    (tx : btc_tx_t) : Z * option btc_verify_error_t :=
  if (length (tx_inputs tx) =? 0)%nat then
    THROW err "bad-txns-vin-empty" 100
  else if (length (tx_outputs tx) =? 0)%nat then
    THROW err "bad-txns-vout-empty" 100
  else if btc_tx_base_size tx >? BTC_MAX_BLOCK_SIZE then
    THROW err "bad-txns-oversize" 100
  else
    match sanity_outputs (tx_outputs tx) 0 with
    | Some (m, s) => THROW err m s
    | None =>
        if btc_tx_has_duplicate_inputs tx then
          THROW err "bad-txns-inputs-duplicate" 100
        else if btc_tx_is_coinbase tx then
          let size := Z.of_nat (length (in_script (inp_at tx 0))) in
          if (size <? 2) || (size >? 100) then THROW err "bad-cb-length" 100
          else (1, err)
        else if existsb (fun i => btc_outpoint_is_null (in_prevout i))
                        (tx_inputs tx)
        then THROW err "bad-txns-prevout-null" 10
        else (1, err)
    end.

Definition btc_tx_write (zp : bytes) (tx : btc_tx_t) : bytes :=
  let witness := btc_tx_has_witness tx in
  let zp := btc_uint32_write zp (tx_version tx) in
  let zp := if witness
            then btc_uint8_write (btc_uint8_write zp 0) 1 else zp in
  let zp := btc_inpvec_write zp (tx_inputs tx) in
  let zp := btc_outvec_write zp (tx_outputs tx) in
  let zp := if witness
            then fold_left (fun z i => btc_stack_write z (in_witness i))
                           (tx_inputs tx) zp
            else zp in
  btc_uint32_write zp (tx_locktime tx).

Definition set_witness (i : btc_input_t) (w : list bytes) : btc_input_t :=
  {| in_prevout := in_prevout i; in_script := in_script i;
     in_witness := w; in_sequence := in_sequence i |}.

(** The witness loop of [btc_tx_read]: one stack per input, in order. *)
Fixpoint read_witnesses (ins : list btc_input_t) (xp : bytes)
  : option (list btc_input_t * bytes) :=
  match ins with
  | [] => Some ([], xp)
  | i :: rest =>
      match btc_stack_read xp with
      | None => None
      | Some (w, xp) =>
          match read_witnesses rest xp with
          | None => None
          | Some (rest', xp) => Some (set_witness i w :: rest', xp)
          end
      end
  end.

(** The marker test of [btc_tx_read]: at least two bytes left, the
    first 0 and the second not 0.  It gives the flags byte and the bytes
    after it, or 0 and the bytes as they are. *)
Definition read_marker (xp : bytes) : Z * bytes :=
  match xp with
  | b0 :: b1 :: rest =>
      if (Z_of_byte b0 =? 0) && negb (Z_of_byte b1 =? 0)
      then (Z_of_byte b1, rest) else (0, xp)
  | _ => (0, xp)
  end.

(** if (flags & 1) { flags ^= 1; read one stack per input } *)
Definition read_flagged (flags : Z) (inputs : list btc_input_t) (xp : bytes)
  : option (Z * list btc_input_t * bytes) :=
  if negb (Z.land flags 1 =? 0) then
    match read_witnesses inputs xp with
    | None => None
    | Some (ins, xp) => Some (Z.lxor flags 1, ins, xp)
    end
  else Some (flags, inputs, xp).

(** [btc_tx_read] into a freshly initialised [z]: the transaction and
    the unread bytes, or [None] for 0. *)
Definition btc_tx_read (xp : bytes) : option (btc_tx_t * bytes) :=
  match btc_uint32_read xp with
  | None => None
  | Some (version, xp) =>
      let '(flags, xp) := read_marker xp in
      match btc_inpvec_read xp with
      | None => None
      | Some (inputs, xp) =>
          match btc_outvec_read xp with
          | None => None
          | Some (outputs, xp) =>
              match read_flagged flags inputs xp with
              | None => None
              | Some (flags, inputs, xp) =>
                  if negb (flags =? 0) then None
                  else if (length inputs =? 0)%nat
                          && negb (length outputs =? 0)%nat then None
                  else
                    match btc_uint32_read xp with
                    | None => None
                    | Some (locktime, xp) =>
                        Some ({| tx_version := version; tx_inputs := inputs;
                                 tx_outputs := outputs;
                                 tx_locktime := locktime |}, xp)
                    end
              end
          end
      end
  end.

Definition btc_tx_coin (tx : btc_tx_t) (index : nat) (height : Z)
  : btc_coin_t :=
  {| coin_version := tx_version tx;
     coin_height := height;
     coin_coinbase := btc_tx_is_coinbase tx;
     coin_spent := false;
     coin_output := out_at tx index |}.

End Tx.

(** ** [src/bip152.c] *)

(** An element of [blk->ptx]: a transaction with its transient [_index]
    (the differentially encoded position [btc_cmpct_read] stores). *)
Record btc_ptx_t := {
  _index : Z;
  ptx_tx : btc_tx_t
}.

Record btc_cmpct_t := {
  cm_hash : bytes;
  cm_header : btc_header_t;
  key_nonce : Z;
  ids : list Z;                       (* btc_idvec_t of uint64_t *)
  ptx : list btc_ptx_t;
  avail : list (option btc_tx_t);     (* NULL is None *)
  id_map : list (Z * Z);              (* btc_longtab_t *)
  count : Z;
  sipkey : bytes;
  cm_now : Z
}.

Record btc_getblocktxn_t := {
  gb_hash : bytes;
  indexes : list Z
}.

Record btc_blocktxn_t := {
  bt_hash : bytes;
  bt_txs : list btc_tx_t
}.

Definition set_avail (blk : btc_cmpct_t) (a : list (option btc_tx_t))
    (c : Z) : btc_cmpct_t :=
  {| cm_hash := cm_hash blk; cm_header := cm_header blk;
     key_nonce := key_nonce blk; ids := ids blk; ptx := ptx blk;
     avail := a; id_map := id_map blk; count := c;
     sipkey := sipkey blk; cm_now := cm_now blk |}.

Definition set_id_map (blk : btc_cmpct_t) (m : list (Z * Z)) : btc_cmpct_t :=
  {| cm_hash := cm_hash blk; cm_header := cm_header blk;
     key_nonce := key_nonce blk; ids := ids blk; ptx := ptx blk;
     avail := avail blk; id_map := m; count := count blk;
     sipkey := sipkey blk; cm_now := cm_now blk |}.

(** [items[i] = x]; a store past the end is undefined behaviour in C and
    changes nothing here. *)
Fixpoint vec_set {A : Type} (l : list A) (i : nat) (x : A) : list A :=
  match l, i with
  | [], _ => []
  | _ :: rest, O => x :: rest
  | a :: rest, S k => a :: vec_set rest k x
  end.

(** Modelled from the spec: [btc_longtab_put] of [satoshi/map.h], which
    is not part of the sources: "insert (id -> position) into id_map.  A
    duplicate id is a SipHash collision"; [None] is its 0. *)
Definition btc_longtab_put (m : list (Z * Z)) (key value : Z)
  : option (list (Z * Z)) :=
  if existsb (fun kv => fst kv =? key) m then None
  else Some ((key, value) :: m).

Section Bip152.
Context `{Collaborators}.

(** One turn of the prefilled loop of [btc_cmpct_setup]: the cursor after
    [last += tx->_index + 1] (an int), and either -1 or the block with the
    transaction placed. *)
Definition setup_cursor (last : Z) (tx : btc_ptx_t) : Z :=
  i32 (last + (_index tx + 1)).

Definition setup_place (blk : btc_cmpct_t) (i : nat) (last : Z)
    (tx : btc_ptx_t) : Z * option btc_cmpct_t :=
  let last := setup_cursor last tx in
  if (last <? 0) || (last >? 0xffff) then (last, None)
  else if last >? Z.of_nat (length (ids blk)) + Z.of_nat i then (last, None)
  else (last,
        Some (set_avail blk
                (vec_set (avail blk) (Z.to_nat last)
                         (Some (btc_tx_clone (ptx_tx tx))))
                (count blk + 1))).

Fixpoint setup_prefilled (l : list btc_ptx_t) (i : nat) (last : Z)
    (blk : btc_cmpct_t) : Z * btc_cmpct_t :=
  match l with
  | [] => (1, blk)
  | tx :: rest =>
      match setup_place blk i last tx with
      | (_, None) => (-1, blk)
      | (last, Some blk) => setup_prefilled rest (S i) last blk
      end
  end.

(** while (blk->avail.items[i + offset] != NULL) offset += 1; *)
Fixpoint skip_filled (fuel : nat) (a : list (option btc_tx_t))
    (i offset : nat) : nat :=
  match fuel with
  | O => offset
  | S f =>
      match nth_error a (i + offset) with
      | Some (Some _) => skip_filled f a i (S offset)
      | _ => offset
      end
  end.

Fixpoint setup_ids (l : list Z) (i offset : nat) (blk : btc_cmpct_t)
  : Z * btc_cmpct_t :=
  match l with
  | [] => (1, blk)
  | id :: rest =>
      let offset := skip_filled (length (avail blk)) (avail blk) i offset in
      match btc_longtab_put (id_map blk) id (Z.of_nat (i + offset)) with
      | None => (0, blk)   (* fails on siphash collision *)
      | Some m => setup_ids rest (S i) offset (set_id_map blk m)
      end
  end.

(** [btc_cmpct_setup]: the return value and the block as it is left;
    [None] is a failed CHECK. *)
Definition btc_cmpct_setup (blk : btc_cmpct_t) : option (Z * btc_cmpct_t) :=
  let total := Z.of_nat (length (ptx blk) + length (ids blk)) in
  if total =? 0 then Some (-1, blk)
  else if total >? BTC_MAX_BLOCK_SIZE / 10 then Some (-1, blk)
  else if total >? (BTC_MAX_BLOCK_SIZE - 81) / 60 then Some (-1, blk)
  else if negb (length (avail blk) =? 0)%nat then None
  else if negb (count blk =? 0) then None
  else
    let blk := set_avail blk (repeat None (Z.to_nat total)) (count blk) in
    let '(r, blk) := setup_prefilled (ptx blk) 0 (-1) blk in
    if negb (r =? 1) then Some (r, blk)
    else if negb (length (id_map blk) =? 0)%nat then None
    else Some (setup_ids (ids blk) 0 0 blk).

(** The loop of [btc_cmpct_fill_missing] over the slots from the current
    one on: whether it ran to the end, the slots, [offset] and [count]. *)
Fixpoint fill_from (slots : list (option btc_tx_t)) (msg : btc_blocktxn_t)
    (offset : nat) (count : Z)
  : bool * list (option btc_tx_t) * nat * Z :=
  match slots with
  | [] => (true, [], offset, count)
  | Some t :: rest =>
      let '(done, rest, offset, count) := fill_from rest msg offset count in
      (done, Some t :: rest, offset, count)
  | None :: rest =>
      match nth_error (bt_txs msg) offset with
      | None => (false, None :: rest, offset, count)
      | Some t =>
          let '(done, rest, offset, count) :=
            fill_from rest msg (S offset) (count + 1) in
          (done, Some (btc_tx_clone t) :: rest, offset, count)
      end
  end.

(** [btc_cmpct_fill_missing]; [None] is the failed CHECK. *)
Definition btc_cmpct_fill_missing (blk : btc_cmpct_t) (msg : btc_blocktxn_t)
  : option (Z * btc_cmpct_t) :=
  let total := (length (ptx blk) + length (ids blk))%nat in
  if negb (length (avail blk) =? total)%nat then None
  else
    let '(done, slots, offset, count) :=
      fill_from (avail blk) msg 0 (count blk) in
    let blk := set_avail blk slots count in
    if done
    then Some (if (offset =? length (bt_txs msg))%nat then 1 else 0, blk)
    else Some (0, blk).

(** The loop of [btc_blocktxn_set_block]; [acc] is [res->txs]. *)
Fixpoint set_block_from (idx : list Z) (blk : btc_block_t)
    (acc : list btc_tx_t) : list btc_tx_t :=
  match idx with
  | [] => acc
  | index :: rest =>
      if index >=? Z.of_nat (length (txs blk)) then acc
      else
        match nth_error (txs blk) (Z.to_nat index) with
        | Some tx => set_block_from rest blk (acc ++ [btc_tx_clone tx])
        | None => acc
        end
  end.

(** [btc_blocktxn_set_block]; [None] is the failed CHECK. *)
Definition btc_blocktxn_set_block (res : btc_blocktxn_t) (blk : btc_block_t)
    (req : btc_getblocktxn_t) : option btc_blocktxn_t :=
  if negb (length (bt_txs res) =? 0)%nat then None
  else
    Some {| bt_hash := btc_header_hash (header blk);
            bt_txs := set_block_from (indexes req) blk (bt_txs res) |}.

End Bip152.

(** ** [src/node/chaindb.c] *)

(** A record of [blocks/<n>.dat].  The block and undo encodings are not
    part of the sources; a record holds the value that was exported and
    import gives it back. *)
Inductive file_record :=
| RecBlock (b : btc_block_t)
| RecUndo (u : list btc_coin_t).

Record btc_chaindb := {
  env : mdb_t;                                  (* committed state *)
  files : list ((Z * Z) * file_record);         (* keyed by (file, pos) *)
  db_entries : list (bytes * btc_entry_t);
  hashes : list bytes;
  heights : list bytes;
  head : option bytes;
  tail : option bytes;
  file : Z;
  pos : Z
}.

(** A failed CHECK ends the process. *)
Inductive outcome (A : Type) :=
| Ret (a : A)
| Aborted.
Arguments Ret {A} a.
Arguments Aborted {A}.

Definition MDB_NOTFOUND : Z := -30798.

Fixpoint coin_remove (m : list (btc_outpoint_t * btc_coin_t))
    (k : btc_outpoint_t) : list (btc_outpoint_t * btc_coin_t) :=
  match m with
  | [] => []
  | (k', v) :: rest =>
      if btc_outpoint_equal k' k then coin_remove rest k
      else (k', v) :: coin_remove rest k
  end.

Definition coin_has (m : list (btc_outpoint_t * btc_coin_t))
    (k : btc_outpoint_t) : bool :=
  match assoc_get m k with Some _ => true | None => false end.

Section Lmdb.
Context `{Collaborators}.

(** The keys: [hash || index] for a coin, 'F' and 'R' in the meta table,
    the entry's hash in the index and tip tables. *)
Definition coin_key (k : btc_outpoint_t) : bytes :=
  btc_uint32_write (btc_raw_write [] (op_hash k) 32) (op_index k).
Definition info_key : bytes := [x46].
Definition tip_key : bytes := [x52].

(** [mdb_put] and [mdb_del] on the tables, with their return codes: the
    error code of [mdb_rc] with the transaction as it was when LMDB
    fails, otherwise 0 with the table changed (for [mdb_del],
    MDB_NOTFOUND when the key is not there). *)
Definition mdb_put_coin (txn : mdb_t) (k : btc_outpoint_t) (v : btc_coin_t)
  : mdb_t * Z :=
  let rc := mdb_rc (mdb_put DB_COIN (coin_key k)) txn in
  if negb (rc =? 0) then (txn, rc)
  else
    ({| meta_F := meta_F txn; meta_R := meta_R txn;
        db_coin := (k, v) :: coin_remove (db_coin txn) k;
        db_index := db_index txn; db_tip := db_tip txn |}, 0).

Definition mdb_del_coin (txn : mdb_t) (k : btc_outpoint_t) : mdb_t * Z :=
  let rc := mdb_rc (mdb_del DB_COIN (coin_key k)) txn in
  if negb (rc =? 0) then (txn, rc)
  else if coin_has (db_coin txn) k then
    ({| meta_F := meta_F txn; meta_R := meta_R txn;
        db_coin := coin_remove (db_coin txn) k;
        db_index := db_index txn; db_tip := db_tip txn |}, 0)
  else (txn, MDB_NOTFOUND).

Definition mdb_put_F (txn : mdb_t) (v : Z * Z) : mdb_t * Z :=
  let rc := mdb_rc (mdb_put DB_META info_key) txn in
  if negb (rc =? 0) then (txn, rc)
  else
    ({| meta_F := Some v; meta_R := meta_R txn; db_coin := db_coin txn;
        db_index := db_index txn; db_tip := db_tip txn |}, 0).

Definition mdb_put_R (txn : mdb_t) (v : bytes) : mdb_t * Z :=
  let rc := mdb_rc (mdb_put DB_META tip_key) txn in
  if negb (rc =? 0) then (txn, rc)
  else
    ({| meta_F := meta_F txn; meta_R := Some v; db_coin := db_coin txn;
        db_index := db_index txn; db_tip := db_tip txn |}, 0).

Definition mdb_put_index (txn : mdb_t) (k : bytes) (v : btc_entry_t)
  : mdb_t * Z :=
  let rc := mdb_rc (mdb_put DB_INDEX k) txn in
  if negb (rc =? 0) then (txn, rc)
  else
    ({| meta_F := meta_F txn; meta_R := meta_R txn; db_coin := db_coin txn;
        db_index := (k, v) :: filter (fun kv => negb (bytes_eqb (fst kv) k))
                                     (db_index txn);
        db_tip := db_tip txn |}, 0).

Definition mdb_put_tip (txn : mdb_t) (k : bytes) : mdb_t * Z :=
  let rc := mdb_rc (mdb_put DB_TIP k) txn in
  if negb (rc =? 0) then (txn, rc)
  else
    ({| meta_F := meta_F txn; meta_R := meta_R txn; db_coin := db_coin txn;
        db_index := db_index txn;
        db_tip := k :: filter (fun h => negb (bytes_eqb h k)) (db_tip txn) |},
     0).

Definition mdb_del_tip (txn : mdb_t) (k : bytes) : mdb_t * Z :=
  let rc := mdb_rc (mdb_del DB_TIP k) txn in
  if negb (rc =? 0) then (txn, rc)
  else if existsb (bytes_eqb k) (db_tip txn) then
    ({| meta_F := meta_F txn; meta_R := meta_R txn; db_coin := db_coin txn;
        db_index := db_index txn;
        db_tip := filter (fun h => negb (bytes_eqb h k)) (db_tip txn) |}, 0)
  else (txn, MDB_NOTFOUND).

End Lmdb.

(** Modelled from the spec: the view and undo operations of
    [satoshi/coins.h], which is not part of the sources ("undo
    encode/decode/push/pop/length"; "put it into the view at
    input.prevout"; "mark all outputs of this tx as spent"). *)
Definition btc_view_create : btc_view_t :=
  {| view_map := []; view_undo := [] |}.

(** Modelled from the spec: "put it into the view at input.prevout"; a
    coin already there is replaced. *)
Definition btc_view_put (view : btc_view_t) (prevout : btc_outpoint_t)
    (coin : btc_coin_t) : btc_view_t :=
  {| view_map := (prevout, coin) :: coin_remove (view_map view) prevout;
     view_undo := view_undo view |}.

(** Modelled from the spec: "pop a Coin from undo", the coin pushed
    last.  Popping an empty log is a failed CHECK ([None]), as the
    vectors of [impl.h] have it. *)
Definition btc_undo_pop (undo : list btc_coin_t)
  : option (btc_coin_t * list btc_coin_t) :=
  match rev undo with
  | [] => None
  | c :: r => Some (c, rev r)
  end.

(** Modelled from the spec: "Reset the undo buffer". *)
Definition btc_undo_reset (view : btc_view_t) : btc_view_t :=
  {| view_map := view_map view; view_undo := [] |}.

Definition set_spent (c : btc_coin_t) (spent : bool) : btc_coin_t :=
  {| coin_version := coin_version c; coin_height := coin_height c;
     coin_coinbase := coin_coinbase c; coin_spent := spent;
     coin_output := coin_output c |}.

Section ChainDB.
Context `{Collaborators}.

(** Modelled from the spec: [btc_view_add(view, tx, height, spent)] puts
    one coin per output of [tx] at (txid, position), carrying [spent]. *)
Fixpoint view_add_from (view : btc_view_t) (tx : btc_tx_t) (height : Z)
    (spent : bool) (n : nat) : btc_view_t :=
  match n with
  | O => view
  | S k =>
      btc_view_put (view_add_from view tx height spent k)
        {| op_hash := btc_tx_txid tx; op_index := Z.of_nat k |}
        (set_spent (btc_tx_coin tx k height) spent)
  end.

Definition btc_view_add (view : btc_view_t) (tx : btc_tx_t) (height : Z)
    (spent : bool) : btc_view_t :=
  view_add_from view tx height spent (length (tx_outputs tx)).

Definition iterate_view (txn : mdb_t) (prevout : btc_outpoint_t)
    (coin : btc_coin_t) : mdb_t * Z :=
  let '(txn, rc) :=
    if coin_spent coin then mdb_del_coin txn prevout
    else mdb_put_coin txn prevout coin in
  if negb (rc =? 0) && negb (rc =? MDB_NOTFOUND) then (txn, 0) else (txn, 1).

(** [btc_view_iterate] with [iterate_view] as the callback. *)
Fixpoint btc_chaindb_save_view_from (txn : mdb_t)
    (m : list (btc_outpoint_t * btc_coin_t)) : mdb_t * Z :=
  match m with
  | [] => (txn, 1)
  | (k, c) :: rest =>
      let '(txn, ok) := iterate_view txn k c in
      if ok =? 0 then (txn, 0) else btc_chaindb_save_view_from txn rest
  end.

Definition btc_chaindb_save_view (txn : mdb_t) (view : btc_view_t)
  : mdb_t * Z :=
  btc_chaindb_save_view_from txn (view_map view).

(** NULL when [mdb_get] fails or finds nothing. *)
Definition read_coin (txn : mdb_t) (prevout : btc_outpoint_t)
  : option btc_coin_t :=
  if negb (mdb_rc (mdb_get DB_COIN (btc_outpoint_write [] prevout)) txn =? 0)
  then None
  else assoc_get (db_coin txn) prevout.

(** Modelled from the spec: [btc_view_spend] of [satoshi/coins.h], which
    is not part of the sources: each input is resolved in the view or,
    failing that, through [read_coin]; the coin is marked spent in the
    view and the coin as it was is pushed on the undo log ("the ordered
    list of coins spent by a block's non-coinbase inputs").  0 when an
    input does not resolve or is already spent. *)
Fixpoint view_spend_from (view : btc_view_t) (ins : list btc_input_t)
    (read : btc_outpoint_t -> option btc_coin_t) : btc_view_t * Z :=
  match ins with
  | [] => (view, 1)
  | input :: rest =>
      let prevout := in_prevout input in
      match (match btc_view_get view prevout with
             | Some c => Some c
             | None => read prevout
             end) with
      | None => (view, 0)
      | Some coin =>
          if coin_spent coin then (view, 0)
          else
            view_spend_from
              {| view_map := (prevout, set_spent coin true)
                             :: coin_remove (view_map view) prevout;
                 view_undo := view_undo view ++ [coin] |}
              rest read
      end
  end.

(** The read-only transaction sees the committed state. *)
Definition btc_chaindb_spend (db : btc_chaindb) (view : btc_view_t)
    (tx : btc_tx_t) : btc_view_t * Z :=
  if negb (mdb_rc mdb_txn_begin (env db) =? 0) then (view, 0)
  else view_spend_from view (tx_inputs tx) (read_coin (env db)).

Fixpoint file_get (fs : list ((Z * Z) * file_record)) (f p : Z)
  : option file_record :=
  match fs with
  | [] => None
  | ((f', p'), r) :: rest =>
      if (f' =? f) && (p' =? p) then Some r else file_get rest f p
  end.

(** NULL is [None]: [btc_chaindb_read] fails when nothing was written at
    the position, and [btc_undo_import] on a record that is not an undo
    log.  What was written in full is taken to be read in full: the
    failures of [btc_fs_open], [btc_fs_pread] and [malloc] inside
    [btc_chaindb_read] are left out. *)
Definition btc_chaindb_read_undo (db : btc_chaindb) (entry : btc_entry_t)
  : option (list btc_coin_t) :=
  if undo_pos entry =? -1 then Some []
  else
    match file_get (files db) (undo_file entry) (undo_pos entry) with
    | Some (RecUndo u) => Some u
    | _ => None
    end.

(** The clock is an argument: [now] is what [time(NULL)] returned, a
    time_t, and [(uint32_t)now] keeps its low 32 bits. *)
Definition btc_chaindb_should_sync (now : Z) (db : btc_chaindb)
    (entry : btc_entry_t) : Z :=
  if now =? -1 then 1
  else if u32 now <? e_time entry then 1
  else if u32 (u32 now - e_time entry) <=? 24 * 60 * 60 then 1
  else if e_height entry mod 1000 =? 0 then 1
  else 0.

Definition set_file_pos (db : btc_chaindb) (f p : Z) : btc_chaindb :=
  {| env := env db; files := files db; db_entries := db_entries db;
     hashes := hashes db; heights := heights db; head := head db;
     tail := tail db; file := f; pos := p |}.

Definition set_files (db : btc_chaindb) (fs : list ((Z * Z) * file_record))
  : btc_chaindb :=
  {| env := env db; files := fs; db_entries := db_entries db;
     hashes := hashes db; heights := heights db; head := head db;
     tail := tail db; file := file db; pos := pos db |}.

(** [len] is a size_t and [db->pos] an int: the sum is taken in
    size_t. *)
Definition btc_chaindb_alloc (db : btc_chaindb) (len : Z) : btc_chaindb * Z :=
  if u64 (pos db + len) >? 512 * 2 ^ 20 then
    if negb (btc_fs_open_ok (file db + 1)) then (db, 0)
    else (set_file_pos db (file db + 1) 0, 1)
  else (db, 1).

Definition set_block_pos (e : btc_entry_t) (f p : Z) : btc_entry_t :=
  {| e_hash := e_hash e; e_header := e_header e; e_height := e_height e;
     e_time := e_time e; block_file := f; block_pos := p;
     undo_file := undo_file e; undo_pos := undo_pos e;
     e_prev := e_prev e; e_next := e_next e |}.

Definition set_undo_pos (e : btc_entry_t) (f p : Z) : btc_entry_t :=
  {| e_hash := e_hash e; e_header := e_header e; e_height := e_height e;
     e_time := e_time e; block_file := block_file e;
     block_pos := block_pos e; undo_file := f; undo_pos := p;
     e_prev := e_prev e; e_next := e_next e |}.

Definition set_next (e : btc_entry_t) (n : option bytes) : btc_entry_t :=
  {| e_hash := e_hash e; e_header := e_header e; e_height := e_height e;
     e_time := e_time e; block_file := block_file e;
     block_pos := block_pos e; undo_file := undo_file e;
     undo_pos := undo_pos e; e_prev := e_prev e; e_next := n |}.

(** [len] is a size_t; [db->pos += len] stores the sum in an int.  When
    [btc_fs_write] fails no record is kept and the cursor stays: what
    the failed write left in the file is not part of the state.  The
    fsync leaves no trace in the state. *)
Definition btc_chaindb_write_block (db : btc_chaindb) (entry : btc_entry_t)
    (block : btc_block_t) : btc_chaindb * btc_entry_t * Z :=
  let len := u64 (btc_block_size block) in
  let len := u64 (len + 4) in
  let '(db, ok) := btc_chaindb_alloc db len in
  if ok =? 0 then (db, entry, 0)
  else if negb (btc_fs_write_ok (file db) (pos db) len) then (db, entry, 0)
  else
    let db := set_files db (((file db, pos db), RecBlock block) :: files db) in
    let entry := set_block_pos entry (file db) (pos db) in
    (set_file_pos db (file db) (i32 (pos db + len)), entry, 1).

(** The source exports [block], a name this function does not declare,
    after measuring [undo]; the record written is the undo log.  A log
    larger than the slab gets a buffer of its own, and
    [CHECK(buf != NULL)] ends the process when there is none. *)
Definition btc_chaindb_write_undo (db : btc_chaindb) (entry : btc_entry_t)
    (undo : list btc_coin_t) : outcome (btc_chaindb * btc_entry_t * Z) :=
  let len := u64 (btc_undo_size undo) in
  if (len >? BTC_MAX_RAW_BLOCK_SIZE) && negb (malloc_ok (u64 (4 + len)))
  then Aborted
  else
    let len := u64 (len + 4) in
    let '(db, ok) := btc_chaindb_alloc db len in
    if ok =? 0 then Ret (db, entry, 0)
    else if negb (btc_fs_write_ok (file db) (pos db) len)
    then Ret (db, entry, 0)
    else
      let db :=
        set_files db (((file db, pos db), RecUndo undo) :: files db) in
      let entry := set_undo_pos entry (file db) (pos db) in
      Ret (set_file_pos db (file db) (i32 (pos db + len)), entry, 1).

Definition btc_chaindb_prune_block (db : btc_chaindb) (entry : btc_entry_t)
  : Z := 1.

(** The view comes back with its undo log reset, as the caller's view
    object is left. *)
Definition btc_chaindb_connect_block (db : btc_chaindb) (txn : mdb_t)
    (entry : btc_entry_t) (block : btc_block_t) (view : btc_view_t)
  : outcome (btc_chaindb * mdb_t * btc_entry_t * btc_view_t * Z) :=
  if e_height entry =? 0 then Ret (db, txn, entry, view, 1)
  else
    let '(txn, ok) := btc_chaindb_save_view txn view in
    if ok =? 0 then Ret (db, txn, entry, view, 0)
    else
      let undo := view_undo view in
      if negb (length undo =? 0)%nat then
        match (if undo_pos entry =? -1
               then btc_chaindb_write_undo db entry undo
               else Ret (db, entry, 1)) with
        | Aborted => Aborted
        | Ret (db, entry, ok) =>
            if ok =? 0 then Ret (db, txn, entry, view, 0)
            else Ret (db, txn, entry, btc_undo_reset view,
                      btc_chaindb_prune_block db entry)
        end
      else Ret (db, txn, entry, view, btc_chaindb_prune_block db entry).

(** The input loop of [btc_chaindb_disconnect_block]; [n] is [j + 1].
    The source reads [tx->inputs.items[i]], with the transaction's
    position [i] in the block, whatever [j] is.  When the transaction
    has no input at position [i] the read is past the end of the vector,
    undefined behaviour in C: the run ends there, as at a failed
    CHECK. *)
Fixpoint disconnect_inputs (n : nat) (tx : btc_tx_t) (i : nat)
    (view : btc_view_t) (undo : list btc_coin_t)
  : outcome (btc_view_t * list btc_coin_t) :=
  match n with
  | O => Ret (view, undo)
  | S j =>
      match nth_error (tx_inputs tx) i with
      | None => Aborted
      | Some input =>
          match btc_undo_pop undo with
          | None => Aborted
          | Some (coin, undo) =>
              disconnect_inputs j tx i
                (btc_view_put view (in_prevout input) coin) undo
          end
      end
  end.

(** The transaction loop; [n] is [i + 1]. *)
Fixpoint disconnect_txs (n : nat) (block : btc_block_t) (height : Z)
    (view : btc_view_t) (undo : list btc_coin_t)
  : outcome (btc_view_t * list btc_coin_t) :=
  match n with
  | O => Ret (view, undo)
  | S i =>
      let tx := nth i (txs block) btc_tx_init in
      match disconnect_inputs (length (tx_inputs tx)) tx i view undo with
      | Aborted => Aborted
      | Ret (view, undo) =>
          disconnect_txs i block height
            (btc_view_add view tx height true) undo
      end
  end.

Definition btc_chaindb_disconnect_block (db : btc_chaindb) (txn : mdb_t)
    (entry : btc_entry_t) (block : btc_block_t)
  : outcome (mdb_t * option btc_view_t) :=
  let view := btc_view_create in
  match btc_chaindb_read_undo db entry with
  | None => Ret (txn, None)
  | Some undo =>
      match disconnect_txs (length (txs block)) block (e_height entry)
                           view undo with
      | Aborted => Aborted
      | Ret (view, undo) =>
          if negb (length undo =? 0)%nat then Aborted
          else
            let '(txn, ok) := btc_chaindb_save_view txn view in
            if ok =? 0 then Ret (txn, None) else Ret (txn, Some view)
      end
  end.

Definition btc_chaindb_save_block (db : btc_chaindb) (txn : mdb_t)
    (entry : btc_entry_t) (block : btc_block_t) (view : option btc_view_t)
  : outcome (btc_chaindb * mdb_t * btc_entry_t * option btc_view_t * Z) :=
  let '(db, entry, ok) :=
    if block_pos entry =? -1 then btc_chaindb_write_block db entry block
    else (db, entry, 1) in
  if ok =? 0 then Ret (db, txn, entry, view, 0)
  else
    match view with
    | None => Ret (db, txn, entry, None, 1)
    | Some v =>
        match btc_chaindb_connect_block db txn entry block v with
        | Aborted => Aborted
        | Ret (db, txn, entry, v, ok) => Ret (db, txn, entry, Some v, ok)
        end
    end.

Fixpoint entry_update (m : list (bytes * btc_entry_t)) (k : bytes)
    (f : btc_entry_t -> btc_entry_t) : list (bytes * btc_entry_t) :=
  match m with
  | [] => []
  | (k', e) :: rest =>
      if bytes_eqb k' k then (k', f e) :: rest
      else (k', e) :: entry_update rest k f
  end.

Definition commit (db : btc_chaindb) (txn : mdb_t) : btc_chaindb :=
  {| env := txn; files := files db; db_entries := db_entries db;
     hashes := hashes db; heights := heights db; head := head db;
     tail := tail db; file := file db; pos := pos db |}.

(** [btc_chaindb_save]: the return value, the store, the entry and the
    caller's view as they are left.  The transaction is a copy of the
    committed state that replaces it on commit and is dropped on abort
    and when the commit fails. *)
Definition btc_chaindb_save (db : btc_chaindb) (entry : btc_entry_t)
    (block : btc_block_t) (view : option btc_view_t)
  : outcome (Z * btc_chaindb * btc_entry_t * option btc_view_t) :=
  if negb (mdb_rc mdb_txn_begin (env db) =? 0) then Ret (0, db, entry, view)
  else
  let txn := env db in
  match btc_chaindb_save_block db txn entry block view with
  | Aborted => Aborted
  | Ret (db, txn, entry, view', ok) =>
  if ok =? 0 then Ret (0, db, entry, view')
  else
    let '(txn, rc) := mdb_put_F txn (file db, pos db) in
    if negb (rc =? 0) then Ret (0, db, entry, view')
    else
    let '(txn, rc) := mdb_put_index txn (e_hash entry) entry in
    if negb (rc =? 0) then Ret (0, db, entry, view')
    else
    let '(txn, rc) :=
      if negb (e_height entry =? 0)
      then mdb_del_tip txn (prev_block (e_header entry))
      else (txn, 0) in
    if negb (rc =? 0) then Ret (0, db, entry, view')
    else
      let '(txn, rc) := mdb_put_tip txn (e_hash entry) in
      if negb (rc =? 0) then Ret (0, db, entry, view')
      else
      let '(txn, rc) :=
        match view with
        | Some _ => mdb_put_R txn (e_hash entry)
        | None => (txn, 0)
        end in
      if negb (rc =? 0) then Ret (0, db, entry, view')
      else if negb (mdb_rc mdb_txn_commit txn =? 0)
      then Ret (0, db, entry, view')
      else
      let db := commit db txn in
      (* kh_put; CHECK(rc > 0) *)
      if existsb (bytes_eqb (e_hash entry)) (hashes db) then Aborted
      else
        let db :=
          {| env := env db; files := files db;
             db_entries := (e_hash entry, entry) :: db_entries db;
             hashes := e_hash entry :: hashes db; heights := heights db;
             head := head db; tail := tail db;
             file := file db; pos := pos db |} in
        match view with
        | None => Ret (1, db, entry, view')
        | Some _ =>
            let ents :=
              match e_prev entry with
              | Some p =>
                  entry_update (db_entries db) p
                    (fun e => set_next e (Some (e_hash entry)))
              | None => db_entries db
              end in
            if negb (Z.of_nat (length (heights db)) =? e_height entry)
            then Aborted
            else
              Ret (1,
                   {| env := env db; files := files db; db_entries := ents;
                      hashes := hashes db;
                      heights := heights db ++ [e_hash entry];
                      head := if e_height entry =? 0
                              then Some (e_hash entry) else head db;
                      tail := Some (e_hash entry);
                      file := file db; pos := pos db |},
                   entry, view')
        end
  end.

(** [btc_chaindb_disconnect]: the view (NULL is [None]) and the store. *)
Definition btc_chaindb_disconnect (db : btc_chaindb) (entry : btc_entry_t)
    (block : btc_block_t) : outcome (option btc_view_t * btc_chaindb) :=
  if negb (mdb_rc mdb_txn_begin (env db) =? 0) then Ret (None, db)
  else
  let txn := env db in
  match btc_chaindb_disconnect_block db txn entry block with
  | Aborted => Aborted
  | Ret (_, None) => Ret (None, db)
  | Ret (txn, Some view) =>
      let '(txn, rc) := mdb_put_R txn (prev_block (e_header entry)) in
      if negb (rc =? 0) then Ret (None, db)
      else if negb (mdb_rc mdb_txn_commit txn =? 0) then Ret (None, db)
      else
      let db := commit db txn in
      match e_prev entry with
      | None => Aborted
      | Some p =>
          let ents := entry_update (db_entries db) p
                        (fun e => set_next e None) in
          match rev (heights db) with
          | top :: below =>
              if negb (bytes_eqb top (e_hash entry)) then Aborted
              else
                Ret (Some view,
                     {| env := env db; files := files db;
                        db_entries := ents; hashes := hashes db;
                        heights := rev below; head := head db;
                        tail := e_prev entry;
                        file := file db; pos := pos db |})
          | [] => Aborted
          end
      end
  end.

End ChainDB.

(** ** A concrete environment

    Bitcoin's constants, and stand-ins for the hash and the script
    interpreter, to run the definitions on concrete inputs. *)

Definition sample_hash (b : bytes) : bytes :=
  le_bytes 32
    (fold_left (fun acc x => (acc * 257 + Z_of_byte x + 1) mod 2 ^ 256) b 0).

Definition sample : Collaborators :=
  {| BTC_MAX_BLOCK_SIZE := 1000000;
     BTC_SIGHASH_NONE := 2;
     BTC_SIGHASH_SINGLE := 3;
     BTC_SIGHASH_ANYONECANPAY := 0x80;
     BTC_SCRIPT_ERR_OK := 0;
     btc_hash256 := sample_hash;
     btc_header_hash := fun h => sample_hash (prev_block h ++ merkle_root h);
     btc_block_size := fun b => 81 + Z.of_nat (length (txs b));
     btc_undo_size := fun u => 1 + Z.of_nat (length u);
     btc_script_remove_separators := fun s => s;
     btc_script_verify := fun _ _ _ _ _ _ _ cache => (0, cache);
     mdb_rc := fun _ _ => 0;
     btc_fs_open_ok := fun _ => true;
     btc_fs_write_ok := fun _ _ _ => true;
     BTC_MAX_RAW_BLOCK_SIZE := 4000000;
     malloc_ok := fun _ => true |}.

(** Sample values. *)
Definition sample_outpoint (b : byte) (n : Z) : btc_outpoint_t :=
  {| op_hash := repeat b 32; op_index := n |}.

Definition sample_input (b : byte) (n : Z) : btc_input_t :=
  {| in_prevout := sample_outpoint b n; in_script := [];
     in_witness := []; in_sequence := 0xffffffff |}.

Definition sample_tx : btc_tx_t :=
  {| tx_version := 1;
     tx_inputs := [sample_input x0a 0; sample_input x0b 1];
     tx_outputs := [{| out_value := 5000; out_script := [x51] |}];
     tx_locktime := 0 |}.


Definition sample_header : btc_header_t :=
  {| hdr_version := 1; prev_block := repeat x00 32;
     merkle_root := repeat x11 32; hdr_time := 1700000000;
     hdr_bits := 0x1d00ffff; hdr_nonce := 7 |}.

Definition sample_entry (height time : Z) : btc_entry_t :=
  {| e_hash := repeat x22 32; e_header := sample_header;
     e_height := height; e_time := time;
     block_file := 0; block_pos := -1; undo_file := 0; undo_pos := -1;
     e_prev := None; e_next := None |}.

(** What the fsync policy is said to be, over a clock reading [clock]
    that is either -1 (unavailable) or a time. *)
Definition sync_wanted (clock : Z) (entry : btc_entry_t) : Prop :=
  clock = -1
  \/ clock < e_time entry
  \/ 0 <= clock - e_time entry <= 24 * 60 * 60
  \/ e_height entry mod 1000 = 0.

(** [blk->txs.items[index]] for an index in range. *)
Definition tx_at (blk : btc_block_t) (index : Z) : btc_tx_t :=
  nth (Z.to_nat index) (txs blk) btc_tx_init.

Definition in_block (blk : btc_block_t) (index : Z) : Prop :=
  0 <= index < Z.of_nat (length (txs blk)).

Definition sample_coinbase : btc_tx_t :=
  {| tx_version := 1;
     tx_inputs := [{| in_prevout := {| op_hash := repeat x00 32;
                                       op_index := 0xffffffff |};
                      in_script := [x01; x02]; in_witness := [];
                      in_sequence := 0xffffffff |}];
     tx_outputs := [{| out_value := 5000000000; out_script := [x51] |}];
     tx_locktime := 0 |}.

Definition sample_block : btc_block_t :=
  {| header := sample_header; txs := [sample_coinbase; sample_tx] |}.

Section VerifySpec.
Context `{Collaborators}.

(** The sighash cache [btc_tx_verify] holds when it reaches input [i]:
    zeroed at first, then as each verified input leaves it. *)
Fixpoint cache_at (tx : btc_tx_t) (view : btc_view_t) (flags : Z) (i : nat)
  : btc_tx_cache_t :=
  match i with
  | O => cache_zero
  | S k =>
      match btc_view_get view (in_prevout (inp_at tx k)) with
      | Some coin =>
          snd (btc_tx_verify_input tx k (coin_output coin) flags
                 (cache_at tx view flags k))
      | None => cache_at tx view flags k
      end
  end.

(** Input [i] resolves to a coin of the view and passes
    [btc_tx_verify_input] against it. *)
Definition input_verifies (tx : btc_tx_t) (view : btc_view_t) (flags : Z)
    (i : nat) : Prop :=
  exists coin,
    btc_view_get view (in_prevout (inp_at tx i)) = Some coin
    /\ fst (btc_tx_verify_input tx i (coin_output coin) flags
              (cache_at tx view flags i)) = 1.

End VerifySpec.

Section CacheSpec.
Context `{Collaborators}.

(** One use of the segwit sighash on a transaction. *)
Record sighash_call := {
  call_index : nat;
  call_prev : bytes;
  call_value : Z;
  call_type : Z
}.

(** The cache as a sequence of earlier calls on the same transaction
    leaves it, starting from a zeroed one. *)
Definition cache_after (tx : btc_tx_t) (calls : list sighash_call)
  : option btc_tx_cache_t :=
  fold_left
    (fun cache c =>
       snd (btc_tx_sighash_v1 tx (call_index c) (call_prev c) (call_value c)
              (call_type c) cache))
    calls (Some cache_zero).

(** Every slot marked present holds the hash of the transaction's
    prevouts, sequences or outputs. *)
Definition cache_valid (tx : btc_tx_t) (c : btc_tx_cache_t) : Prop :=
  (has_prevouts c = true -> prevouts c = hash_prevouts tx)
  /\ (has_sequences c = true -> sequences c = hash_sequences tx)
  /\ (has_outputs c = true -> outputs c = hash_outputs tx).

Definition cache_valid_opt (tx : btc_tx_t) (c : option btc_tx_cache_t)
  : Prop :=
  match c with
  | Some c => cache_valid tx c
  | None => False
  end.

End CacheSpec.

(** Counting the slots of [avail]. *)
Fixpoint empty_slots (a : list (option btc_tx_t)) : nat :=
  match a with
  | [] => 0
  | None :: rest => S (empty_slots rest)
  | Some _ :: rest => empty_slots rest
  end.

Fixpoint filled_slots (a : list (option btc_tx_t)) : nat :=
  match a with
  | [] => 0
  | None :: rest => filled_slots rest
  | Some _ :: rest => S (filled_slots rest)
  end.

Definition is_filled (s : option btc_tx_t) : Prop := s <> None.

(** The test the prefilled loop of [btc_cmpct_setup] makes on the cursor
    [c] at the [i]-th prefilled transaction. *)
Definition cursor_rejected (blk : btc_cmpct_t) (i : nat) (c : Z) : Prop :=
  c < 0 \/ c > 0xffff \/ c > Z.of_nat (length (ids blk)) + Z.of_nat i.

(** A compact block as received: a coinbase prefilled at position 0 and
    the given short ids. *)
Definition sample_cmpct (l : list Z) : btc_cmpct_t :=
  {| cm_hash := repeat x22 32; cm_header := sample_header;
     key_nonce := 0x0102030405060708; ids := l;
     ptx := [{| _index := 0; ptx_tx := sample_coinbase |}];
     avail := []; id_map := []; count := 0;
     sipkey := repeat x33 32; cm_now := 0 |}.

(** The same block after [btc_cmpct_setup] with one short id: slot 0
    holds the coinbase, slot 1 is empty. *)
Definition sample_ready : btc_cmpct_t :=
  match @btc_cmpct_setup sample (sample_cmpct [0x123456]) with
  | Some (_, blk) => blk
  | None => sample_cmpct [0x123456]
  end.

(** ** What [btc_tx_check_sanity] is said to reject *)

Section SanitySpec.
Context `{Collaborators}.

Definition output_sum (outs : list btc_output_t) : Z :=
  fold_right (fun o s => out_value o + s) 0 outs.

Definition outpoint_null (o : btc_outpoint_t) : Prop :=
  Forall (fun b => b = x00) (op_hash o) /\ op_index o = 0xffffffff.

Definition is_coinbase (tx : btc_tx_t) : Prop :=
  length (tx_inputs tx) = 1%nat /\ outpoint_null (in_prevout (inp_at tx 0)).

Definition vin_empty (tx : btc_tx_t) : Prop := tx_inputs tx = [].
Definition vout_empty (tx : btc_tx_t) : Prop := tx_outputs tx = [].
Definition oversize (tx : btc_tx_t) : Prop :=
  btc_tx_base_size tx > BTC_MAX_BLOCK_SIZE.

(** Some output value is negative or above MAX_MONEY. *)
Definition bad_output_value (tx : btc_tx_t) : Prop :=
  exists o, In o (tx_outputs tx)
            /\ (out_value o < 0 \/ out_value o > BTC_MAX_MONEY).

(** The running sum of the output values leaves [0, MAX_MONEY]. *)
Definition bad_output_total (tx : btc_tx_t) : Prop :=
  exists k, (k <= length (tx_outputs tx))%nat
            /\ ~ (0 <= output_sum (firstn k (tx_outputs tx)) <= BTC_MAX_MONEY).

(** Two inputs share an outpoint. *)
Definition duplicate_inputs (tx : btc_tx_t) : Prop :=
  ~ NoDup (map in_prevout (tx_inputs tx)).

Definition bad_coinbase_length (tx : btc_tx_t) : Prop :=
  is_coinbase tx
  /\ ~ (2 <= Z.of_nat (length (in_script (inp_at tx 0))) <= 100).

Definition null_prevout (tx : btc_tx_t) : Prop :=
  ~ is_coinbase tx
  /\ exists i, In i (tx_inputs tx) /\ outpoint_null (in_prevout i).

(** The rejections scored 100, and the one scored 10. *)
Definition rejected_100 (tx : btc_tx_t) : Prop :=
  vin_empty tx \/ vout_empty tx \/ oversize tx \/ bad_output_value tx
  \/ bad_output_total tx \/ duplicate_inputs tx \/ bad_coinbase_length tx.

Definition rejected_10 (tx : btc_tx_t) : Prop := null_prevout tx.

End SanitySpec.

Definition sample_error : btc_verify_error_t :=
  {| msg := EmptyString; score := 0 |}.

Definition null_input : btc_input_t :=
  {| in_prevout := {| op_hash := repeat x00 32; op_index := 0xffffffff |};
     in_script := []; in_witness := []; in_sequence := 0xffffffff |}.

(** Not a coinbase (two inputs), one of its prevouts null. *)
Definition sample_null_prevout_tx : btc_tx_t :=
  {| tx_version := 1;
     tx_inputs := [sample_input x0a 0; null_input];
     tx_outputs := [{| out_value := 5000; out_script := [x51] |}];
     tx_locktime := 0 |}.

(** Two null prevouts: a duplicate and a null prevout at once. *)
Definition sample_twice_null_tx : btc_tx_t :=
  {| tx_version := 1;
     tx_inputs := [null_input; null_input];
     tx_outputs := [{| out_value := 5000; out_script := [x51] |}];
     tx_locktime := 0 |}.

(** ** Values that fit their C types *)

Definition fits_u32 (x : Z) : Prop := 0 <= x < 2 ^ 32.
Definition fits_i64 (x : Z) : Prop := - 2 ^ 63 <= x < 2 ^ 63.
Definition fits_size (n : nat) : Prop := Z.of_nat n < 2 ^ 64.

Definition outpoint_wf (o : btc_outpoint_t) : Prop :=
  length (op_hash o) = 32%nat /\ fits_u32 (op_index o).

Definition input_wf (i : btc_input_t) : Prop :=
  outpoint_wf (in_prevout i)
  /\ fits_size (length (in_script i))
  /\ fits_u32 (in_sequence i)
  /\ fits_size (length (in_witness i))
  /\ Forall (fun item => fits_size (length item)) (in_witness i).

Definition output_wf (o : btc_output_t) : Prop :=
  fits_i64 (out_value o) /\ fits_size (length (out_script o)).

Definition tx_wf (tx : btc_tx_t) : Prop :=
  fits_u32 (tx_version tx)
  /\ fits_u32 (tx_locktime tx)
  /\ fits_size (length (tx_inputs tx))
  /\ fits_size (length (tx_outputs tx))
  /\ Forall input_wf (tx_inputs tx)
  /\ Forall output_wf (tx_outputs tx).

(** The encoding of a transaction with the marker pair 0x00 0x01 and one
    witness stack per input, whether or not any stack has an item. *)
Definition btc_tx_write_marked (zp : bytes) (tx : btc_tx_t) : bytes :=
  let zp := btc_uint32_write zp (tx_version tx) in
  let zp := btc_uint8_write (btc_uint8_write zp 0) 1 in
  let zp := btc_inpvec_write zp (tx_inputs tx) in
  let zp := btc_outvec_write zp (tx_outputs tx) in
  let zp := fold_left (fun z i => btc_stack_write z (in_witness i))
                      (tx_inputs tx) zp in
  btc_uint32_write zp (tx_locktime tx).

Definition sample_witness_tx : btc_tx_t :=
  {| tx_version := 2;
     tx_inputs := [{| in_prevout := sample_outpoint x0a 0; in_script := [];
                      in_witness := [[x30; x44]; [x02; x03]];
                      in_sequence := 0xfffffffe |};
                   sample_input x0b 1];
     tx_outputs := [{| out_value := 5000; out_script := [x51] |}];
     tx_locktime := 500000 |}.

(** No inputs, one output. *)
Definition sample_inputless_tx : btc_tx_t :=
  {| tx_version := 1; tx_inputs := [];
     tx_outputs := [{| out_value := 5000; out_script := [x51] |}];
     tx_locktime := 0 |}.

(** Discharges the range conditions of a concrete value. *)
Ltac fits :=
  unfold tx_wf, input_wf, output_wf, outpoint_wf, fits_u32, fits_i64,
    fits_size; simpl;
  repeat (split || constructor || simpl || lia).

(** ** A sample chain: genesis, a block whose coinbase has two outputs,
    and a block that spends both *)

Definition chain_coinbase (tag : byte) (outs : list btc_output_t) : btc_tx_t :=
  {| tx_version := 1;
     tx_inputs := [{| in_prevout := {| op_hash := repeat x00 32;
                                       op_index := 0xffffffff |};
                      in_script := [x01; tag]; in_witness := [];
                      in_sequence := 0xffffffff |}];
     tx_outputs := outs;
     tx_locktime := 0 |}.

Definition block_entry (blk : btc_block_t) (height : Z) (prev : option bytes)
  : btc_entry_t :=
  {| e_hash := @btc_header_hash sample (header blk);
     e_header := header blk; e_height := height;
     e_time := hdr_time (header blk);
     block_file := 0; block_pos := -1; undo_file := 0; undo_pos := -1;
     e_prev := prev; e_next := None |}.

Definition chain_header (prev : bytes) (tag : byte) : btc_header_t :=
  {| hdr_version := 1; prev_block := prev; merkle_root := repeat tag 32;
     hdr_time := 1700000000; hdr_bits := 0x1d00ffff; hdr_nonce := 7 |}.

Definition empty_db : btc_chaindb :=
  {| env := {| meta_F := None; meta_R := None; db_coin := [];
               db_index := []; db_tip := [] |};
     files := []; db_entries := []; hashes := []; heights := [];
     head := None; tail := None; file := 0; pos := 0 |}.

Definition block0 : btc_block_t :=
  {| header := chain_header (repeat x00 32) x01;
     txs := [chain_coinbase x00 [{| out_value := 50; out_script := [x51] |}]] |}.
Definition entry0 : btc_entry_t := block_entry block0 0 None.

Definition coinbase1 : btc_tx_t :=
  chain_coinbase x01 [{| out_value := 30; out_script := [x51] |};
                      {| out_value := 20; out_script := [x52] |}].
Definition block1 : btc_block_t :=
  {| header := chain_header (e_hash entry0) x02; txs := [coinbase1] |}.
Definition entry1 : btc_entry_t := block_entry block1 1 (Some (e_hash entry0)).

(** The two coins of [coinbase1]. *)
Definition coin_a : btc_outpoint_t :=
  {| op_hash := @btc_tx_txid sample coinbase1; op_index := 0 |}.
Definition coin_b : btc_outpoint_t :=
  {| op_hash := @btc_tx_txid sample coinbase1; op_index := 1 |}.

Definition spend_tx : btc_tx_t :=
  {| tx_version := 1;
     tx_inputs := [{| in_prevout := coin_a; in_script := [];
                      in_witness := []; in_sequence := 0xffffffff |};
                   {| in_prevout := coin_b; in_script := [];
                      in_witness := []; in_sequence := 0xffffffff |}];
     tx_outputs := [{| out_value := 45; out_script := [x53] |}];
     tx_locktime := 0 |}.

Definition coinbase2 : btc_tx_t :=
  chain_coinbase x02 [{| out_value := 55; out_script := [x51] |}].

Definition block2 : btc_block_t :=
  {| header := chain_header (e_hash entry1) x03;
     txs := [coinbase2; spend_tx] |}.
Definition entry2 : btc_entry_t := block_entry block2 2 (Some (e_hash entry1)).

(** The same spend in a block that is nothing else. *)
Definition block2' : btc_block_t :=
  {| header := chain_header (e_hash entry1) x04; txs := [spend_tx] |}.
Definition entry2' : btc_entry_t := block_entry block2' 2 (Some (e_hash entry1)).

Definition saved (r : outcome (Z * btc_chaindb * btc_entry_t
                               * option btc_view_t)) : btc_chaindb :=
  match r with
  | Ret (_, db, _, _) => db
  | Aborted => empty_db
  end.

(** The store after saving genesis and [block1] on the main chain. *)
Definition db1 : btc_chaindb :=
  let db := saved (@btc_chaindb_save sample empty_db entry0 block0
                     (Some btc_view_create)) in
  saved (@btc_chaindb_save sample db entry1 block1
           (Some (@btc_view_add sample btc_view_create coinbase1 1 false))).

(** The view of a block over [db1]: every non-coinbase transaction is
    spent through [btc_chaindb_spend], and every transaction's outputs
    are added. *)
Definition block_view (blk : btc_block_t) (height : Z) : btc_view_t :=
  let v :=
    fold_left (fun v tx => if @btc_tx_is_coinbase tx then v
                           else fst (@btc_chaindb_spend sample db1 v tx))
              (txs blk) btc_view_create in
  fold_left (fun v tx => @btc_view_add sample v tx height false) (txs blk) v.

Definition coin_table (db : btc_chaindb) : list (btc_outpoint_t * btc_coin_t) :=
  db_coin (env db).

(** Saving [block2], and the block without coinbase, on top of [db1]. *)
Definition save2 :=
  @btc_chaindb_save sample db1 entry2 block2 (Some (block_view block2 2)).
Definition db2 : btc_chaindb := saved save2.
Definition entry2_saved : btc_entry_t :=
  match save2 with Ret (_, _, e, _) => e | Aborted => entry2 end.

Definition save2' :=
  @btc_chaindb_save sample db1 entry2' block2' (Some (block_view block2' 2)).
Definition db2' : btc_chaindb := saved save2'.
Definition entry2'_saved : btc_entry_t :=
  match save2' with Ret (_, _, e, _) => e | Aborted => entry2' end.

(** The coins [db1] holds at [coin_a] and [coin_b]. *)
Definition value_a : btc_coin_t := @btc_tx_coin coinbase1 0 1.
Definition value_b : btc_coin_t := @btc_tx_coin coinbase1 1 1.

(** A prefilled transaction as [btc_cmpct_read] leaves it: the parser
    refuses an index above 0xffff. *)
Definition prefilled_ok (p : btc_ptx_t) : Prop := 0 <= _index p <= 0xffff.

(** The state the prefilled loop of [btc_cmpct_setup] keeps: [count] is
    the number of filled slots, and every slot past the cursor is empty. *)
Definition setup_inv (blk : btc_cmpct_t) (last : Z) : Prop :=
  count blk = Z.of_nat (filled_slots (avail blk))
  /\ (forall p, last < Z.of_nat p -> (p < length (avail blk))%nat ->
        nth_error (avail blk) p = Some None)
  /\ -1 <= last <= 0xffff.

(** Disconnecting the block without coinbase again. *)
Definition disconnected2' :=
  @btc_chaindb_disconnect sample db2' entry2'_saved block2'.
Definition view3' : btc_view_t :=
  match disconnected2' with
  | Ret (Some v, _) => v
  | _ => btc_view_create
  end.
Definition db3' : btc_chaindb :=
  match disconnected2' with
  | Ret (_, d) => d
  | Aborted => empty_db
  end.

(** The cursor values the prefilled loop goes through, from [last] on. *)
Fixpoint cursors (l : list btc_ptx_t) (last : Z) : list Z :=
  match l with
  | [] => []
  | tx :: rest =>
      let c := setup_cursor last tx in c :: cursors rest c
  end.

(** Some prefilled transaction, the [k]-th from position [i], meets a
    rejected cursor. *)
Definition some_cursor_rejected (blk : btc_cmpct_t) (l : list btc_ptx_t)
    (i : nat) (last : Z) : Prop :=
  exists k, (k < length l)%nat
            /\ cursor_rejected blk (i + k) (nth k (cursors l last) 0).

(* ================================================================== *)
(** * Part I, continued: the rest of the three files *)
(* ================================================================== *)

(** ** More external collaborators

    Constants of [satoshi/consensus.h] and [satoshi/script.h] and the
    hash functions of [satoshi/crypto], none of them part of the sources. *)

Class Params := {
  BTC_LOCKTIME_THRESHOLD : Z;
  BTC_SEQUENCE_DISABLE_FLAG : Z;
  BTC_SEQUENCE_TYPE_FLAG : Z;
  BTC_SEQUENCE_MASK : Z;
  (** [btc_siphash_sum(data, len, key)], a uint64_t *)
  btc_siphash_sum : bytes -> bytes -> Z;
  btc_sha256 : bytes -> bytes;
  (** [btc_random()], a uint32_t, by the number of earlier calls *)
  btc_random : nat -> Z
}.

(** Modelled from the spec: "immature coinbase spend before
    COINBASE_MATURITY = 100 confirmations". *)
Definition BTC_COINBASE_MATURITY : Z := 100.

(** Modelled from the spec: "weight = base*4 + witness; vsize =
    ceil(weight/4)". *)
Definition BTC_WITNESS_SCALE_FACTOR : Z := 4.

(** Modelled from the spec: [btc_stack_size], the length of what
    [btc_stack_write] emits ("witness_size: 2 + sum of witness stack sizes
    when witness present"). *)
Definition btc_stack_size (st : list bytes) : Z :=
  Z.of_nat (length (btc_stack_write [] st)).

(** ** [src/tx.c], continued *)

Section TxMore.
Context `{Collaborators} `{Params}.

Definition btc_tx_is_rbf (tx : btc_tx_t) : bool :=
  existsb (fun i => in_sequence i <? 0xfffffffe) (tx_inputs tx).

Definition btc_tx_is_final (tx : btc_tx_t) (height time : Z) : bool :=
  if tx_locktime tx =? 0 then true
  else if tx_locktime tx
          <? (if tx_locktime tx <? BTC_LOCKTIME_THRESHOLD
              then height else time)
  then true
  else if existsb (fun i => negb (in_sequence i =? 0xffffffff))
                  (tx_inputs tx)
  then false
  else true.

Definition btc_tx_verify_locktime (tx : btc_tx_t) (index : nat)
    (predicate : Z) : bool :=
  let input := inp_at tx index in
  if negb (Bool.eqb (tx_locktime tx <? BTC_LOCKTIME_THRESHOLD)
                    (predicate <? BTC_LOCKTIME_THRESHOLD)) then false
  else if predicate >? tx_locktime tx then false
  else if in_sequence input =? 0xffffffff then false
  else true.

Definition btc_tx_verify_sequence (tx : btc_tx_t) (index : nat)
    (predicate : Z) : bool :=
  let input := inp_at tx index in
  if negb (Z.land predicate BTC_SEQUENCE_DISABLE_FLAG =? 0) then true
  else if tx_version tx <? 2 then false
  else if negb (Z.land (in_sequence input) BTC_SEQUENCE_DISABLE_FLAG =? 0)
  then false
  else if negb (Z.land (in_sequence input) BTC_SEQUENCE_TYPE_FLAG
                =? Z.land predicate BTC_SEQUENCE_TYPE_FLAG) then false
  else if Z.land predicate BTC_SEQUENCE_MASK
          >? Z.land (in_sequence input) BTC_SEQUENCE_MASK then false
  else true.

(** The loop of [btc_tx_input_value]; [total] is an int64_t. *)
Fixpoint input_value_from (ins : list btc_input_t) (view : btc_view_t)
    (total : Z) : Z :=
  match ins with
  | [] => total
  | input :: rest =>
      match btc_view_get view (in_prevout input) with
      | None => -1
      | Some coin =>
          input_value_from rest view
            (i64 (total + out_value (coin_output coin)))
      end
  end.

Definition btc_tx_input_value (tx : btc_tx_t) (view : btc_view_t) : Z :=
  input_value_from (tx_inputs tx) view 0.

Definition btc_tx_output_value (tx : btc_tx_t) : Z :=
  fold_left (fun total o => i64 (total + out_value o)) (tx_outputs tx) 0.

Definition btc_tx_fee (tx : btc_tx_t) (view : btc_view_t) : Z :=
  let value := btc_tx_input_value tx view in
  if value <? 0 then -1
  else i64 (value - btc_tx_output_value tx).

(** The input loop of [btc_check_inputs]: a complaint, or the total.
    [Aborted] is the failed CHECK(height >= coin->height). *)
Fixpoint check_inputs_from (ins : list btc_input_t) (view : btc_view_t)
    (height : Z) (total : Z) : outcome (string * Z + Z) :=
  match ins with
  | [] => Ret (inr total)
  | input :: rest =>
      match btc_view_get view (in_prevout input) with
      | None => Ret (inl ("bad-txns-inputs-missingorspent"%string, 0))
      | Some coin =>
          if coin_coinbase coin && negb (height >=? coin_height coin)
          then Aborted
          else if coin_coinbase coin
                  && (u32 (height - coin_height coin)
                      <? BTC_COINBASE_MATURITY)
          then Ret (inl ("bad-txns-premature-spend-of-coinbase"%string, 0))
          else if (out_value (coin_output coin) <? 0)
                  || (out_value (coin_output coin) >? BTC_MAX_MONEY)
          then Ret (inl ("bad-txns-inputvalues-outofrange"%string, 100))
          else
            let total := i64 (total + out_value (coin_output coin)) in
            if (total <? 0) || (total >? BTC_MAX_MONEY)
            then Ret (inl ("bad-txns-inputvalues-outofrange"%string, 100))
            else check_inputs_from rest view height total
      end
  end.

Definition btc_check_inputs (err : option btc_verify_error_t)
    (tx : btc_tx_t) (view : btc_view_t) (height : Z)
  : outcome (Z * option btc_verify_error_t) :=
  match check_inputs_from (tx_inputs tx) view height 0 with
  | Aborted => Aborted
  | Ret (inl (m, s)) => Ret (THROW err m s)
  | Ret (inr total) =>
      let value := btc_tx_output_value tx in
      if total <? value then Ret (THROW err "bad-txns-in-belowout" 100)
      else
        let fee := i64 (total - value) in
        if fee <? 0 then Ret (THROW err "bad-txns-fee-negative" 100)
        else if fee >? BTC_MAX_MONEY
        then Ret (THROW err "bad-txns-fee-outofrange" 100)
        else Ret (1, err)
  end.

Definition btc_tx_witness_size (tx : btc_tx_t) : Z :=
  if btc_tx_has_witness tx
  then fold_left (fun size i => size + btc_stack_size (in_witness i))
                 (tx_inputs tx) 2
  else 0.

Definition btc_tx_size (tx : btc_tx_t) : Z :=
  btc_tx_base_size tx + btc_tx_witness_size tx.

Definition btc_tx_weight (tx : btc_tx_t) : Z :=
  btc_tx_base_size tx * BTC_WITNESS_SCALE_FACTOR + btc_tx_witness_size tx.

Definition btc_tx_virtual_size (tx : btc_tx_t) : Z :=
  (btc_tx_weight tx + BTC_WITNESS_SCALE_FACTOR - 1) / BTC_WITNESS_SCALE_FACTOR.

End TxMore.

(** ** What the new properties speak of *)

(** [tx'] is [tx] with other witness stacks. *)
Definition same_but_witness (tx tx' : btc_tx_t) : Prop :=
  tx_version tx' = tx_version tx
  /\ tx_locktime tx' = tx_locktime tx
  /\ tx_outputs tx' = tx_outputs tx
  /\ map (fun i => set_witness i []) (tx_inputs tx')
     = map (fun i => set_witness i []) (tx_inputs tx).

(** [tx'] agrees with [tx] on everything but the inputs other than the
    one at [index]. *)
Definition same_at_input (tx tx' : btc_tx_t) (index : nat) : Prop :=
  tx_version tx' = tx_version tx
  /\ tx_locktime tx' = tx_locktime tx
  /\ tx_outputs tx' = tx_outputs tx
  /\ inp_at tx' index = inp_at tx index.

(** [tx'] is [tx] with other outputs. *)
Definition same_but_outputs (tx tx' : btc_tx_t) : Prop :=
  tx_version tx' = tx_version tx
  /\ tx_locktime tx' = tx_locktime tx
  /\ tx_inputs tx' = tx_inputs tx.

(** Bitcoin's values for the new constants, and stand-ins for the hashes. *)
Definition sample_params : Params :=
  {| BTC_LOCKTIME_THRESHOLD := 500000000;
     BTC_SEQUENCE_DISABLE_FLAG := 0x80000000;
     BTC_SEQUENCE_TYPE_FLAG := 0x400000;
     BTC_SEQUENCE_MASK := 0xffff;
     btc_siphash_sum := fun data key => le_value (firstn 8 (sample_hash (key ++ data)));
     btc_sha256 := sample_hash;
     btc_random := fun n => 0x01020304 + Z.of_nat n |}.

(** A view that holds the two coins of [coinbase1]. *)
Definition sample_view : btc_view_t :=
  {| view_map := [(coin_a, value_a); (coin_b, value_b)]; view_undo := [] |}.

(** [sample_tx] with another first input, and with another output. *)
Definition sample_tx_other_input : btc_tx_t :=
  {| tx_version := 1;
     tx_inputs := [sample_input x0c 7; sample_input x0b 1];
     tx_outputs := tx_outputs sample_tx;
     tx_locktime := 0 |}.

Definition sample_tx_other_output : btc_tx_t :=
  {| tx_version := 1;
     tx_inputs := tx_inputs sample_tx;
     tx_outputs := [{| out_value := 1; out_script := [x52] |};
                    {| out_value := 2; out_script := [] |}];
     tx_locktime := 0 |}.

(** Locked until block 700000, with an input that is not final. *)
Definition sample_locked_tx : btc_tx_t :=
  {| tx_version := 2;
     tx_inputs := [{| in_prevout := sample_outpoint x0a 0; in_script := [];
                      in_witness := []; in_sequence := 0xfffffffe |}];
     tx_outputs := [{| out_value := 5000; out_script := [x51] |}];
     tx_locktime := 700000 |}.

(** ** [src/bip152.c], continued *)

(** Modelled from the spec: the header codec, "header (80 B)": version,
    prev_block, merkle_root, time, bits, nonce. *)
Definition btc_header_write (zp : bytes) (h : btc_header_t) : bytes :=
  let zp := btc_uint32_write zp (hdr_version h) in
  let zp := btc_raw_write zp (prev_block h) 32 in
  let zp := btc_raw_write zp (merkle_root h) 32 in
  let zp := btc_uint32_write zp (hdr_time h) in
  let zp := btc_uint32_write zp (hdr_bits h) in
  btc_uint32_write zp (hdr_nonce h).

Definition btc_header_read (xp : bytes) : option (btc_header_t * bytes) :=
  match btc_uint32_read xp with
  | None => None
  | Some (version, xp) =>
  match btc_raw_read 32 xp with
  | None => None
  | Some (prev, xp) =>
  match btc_raw_read 32 xp with
  | None => None
  | Some (root, xp) =>
  match btc_uint32_read xp with
  | None => None
  | Some (time, xp) =>
  match btc_uint32_read xp with
  | None => None
  | Some (bits, xp) =>
  match btc_uint32_read xp with
  | None => None
  | Some (nonce, xp) =>
      Some ({| hdr_version := version; prev_block := prev;
               merkle_root := root; hdr_time := time; hdr_bits := bits;
               hdr_nonce := nonce |}, xp)
  end end end end end end.

(** Modelled from the spec: [btc_tx_base_write], the "canonical
    non-witness serialization: version, varint(#inputs), inputs,
    varint(#outputs), outputs, locktime". *)
Definition btc_tx_base_write (zp : bytes) (tx : btc_tx_t) : bytes :=
  let zp := btc_uint32_write zp (tx_version tx) in
  let zp := btc_inpvec_write zp (tx_inputs tx) in
  let zp := btc_outvec_write zp (tx_outputs tx) in
  btc_uint32_write zp (tx_locktime tx).

Definition set_ids_ptx (z : btc_cmpct_t) (l : list Z) (p : list btc_ptx_t)
  : btc_cmpct_t :=
  {| cm_hash := cm_hash z; cm_header := cm_header z;
     key_nonce := key_nonce z; ids := l; ptx := p;
     avail := avail z; id_map := id_map z; count := count z;
     sipkey := sipkey z; cm_now := cm_now z |}.

Definition set_sipkey (z : btc_cmpct_t) (k : bytes) : btc_cmpct_t :=
  {| cm_hash := cm_hash z; cm_header := cm_header z;
     key_nonce := key_nonce z; ids := ids z; ptx := ptx z;
     avail := avail z; id_map := id_map z; count := count z;
     sipkey := k; cm_now := cm_now z |}.

Definition set_header (z : btc_cmpct_t) (hash : bytes) (h : btc_header_t)
    (nonce : Z) : btc_cmpct_t :=
  {| cm_hash := hash; cm_header := h;
     key_nonce := nonce; ids := ids z; ptx := ptx z;
     avail := avail z; id_map := id_map z; count := count z;
     sipkey := sipkey z; cm_now := cm_now z |}.

Section Bip152More.
Context `{Collaborators} `{Params}.

Definition btc_cmpct_sid (blk : btc_cmpct_t) (hash : bytes) : Z :=
  Z.land (btc_siphash_sum hash (sipkey blk)) 0xffffffffffff.

Definition btc_cmpct_key (blk : btc_cmpct_t) : bytes :=
  let data := btc_header_write [] (cm_header blk) in
  let data := btc_uint64_write data (key_nonce blk) in
  btc_sha256 data.

(** [btc_cmpct_set_block]; [None] is a failed CHECK.  The two calls of
    [btc_random] are numbered as they stand in the expression. *)
Definition btc_cmpct_set_block (z : btc_cmpct_t) (x : btc_block_t)
    (witness : bool) : option btc_cmpct_t :=
  match txs x with
  | [] => None
  | first :: rest =>
      let z := set_header z (btc_header_hash (header x)) (header x)
                 (Z.lor (u64 (Z.shiftl (btc_random 0) 32)) (btc_random 1)) in
      let z := set_sipkey z (btc_cmpct_key z) in
      if negb (length (ids z) =? 0)%nat then None
      else
        let l :=
          map (fun tx => btc_cmpct_sid z (if witness then btc_tx_wtxid tx
                                          else btc_tx_txid tx))
              rest in
        if negb (length (ptx z) =? 0)%nat then None
        else
          Some (set_ids_ptx z l
                  [{| _index := 0; ptx_tx := btc_tx_clone first |}])
  end.

(** The loop of [btc_cmpct_finalize]: the transactions of the slots, or
    [None] at a NULL slot. *)
Fixpoint take_slots (a : list (option btc_tx_t)) : option (list btc_tx_t) :=
  match a with
  | [] => Some []
  | None :: _ => None
  | Some tx :: rest =>
      match take_slots rest with
      | None => None
      | Some l => Some (tx :: l)
      end
  end.

(** [btc_cmpct_finalize]: the block and the compact block as they are
    left; [None] is a failed CHECK. *)
Definition btc_cmpct_finalize (z : btc_block_t) (x : btc_cmpct_t)
  : option (btc_block_t * btc_cmpct_t) :=
  let total := (length (ptx x) + length (ids x))%nat in
  if negb (length (txs z) =? 0)%nat then None
  else if negb (length (avail x) =? total)%nat then None
  else if negb (count x =? Z.of_nat total) then None
  else
    match take_slots (avail x) with
    | None => None
    | Some l =>
        Some ({| header := cm_header x; txs := l |},
              set_avail x (map (fun _ => None) (avail x)) (count x))
    end.

(** [btc_cmpct__write] *)
Definition id_write (zp : bytes) (id : Z) : bytes :=
  let lo := Z.land id 0xffffffff in
  let hi := Z.shiftr id 32 mod 2 ^ 16 in
  btc_uint16_write (btc_uint32_write zp lo) hi.

Definition ptx_write (witness : bool) (zp : bytes) (tx : btc_ptx_t) : bytes :=
  let zp := btc_size_write zp (_index tx) in
  if witness then btc_tx_write zp (ptx_tx tx)
  else btc_tx_base_write zp (ptx_tx tx).

Definition btc_cmpct__write (zp : bytes) (x : btc_cmpct_t) (witness : bool)
  : bytes :=
  let zp := btc_header_write zp (cm_header x) in
  let zp := btc_uint64_write zp (key_nonce x) in
  let zp := btc_size_write zp (Z.of_nat (length (ids x))) in
  let zp := fold_left id_write (ids x) zp in
  let zp := btc_size_write zp (Z.of_nat (length (ptx x))) in
  fold_left (ptx_write witness) (ptx x) zp.

Definition btc_cmpct_base_write (zp : bytes) (x : btc_cmpct_t) : bytes :=
  btc_cmpct__write zp x false.

Definition btc_cmpct_write (zp : bytes) (x : btc_cmpct_t) : bytes :=
  btc_cmpct__write zp x true.

(** The two loops of [btc_cmpct_read]. *)
Definition id_read (xp : bytes) : option (Z * bytes) :=
  match btc_uint32_read xp with
  | None => None
  | Some (lo, xp) =>
      match btc_uint16_read xp with
      | None => None
      | Some (hi, xp) => Some (Z.lor (Z.shiftl hi 32) lo, xp)
      end
  end.

Definition ptx_read (txlen idlen : Z) (xp : bytes)
  : option (btc_ptx_t * bytes) :=
  match btc_size_read xp with
  | None => None
  | Some (index, xp) =>
      if index >? 0xffff then None
      else if index >=? u64 (txlen + idlen) then None
      else
        match btc_tx_read xp with
        | None => None
        | Some (tx, xp) => Some ({| _index := index; ptx_tx := tx |}, xp)
        end
  end.

(** [btc_cmpct_read]: [Aborted] is a failed CHECK, [Ret None] the
    return value 0. *)
Definition btc_cmpct_read (z : btc_cmpct_t) (xp : bytes)
  : outcome (option (btc_cmpct_t * bytes)) :=
  match btc_header_read xp with
  | None => Ret None
  | Some (h, xp) =>
  match btc_uint64_read xp with
  | None => Ret None
  | Some (nonce, xp) =>
      let z := set_header z (btc_header_hash h) h nonce in
      let z := set_sipkey z (btc_cmpct_key z) in
      match btc_size_read xp with
      | None => Ret None
      | Some (idlen, xp) =>
          if negb (length (ids z) =? 0)%nat then Aborted
          else
            match read_items id_read (Z.to_nat idlen) xp with
            | None => Ret None
            | Some (l, xp) =>
                match btc_size_read xp with
                | None => Ret None
                | Some (txlen, xp) =>
                    if negb (length (ptx z) =? 0)%nat then Aborted
                    else
                      match read_items (ptx_read txlen idlen)
                                       (Z.to_nat txlen) xp with
                      | None => Ret None
                      | Some (p, xp) => Ret (Some (set_ids_ptx z l p, xp))
                      end
                end
            end
      end
  end end.

(** The loop of [btc_getblocktxn_set_cmpct]; [i] is the position of the
    head of [a]. *)
Fixpoint missing_from (a : list (option btc_tx_t)) (i : nat)
    (acc : list Z) : list Z :=
  match a with
  | [] => acc
  | None :: rest => missing_from rest (S i) (acc ++ [Z.of_nat i])
  | Some _ :: rest => missing_from rest (S i) acc
  end.

Definition btc_getblocktxn_set_cmpct (z : btc_getblocktxn_t)
    (x : btc_cmpct_t) : option btc_getblocktxn_t :=
  if negb (length (indexes z) =? 0)%nat then None
  else
    Some {| gb_hash := btc_header_hash (cm_header x);
            indexes := missing_from (avail x) 0 (indexes z) |}.

(** The loop of [btc_getblocktxn_write]; [prev] is [items[i - 1]] when
    [i > 0]. *)
Fixpoint indexes_write (zp : bytes) (prev : option Z) (l : list Z) : bytes :=
  match l with
  | [] => zp
  | x :: rest =>
      let index :=
        match prev with
        | None => x
        | Some p => u64 (x - u64 (p + 1))
        end in
      indexes_write (btc_size_write zp index) (Some x) rest
  end.

Definition btc_getblocktxn_write (zp : bytes) (x : btc_getblocktxn_t)
  : bytes :=
  let zp := btc_raw_write zp (gb_hash x) 32 in
  let zp := btc_size_write zp (Z.of_nat (length (indexes x))) in
  indexes_write zp None (indexes x).

(** The two loops of [btc_getblocktxn_read]. *)
Definition index_read (xp : bytes) : option (Z * bytes) :=
  match btc_size_read xp with
  | None => None
  | Some (index, xp) => if index >? 0xffff then None else Some (index, xp)
  end.

Fixpoint absolute_from (l : list Z) (offset : Z) : option (list Z) :=
  match l with
  | [] => Some []
  | index :: rest =>
      let index := u64 (index + offset) in
      if index >? 0xffff then None
      else
        match absolute_from rest (u64 (index + 1)) with
        | None => None
        | Some l' => Some (index :: l')
        end
  end.

Definition btc_getblocktxn_read (z : btc_getblocktxn_t) (xp : bytes)
  : outcome (option (btc_getblocktxn_t * bytes)) :=
  if negb (length (indexes z) =? 0)%nat then Aborted
  else
    match btc_raw_read 32 xp with
    | None => Ret None
    | Some (hash, xp) =>
        match btc_size_read xp with
        | None => Ret None
        | Some (n, xp) =>
            match read_items index_read (Z.to_nat n) xp with
            | None => Ret None
            | Some (l, xp) =>
                match absolute_from l 0 with
                | None => Ret None
                | Some l' =>
                    Ret (Some ({| gb_hash := hash; indexes := l' |}, xp))
                end
            end
        end
    end.

(** Modelled from the spec: the transaction vector codec of the vector
    macro of [impl.h], "varint(#txs), txs". *)
Definition btc_txvec_write (zp : bytes) (v : list btc_tx_t) : bytes :=
  fold_left btc_tx_write v (btc_size_write zp (Z.of_nat (length v))).

Definition btc_txvec_read : bytes -> option (list btc_tx_t * bytes) :=
  read_vector btc_tx_read.

Definition btc_blocktxn_write (zp : bytes) (x : btc_blocktxn_t) : bytes :=
  btc_txvec_write (btc_raw_write zp (bt_hash x) 32) (bt_txs x).

Definition btc_blocktxn_read (z : btc_blocktxn_t) (xp : bytes)
  : outcome (option (btc_blocktxn_t * bytes)) :=
  if negb (length (bt_txs z) =? 0)%nat then Aborted
  else
    match btc_raw_read 32 xp with
    | None => Ret None
    | Some (hash, xp) =>
        match btc_txvec_read xp with
        | None => Ret None
        | Some (l, xp) => Ret (Some ({| bt_hash := hash; bt_txs := l |}, xp))
        end
    end.

End Bip152More.

(** ** What the compact block properties speak of *)

(** Strictly ascending indexes from [lo] on, none above 0xffff: what a
    GetBlockTxn message can carry. *)
Fixpoint ascending_from (lo : Z) (l : list Z) : Prop :=
  match l with
  | [] => True
  | x :: rest => lo <= x <= 0xffff /\ ascending_from (x + 1) rest
  end.

(** The differences [btc_getblocktxn_write] emits for indexes that
    ascend from [offset]. *)
Fixpoint deltas (offset : Z) (l : list Z) : list Z :=
  match l with
  | [] => []
  | x :: rest => (x - offset) :: deltas (x + 1) rest
  end.

Definition sample_request : btc_getblocktxn_t :=
  {| gb_hash := repeat x22 32; indexes := [1; 2; 5; 300] |}.

Definition empty_request : btc_getblocktxn_t :=
  {| gb_hash := repeat x00 32; indexes := [] |}.

(** A header whose fields fit the 80 bytes of its encoding. *)
Definition header_wf (h : btc_header_t) : Prop :=
  fits_u32 (hdr_version h)
  /\ length (prev_block h) = 32%nat
  /\ length (merkle_root h) = 32%nat
  /\ fits_u32 (hdr_time h)
  /\ fits_u32 (hdr_bits h)
  /\ fits_u32 (hdr_nonce h).

(** A transaction [btc_tx_read] reads back: its fields fit their C
    types and it does not have outputs without inputs. *)
Definition tx_readable (tx : btc_tx_t) : Prop :=
  tx_wf tx /\ (tx_inputs tx <> [] \/ tx_outputs tx = []).

(** A prefilled transaction [btc_cmpct_read] accepts in a compact block
    of [total] transactions. *)
Definition ptx_wf (total : Z) (p : btc_ptx_t) : Prop :=
  0 <= _index p <= 0xffff /\ _index p < total /\ tx_readable (ptx_tx p).

Definition cmpct_wf (x : btc_cmpct_t) : Prop :=
  header_wf (cm_header x)
  /\ 0 <= key_nonce x < 2 ^ 64
  /\ Z.of_nat (length (ptx x) + length (ids x)) < 2 ^ 64
  /\ Forall (fun id => 0 <= id < 2 ^ 48) (ids x)
  /\ Forall (ptx_wf (Z.of_nat (length (ptx x) + length (ids x)))) (ptx x).

Definition sample_response : btc_blocktxn_t :=
  {| bt_hash := repeat x22 32; bt_txs := [sample_tx; sample_witness_tx] |}.

Definition empty_response : btc_blocktxn_t :=
  {| bt_hash := repeat x00 32; bt_txs := [] |}.

(** An empty block, as [btc_block_create] leaves it. *)
Definition empty_block : btc_block_t :=
  {| header := sample_header; txs := [] |}.

(** A compact block with nothing in it yet. *)
Definition empty_cmpct : btc_cmpct_t :=
  {| cm_hash := repeat x00 32; cm_header := sample_header; key_nonce := 0;
     ids := []; ptx := []; avail := []; id_map := []; count := 0;
     sipkey := repeat x00 32; cm_now := 0 |}.

(** A block of three transactions. *)
Definition sample_block3 : btc_block_t :=
  {| header := sample_header;
     txs := [sample_coinbase; sample_tx; sample_witness_tx] |}.

Definition sample_sent : btc_cmpct_t :=
  match @btc_cmpct_set_block sample sample_params empty_cmpct sample_block3
          true with
  | Some c => c
  | None => empty_cmpct
  end.

Definition sample_received : btc_cmpct_t :=
  match @btc_cmpct_setup sample sample_sent with
  | Some (_, c) => c
  | None => empty_cmpct
  end.

(** ** [src/node/chaindb.c], continued *)

Section ChainDBMore.
Context `{Collaborators}.

(** [btc_chaindb_reconnect]: the return value, the store, the entry and
    the caller's view as they are left.  [entry] points into the entry
    table: what [btc_chaindb_connect_block] stores in it is stored
    there. *)
Definition btc_chaindb_reconnect (db : btc_chaindb) (entry : btc_entry_t)
    (block : btc_block_t) (view : btc_view_t)
  : outcome (Z * btc_chaindb * btc_entry_t * btc_view_t) :=
  if negb (mdb_rc mdb_txn_begin (env db) =? 0) then Ret (0, db, entry, view)
  else
  let txn := env db in
  match btc_chaindb_connect_block db txn entry block view with
  | Aborted => Aborted
  | Ret (db, txn, entry, view, ok) =>
  let db :=
    {| env := env db; files := files db;
       db_entries := entry_update (db_entries db) (e_hash entry)
                       (fun _ => entry);
       hashes := hashes db; heights := heights db; head := head db;
       tail := tail db; file := file db; pos := pos db |} in
  if ok =? 0 then Ret (0, db, entry, view)
  else
    let '(txn, rc) := mdb_put_F txn (file db, pos db) in
    if negb (rc =? 0) then Ret (0, db, entry, view)
    else
    let '(txn, rc) := mdb_put_R txn (e_hash entry) in
    if negb (rc =? 0) then Ret (0, db, entry, view)
    else if negb (mdb_rc mdb_txn_commit txn =? 0)
    then Ret (0, db, entry, view)
    else
    let db := commit db txn in
    match e_prev entry with
    | None => Aborted
    | Some p =>
        let ents := entry_update (db_entries db) p
                      (fun e => set_next e (Some (e_hash entry))) in
        if negb (Z.of_nat (length (heights db)) =? e_height entry)
        then Aborted
        else
          Ret (1,
               {| env := env db; files := files db; db_entries := ents;
                  hashes := hashes db;
                  heights := heights db ++ [e_hash entry];
                  head := head db;
                  tail := Some (e_hash entry);
                  file := file db; pos := pos db |},
               entry, view)
    end
  end.

End ChainDBMore.

(** ** What the store properties speak of *)

(** A position of the block files lies before the write cursor. *)
Definition before_cursor (db : btc_chaindb) (f p : Z) : Prop :=
  f < file db \/ (f = file db /\ p < pos db).

(** Every record of the block files lies before the write cursor. *)
Definition files_before_cursor (db : btc_chaindb) : Prop :=
  forall f p r, In ((f, p), r) (files db) -> before_cursor db f p.

(** [db'] is [db] with records appended to the block files: what lay
    before the cursor still does and reads as before, and if every
    record lay before the cursor, every record still does. *)
Definition appends (db db' : btc_chaindb) : Prop :=
  (forall f p, before_cursor db f p ->
     before_cursor db' f p
     /\ file_get (files db') f p = file_get (files db) f p)
  /\ (files_before_cursor db -> files_before_cursor db').

(** What a write of [rec], [len] bytes long, leaves when it returns [r]:
    nothing but a cursor that may have moved to the next file when it
    fails; when it succeeds the record at the cursor ([f], [p]) it found
    or opened, and the cursor past it. *)
Definition written (db db' : btc_chaindb) (rec : file_record) (len r : Z)
    (f p : Z) : Prop :=
  env db' = env db
  /\ (db_entries db' = db_entries db /\ hashes db' = hashes db
      /\ heights db' = heights db /\ head db' = head db
      /\ tail db' = tail db)
  /\ file db' = f
  /\ ((r = 0 /\ files db' = files db /\ pos db' = p
       /\ ((f = file db /\ p = pos db) \/ (f = file db + 1 /\ p = 0)))
      \/ (r = 1 /\ files db' = ((f, p), rec) :: files db
          /\ pos db' = i32 (p + len)
          /\ ((f = file db /\ p = pos db /\ u64 (p + len) <= 512 * 2 ^ 20)
              \/ (f = file db + 1 /\ p = 0)))).

(** The in-memory chain: entry table, hash set, heights, head and tail. *)
Definition same_chain (db db' : btc_chaindb) : Prop :=
  db_entries db' = db_entries db
  /\ hashes db' = hashes db
  /\ heights db' = heights db
  /\ head db' = head db
  /\ tail db' = tail db.

(** The entry's identity: what the writes leave alone. *)
Definition same_entry (e e' : btc_entry_t) : Prop :=
  e_hash e' = e_hash e /\ e_header e' = e_header e
  /\ e_height e' = e_height e /\ e_time e' = e_time e
  /\ e_prev e' = e_prev e /\ e_next e' = e_next e.

(** A side-chain block on top of [block1]. *)
Definition block2s : btc_block_t :=
  {| header := chain_header (e_hash entry1) x05; txs := [coinbase2] |}.
Definition entry2s : btc_entry_t :=
  block_entry block2s 2 (Some (e_hash entry1)).

(** A block whose parent is [block0], which is no tip of [db1]. *)
Definition block1f : btc_block_t :=
  {| header := chain_header (e_hash entry0) x06; txs := [coinbase2] |}.
Definition entry1f : btc_entry_t :=
  block_entry block1f 1 (Some (e_hash entry0)).

Definition save1f :=
  @btc_chaindb_save sample db1 entry1f block1f None.
Definition save2s :=
  @btc_chaindb_save sample db1 entry2s block2s None.

Definition entry_saved
    (r : outcome (Z * btc_chaindb * btc_entry_t * option btc_view_t))
    (e : btc_entry_t) : btc_entry_t :=
  match r with
  | Ret (_, _, e', _) => e'
  | Aborted => e
  end.

Definition view_saved
    (r : outcome (Z * btc_chaindb * btc_entry_t * option btc_view_t))
  : option btc_view_t :=
  match r with
  | Ret (_, _, _, v) => v
  | Aborted => None
  end.

(** An environment like [sample] in which LMDB refuses to commit, and
    one in which [btc_fs_write] writes short. *)
Definition sample_with (rc : mdb_call -> mdb_t -> Z)
    (fs_write : Z -> Z -> Z -> bool) : Collaborators :=
  {| BTC_MAX_BLOCK_SIZE := @BTC_MAX_BLOCK_SIZE sample;
     BTC_SIGHASH_NONE := @BTC_SIGHASH_NONE sample;
     BTC_SIGHASH_SINGLE := @BTC_SIGHASH_SINGLE sample;
     BTC_SIGHASH_ANYONECANPAY := @BTC_SIGHASH_ANYONECANPAY sample;
     BTC_SCRIPT_ERR_OK := @BTC_SCRIPT_ERR_OK sample;
     btc_hash256 := @btc_hash256 sample;
     btc_header_hash := @btc_header_hash sample;
     btc_block_size := @btc_block_size sample;
     btc_undo_size := @btc_undo_size sample;
     btc_script_remove_separators := @btc_script_remove_separators sample;
     btc_script_verify := @btc_script_verify sample;
     mdb_rc := rc;
     btc_fs_open_ok := @btc_fs_open_ok sample;
     btc_fs_write_ok := fs_write;
     BTC_MAX_RAW_BLOCK_SIZE := @BTC_MAX_RAW_BLOCK_SIZE sample;
     malloc_ok := @malloc_ok sample |}.

Definition commit_fails : Collaborators :=
  sample_with (fun c _ => match c with mdb_txn_commit => 5 | _ => 0 end)
              (fun _ _ _ => true).

Definition write_fails : Collaborators :=
  sample_with (fun _ _ => 0) (fun _ _ _ => false).

(** Saving [block2] on [db1] when the commit fails, and when the write
    of the block fails. *)
Definition save2c :=
  @btc_chaindb_save commit_fails db1 entry2 block2
    (Some (block_view block2 2)).
Definition save2w :=
  @btc_chaindb_save write_fails db1 entry2 block2
    (Some (block_view block2 2)).

(** Connecting [block2'] again after its disconnect. *)
Definition reconnected2' :=
  @btc_chaindb_reconnect sample db3' entry2'_saved block2'
    (block_view block2' 2).

(* ================================================================== *)
(** * Part II: properties *)
(* ================================================================== *)

(** ** Properties of [src/tx.c] *)

(** *** Legacy sighash *)

Section SighashV0.
Context `{Collaborators}.

(** C5.  With (type & 0x1f) == SIGHASH_SINGLE and an input index that has no
    output, the legacy sighash is the byte 0x01 followed by 31 zero bytes,
    whatever the transaction, the previous script and the other bits of
    the type are. *)
Theorem sighash_v0_single_without_output :
  forall (tx : btc_tx_t) (i : nat) (prev : bytes) (type : Z),
    Z.land type 0x1f = BTC_SIGHASH_SINGLE ->
    (length (tx_outputs tx) <= i)%nat ->
    btc_tx_sighash_v0 tx i prev type = x01 :: repeat x00 31
    /\ length (btc_tx_sighash_v0 tx i prev type) = 32%nat
    /\ btc_tx_sighash tx i prev 0 type 0 None = Some (x01 :: repeat x00 31, None).
Proof.
  intros tx i prev type HT Hi.
  assert (E : btc_tx_sighash_v0 tx i prev type = x01 :: repeat x00 31).
  { unfold btc_tx_sighash_v0.
    rewrite HT, Z.eqb_refl.
    apply Nat.leb_le in Hi. rewrite Hi. reflexivity. }
  split; [exact E|]. split.
  - rewrite E. reflexivity.
  - unfold btc_tx_sighash. simpl. rewrite E. reflexivity.
Qed.

End SighashV0.

Lemma sighash_v0_single_without_output_witness :
  @btc_tx_sighash_v0 sample sample_tx 1 [xab] 0x83 = x01 :: repeat x00 31
  /\ length (@btc_tx_sighash_v0 sample sample_tx 1 [xab] 0x83) = 32%nat
  /\ @btc_tx_sighash sample sample_tx 1 [xab] 0 0x83 0 None
     = Some (x01 :: repeat x00 31, None).
Proof.
  apply (@sighash_v0_single_without_output sample sample_tx 1%nat [xab] 0x83).
  - reflexivity.
  - simpl. lia.
Defined.

(** *** Segwit sighash and its cache *)

Section SighashV1.
Context `{Collaborators}.

Lemma cache_zero_valid : forall tx, cache_valid tx cache_zero.
Proof. intro tx. repeat split; simpl; discriminate. Qed.

(** A valid cache gives the hash the uncached computation gives, and is
    left valid. *)
Lemma sighash_v1_valid_cache :
  forall tx i prev v type c,
    cache_valid tx c ->
    fst (btc_tx_sighash_v1 tx i prev v type (Some c))
    = fst (btc_tx_sighash_v1 tx i prev v type None)
    /\ cache_valid_opt tx (snd (btc_tx_sighash_v1 tx i prev v type (Some c))).
Proof.
  intros tx i prev v type [hp p hs s ho o] (Vp & Vs & Vo).
  simpl in Vp, Vs, Vo.
  unfold btc_tx_sighash_v1, cached, cache_valid_opt, cache_valid.
  destruct (negb (Z.land type BTC_SIGHASH_ANYONECANPAY =? 0));
  destruct (Z.land type 31 =? BTC_SIGHASH_SINGLE);
  destruct (Z.land type 31 =? BTC_SIGHASH_NONE);
  destruct (i <? length (tx_outputs tx))%nat;
  destruct hp; try rewrite (Vp eq_refl);
  destruct hs; try rewrite (Vs eq_refl);
  destruct ho; try rewrite (Vo eq_refl);
  simpl; (split; [reflexivity|]);
  repeat split; simpl; intros; try discriminate; auto.
Qed.

Lemma cache_after_valid :
  forall tx calls, cache_valid_opt tx (cache_after tx calls).
Proof.
  intros tx calls. unfold cache_after.
  assert (G : forall c0, cache_valid_opt tx c0 ->
            cache_valid_opt tx
              (fold_left
                 (fun cache c =>
                    snd (btc_tx_sighash_v1 tx (call_index c) (call_prev c)
                           (call_value c) (call_type c) cache))
                 calls c0)).
  { induction calls as [|c calls IH]; intros c0 Hc0; simpl; [exact Hc0|].
    apply IH. destruct c0 as [c0|]; [|contradiction].
    apply sighash_v1_valid_cache. exact Hc0. }
  apply G. simpl. apply cache_zero_valid.
Qed.

(** C8.  With a cache that is zeroed or was filled by any earlier calls on
    the same transaction (any input index, script, value and type), the
    segwit sighash is the one computed with no cache. *)
Theorem sighash_v1_cache_transparent :
  forall (tx : btc_tx_t) (calls : list sighash_call)
         (i : nat) (prev : bytes) (v type : Z),
    fst (btc_tx_sighash_v1 tx i prev v type (cache_after tx calls))
    = fst (btc_tx_sighash_v1 tx i prev v type None).
Proof.
  intros tx calls i prev v type.
  pose proof (cache_after_valid tx calls) as V.
  destruct (cache_after tx calls) as [c|]; [|reflexivity].
  apply sighash_v1_valid_cache. exact V.
Qed.

End SighashV1.

(** *** Full-transaction verification *)

Section Verify.
Context `{Collaborators}.

Lemma verify_input_bit :
  forall tx i coin flags cache,
    fst (btc_tx_verify_input tx i coin flags cache) = 0
    \/ fst (btc_tx_verify_input tx i coin flags cache) = 1.
Proof.
  intros. unfold btc_tx_verify_input.
  destruct (btc_script_verify _ _ _ _ _ _ _ _) as [ret c]. simpl.
  destruct (ret =? BTC_SCRIPT_ERR_OK); auto.
Qed.

Lemma verify_from_bit :
  forall tx view flags n i cache,
    verify_from tx view flags n i cache = 0
    \/ verify_from tx view flags n i cache = 1.
Proof.
  intros tx view flags n. induction n as [|n IH]; intros i cache; simpl.
  - now right.
  - destruct (btc_view_get view (in_prevout (inp_at tx i))); [|now left].
    destruct (btc_tx_verify_input _ _ _ _ _) as [ok c].
    destruct (ok =? 0); [now left|apply IH].
Qed.

Lemma verify_from_spec :
  forall tx view flags n i,
    verify_from tx view flags n i (cache_at tx view flags i) = 1
    <-> (forall j, (i <= j < i + n)%nat -> input_verifies tx view flags j).
Proof.
  intros tx view flags n. induction n as [|n IH]; intro i.
  - simpl. split; [intros _ j Hj; lia|reflexivity].
  - cbn [verify_from].
    destruct (btc_view_get view (in_prevout (inp_at tx i))) as [coin|] eqn:G.
    + pose proof (verify_input_bit tx i (coin_output coin) flags
                    (cache_at tx view flags i)) as Hbit.
      assert (Hnext : cache_at tx view flags (S i)
                      = snd (btc_tx_verify_input tx i (coin_output coin) flags
                               (cache_at tx view flags i))).
      { cbn [cache_at]. rewrite G. reflexivity. }
      destruct (btc_tx_verify_input tx i (coin_output coin) flags
                  (cache_at tx view flags i)) as [ok c] eqn:V.
      simpl in Hbit, Hnext. subst c.
      destruct Hbit as [-> | ->]; simpl.
      * split; [discriminate|].
        intro Hall. destruct (Hall i ltac:(lia)) as [coin' [G' V']].
        rewrite G in G'. injection G' as <-. rewrite V in V'. exact V'.
      * rewrite IH. split.
        -- intros Hall j Hj.
           destruct (Nat.eq_dec j i) as [->|Hne].
           ++ exists coin. split; [exact G|]. rewrite V. reflexivity.
           ++ apply Hall. lia.
        -- intros Hall j Hj. apply Hall. lia.
    + split; [discriminate|].
      intro Hall. destruct (Hall i ltac:(lia)) as [coin [G' _]].
      rewrite G in G'. discriminate.
Qed.

(** C10.  [btc_tx_verify] returns 0 or 1.  It returns 0 when some input's
    prevout has no coin in the view, the same 0 it returns when an input
    fails [btc_tx_verify_input]; it returns 1 exactly when every input
    resolves to a coin and passes [btc_tx_verify_input]. *)
Theorem tx_verify_missing_coin_is_failure :
  forall (tx : btc_tx_t) (view : btc_view_t) (flags : Z),
    (btc_tx_verify tx view flags = 0 \/ btc_tx_verify tx view flags = 1)
    /\ (forall i, (i < length (tx_inputs tx))%nat ->
          btc_view_get view (in_prevout (inp_at tx i)) = None ->
          btc_tx_verify tx view flags = 0)
    /\ (forall i coin, (i < length (tx_inputs tx))%nat ->
          btc_view_get view (in_prevout (inp_at tx i)) = Some coin ->
          fst (btc_tx_verify_input tx i (coin_output coin) flags
                 (cache_at tx view flags i)) = 0 ->
          btc_tx_verify tx view flags = 0)
    /\ (btc_tx_verify tx view flags = 1
        <-> forall i, (i < length (tx_inputs tx))%nat ->
              input_verifies tx view flags i).
Proof.
  intros tx view flags.
  pose proof (verify_from_bit tx view flags (length (tx_inputs tx)) 0 cache_zero)
    as Hbit.
  pose proof (verify_from_spec tx view flags (length (tx_inputs tx)) 0) as Hspec.
  change (cache_at tx view flags 0) with cache_zero in Hspec.
  fold (btc_tx_verify tx view flags) in Hbit, Hspec.
  assert (Hfail : forall i, (i < length (tx_inputs tx))%nat ->
                    ~ input_verifies tx view flags i ->
                    btc_tx_verify tx view flags = 0).
  { intros i Hi Hno. destruct Hbit as [E|E]; [exact E|].
    exfalso. apply Hno. apply Hspec; [exact E|lia]. }
  split; [exact Hbit|]. split; [|split].
  - intros i Hi G. apply (Hfail i Hi).
    intros [coin [G' _]]. rewrite G in G'. discriminate.
  - intros i coin Hi G V. apply (Hfail i Hi).
    intros [coin' [G' V']]. rewrite G in G'. injection G' as <-.
    rewrite V in V'. discriminate.
  - rewrite Hspec. split; intros Hall i Hi; apply Hall; lia.
Qed.

End Verify.

(** *** Sanity checks *)

Section Sanity.
Context `{Collaborators}.

Lemma i64_small : forall x, 0 <= x < 2 ^ 63 -> i64 x = x.
Proof.
  intros x Hx. unfold i64, sint.
  rewrite Z.mod_small by (change (2 ^ 64) with (2 * 2 ^ 63); lia).
  change (64 - 1) with 63.
  destruct (Z.ltb_spec x (2 ^ 63)); [reflexivity|lia].
Qed.

Lemma max_money_small : 2 * BTC_MAX_MONEY < 2 ^ 63.
Proof. vm_compute. reflexivity. Qed.

Lemma max_money_pos : 0 <= BTC_MAX_MONEY.
Proof. vm_compute. discriminate. Qed.

Lemma bytes_eqb_eq : forall a b, bytes_eqb a b = true <-> a = b.
Proof.
  intros a b. unfold bytes_eqb.
  destruct (list_eq_dec byte_eq_dec a b); split; congruence.
Qed.

Lemma outpoint_equal_eq :
  forall a b, btc_outpoint_equal a b = true <-> a = b.
Proof.
  intros [ha ia] [hb ib]. unfold btc_outpoint_equal. simpl.
  rewrite andb_true_iff, bytes_eqb_eq, Z.eqb_eq.
  split; [intros [-> ->]; reflexivity|intro E; injection E; auto].
Qed.

Lemma outpoint_is_null_iff :
  forall o, btc_outpoint_is_null o = true <-> outpoint_null o.
Proof.
  intro o. unfold btc_outpoint_is_null, outpoint_null.
  rewrite andb_true_iff, forallb_forall, Forall_forall, Z.eqb_eq.
  split; intros [A B]; (split; [|exact B]); intros b Hb.
  - apply byte_dec_bl. apply A, Hb.
  - rewrite (A b Hb). reflexivity.
Qed.

Lemma is_coinbase_iff :
  forall tx, btc_tx_is_coinbase tx = true <-> is_coinbase tx.
Proof.
  intro tx. unfold btc_tx_is_coinbase, is_coinbase.
  destruct (Nat.eqb_spec (length (tx_inputs tx)) 1) as [E|E]; simpl.
  - rewrite outpoint_is_null_iff. tauto.
  - split; [discriminate|tauto].
Qed.

Lemma kh_set_member :
  forall key set, existsb (btc_outpoint_equal key) set = true <-> In key set.
Proof.
  intros key set. rewrite existsb_exists. split.
  - intros [x [Hin E]]. apply outpoint_equal_eq in E. now subst.
  - intro Hin. exists key. split; [exact Hin|]. now apply outpoint_equal_eq.
Qed.

Lemma duplicate_from_false :
  forall ins set,
    duplicate_from ins set = false
    <-> NoDup (map in_prevout ins)
        /\ (forall i, In i ins -> ~ In (in_prevout i) set).
Proof.
  induction ins as [|i ins IH]; intro set; simpl.
  - split; [intros _; split; [constructor|intros ? []]|reflexivity].
  - unfold kh_put.
    destruct (existsb (btc_outpoint_equal (in_prevout i)) set) eqn:M; simpl.
    + apply kh_set_member in M. split; [discriminate|].
      intros [_ Hno]. exfalso. apply (Hno i); auto.
    + assert (Hni : ~ In (in_prevout i) set).
      { intro Hin. apply kh_set_member in Hin. congruence. }
      rewrite IH. split.
      * intros [ND Hno]. split.
        -- constructor; [|exact ND].
           intro Hin. apply in_map_iff in Hin. destruct Hin as [j [Ej Hj]].
           apply (Hno j Hj). left. symmetry. exact Ej.
        -- intros j [<-|Hj]; [exact Hni|].
           intro Hin. apply (Hno j Hj). right. exact Hin.
      * intros [ND Hno]. inversion ND as [|? ? Hnotin ND']; subst. split.
        -- exact ND'.
        -- intros j Hj [E|Hin].
           ++ apply Hnotin. rewrite E. apply in_map. exact Hj.
           ++ apply (Hno j); auto.
Qed.

Lemma has_duplicate_inputs_iff :
  forall tx, btc_tx_has_duplicate_inputs tx = true <-> duplicate_inputs tx.
Proof.
  intro tx. unfold btc_tx_has_duplicate_inputs, duplicate_inputs.
  pose proof (duplicate_from_false (tx_inputs tx) []) as Hf.
  destruct (duplicate_from (tx_inputs tx) []).
  - split; [|reflexivity]. intros _ ND.
    assert (true = false) by (apply Hf; split; [exact ND|intros ? ? []]).
    discriminate.
  - split; [discriminate|]. intro D. exfalso. apply D.
    apply Hf. reflexivity.
Qed.

(** The output loop passes exactly when every value and every running
    total stays in range; the int64 sum never wraps before the check. *)
Lemma sanity_outputs_pass :
  forall outs total,
    0 <= total <= BTC_MAX_MONEY ->
    (sanity_outputs outs total = None
     <-> Forall (fun o => 0 <= out_value o <= BTC_MAX_MONEY) outs
         /\ (forall k, (k <= length outs)%nat ->
               0 <= total + output_sum (firstn k outs) <= BTC_MAX_MONEY)).
Proof.
  pose proof max_money_small as Hm.
  induction outs as [|o outs IH]; intros total Ht; simpl.
  - split; [|reflexivity]. intros _. split; [constructor|].
    intros k Hk. replace k with 0%nat by lia. simpl. lia.
  - destruct (Z.ltb_spec (out_value o) 0) as [Hneg|Hnn].
    { split; [discriminate|]. intros [F _]. inversion F; subst. lia. }
    destruct (Z.gtb_spec (out_value o) BTC_MAX_MONEY) as [Hbig|Hle].
    { split; [discriminate|]. intros [F _]. inversion F; subst. lia. }
    rewrite i64_small by lia.
    destruct (Z.ltb_spec (total + out_value o) 0) as [H0|H0]; [lia|].
    destruct (Z.gtb_spec (total + out_value o) BTC_MAX_MONEY) as [H1|H1]; simpl.
    { split; [discriminate|]. intros [_ S].
      specialize (S 1%nat ltac:(lia)). simpl in S. lia. }
    rewrite IH by lia. split.
    + intros [F S]. split; [constructor; [lia|exact F]|].
      intros [|k] Hk; simpl; [lia|].
      specialize (S k ltac:(lia)). lia.
    + intros [F S]. inversion F; subst. split; [assumption|].
      intros k Hk. specialize (S (Datatypes.S k) ltac:(lia)). simpl in S. lia.
Qed.

Lemma sanity_outputs_score :
  forall outs total m s, sanity_outputs outs total = Some (m, s) -> s = 100.
Proof.
  induction outs as [|o outs IH]; intros total m s; simpl; [discriminate|].
  destruct (out_value o <? 0); [intro E; injection E; auto|].
  destruct (out_value o >? BTC_MAX_MONEY); [intro E; injection E; auto|].
  destruct ((i64 (total + out_value o) <? 0)
            || (i64 (total + out_value o) >? BTC_MAX_MONEY));
    [intro E; injection E; auto|apply IH].
Qed.

Lemma outputs_in_range_iff :
  forall tx,
    sanity_outputs (tx_outputs tx) 0 = None
    <-> ~ bad_output_value tx /\ ~ bad_output_total tx.
Proof.
  intro tx. pose proof max_money_pos as Hp.
  rewrite sanity_outputs_pass by lia.
  unfold bad_output_value, bad_output_total. rewrite Forall_forall. split.
  - intros [F S]. split.
    + intros [o [Hin Hbad]]. specialize (F o Hin). lia.
    + intros [k [Hk Hbad]]. specialize (S k Hk). lia.
  - intros [NV NT]. split.
    + intros o Hin.
      assert (~ (out_value o < 0 \/ out_value o > BTC_MAX_MONEY))
        by (intro B; apply NV; exists o; auto).
      lia.
    + intros k Hk.
      assert (~ ~ (0 <= output_sum (firstn k (tx_outputs tx)) <= BTC_MAX_MONEY))
        by (intro B; apply NT; exists k; auto).
      lia.
Qed.

(** A complaint of the output loop names a bad value or a bad total. *)
Lemma sanity_outputs_fail :
  forall outs total ms,
    0 <= total <= BTC_MAX_MONEY ->
    sanity_outputs outs total = Some ms ->
    (exists o, In o outs /\ (out_value o < 0 \/ out_value o > BTC_MAX_MONEY))
    \/ (exists k, (k <= length outs)%nat
                  /\ ~ (0 <= total + output_sum (firstn k outs)
                        <= BTC_MAX_MONEY)).
Proof.
  pose proof max_money_small as Hm.
  induction outs as [|o outs IH]; intros total ms Ht; simpl; [discriminate|].
  destruct (Z.ltb_spec (out_value o) 0) as [Hneg|Hnn].
  { intros _. left. exists o. split; [now left|lia]. }
  destruct (Z.gtb_spec (out_value o) BTC_MAX_MONEY) as [Hbig|Hle].
  { intros _. left. exists o. split; [now left|lia]. }
  rewrite i64_small by lia.
  destruct (Z.ltb_spec (total + out_value o) 0) as [H0|H0]; [lia|].
  destruct (Z.gtb_spec (total + out_value o) BTC_MAX_MONEY) as [H1|H1]; simpl.
  { intros _. right. exists 1%nat. split; [lia|]. simpl. lia. }
  intro E.
  assert (Ht' : 0 <= total + out_value o <= BTC_MAX_MONEY) by lia.
  destruct (IH _ _ Ht' E) as [[o' [Hin Hbad]]|[k [Hk Hbad]]].
  - left. exists o'. split; [now right|exact Hbad].
  - right. exists (Datatypes.S k). split; [lia|]. simpl.
    intro R. apply Hbad. lia.
Qed.

Lemma null_prevout_found :
  forall tx,
    existsb (fun i => btc_outpoint_is_null (in_prevout i)) (tx_inputs tx) = true
    <-> exists i, In i (tx_inputs tx) /\ outpoint_null (in_prevout i).
Proof.
  intro tx. rewrite existsb_exists.
  split; intros [i [Hin Hn]]; exists i; (split; [exact Hin|]);
    apply outpoint_is_null_iff; exact Hn.
Qed.

(** The three ways [btc_tx_check_sanity] ends. *)
Lemma check_sanity_cases :
  forall e tx,
    (exists m, btc_tx_check_sanity (Some e) tx
               = (0, Some {| msg := m; score := 100 |})
               /\ rejected_100 tx)
    \/ (exists m, btc_tx_check_sanity (Some e) tx
                  = (0, Some {| msg := m; score := 10 |})
                  /\ ~ rejected_100 tx /\ rejected_10 tx)
    \/ (btc_tx_check_sanity (Some e) tx = (1, Some e)
        /\ ~ rejected_100 tx /\ ~ rejected_10 tx).
Proof.
  intros e tx. unfold btc_tx_check_sanity, THROW, rejected_100, rejected_10.
  destruct (Nat.eqb_spec (length (tx_inputs tx)) 0) as [Ei|Ei].
  { left. eexists. split; [reflexivity|]. left.
    apply length_zero_iff_nil. exact Ei. }
  destruct (Nat.eqb_spec (length (tx_outputs tx)) 0) as [Eo|Eo].
  { left. eexists. split; [reflexivity|]. right; left.
    apply length_zero_iff_nil. exact Eo. }
  destruct (Z.gtb_spec (btc_tx_base_size tx) BTC_MAX_BLOCK_SIZE) as [Es|Es].
  { left. eexists. split; [reflexivity|]. right; right; left.
    unfold oversize. lia. }
  assert (N1 : ~ vin_empty tx)
    by (unfold vin_empty; intro A; rewrite A in Ei; apply Ei; reflexivity).
  assert (N2 : ~ vout_empty tx)
    by (unfold vout_empty; intro A; rewrite A in Eo; apply Eo; reflexivity).
  assert (N3 : ~ oversize tx) by (unfold oversize; lia).
  destruct (sanity_outputs (tx_outputs tx) 0) as [[m s]|] eqn:So.
  { left. exists m. rewrite (sanity_outputs_score _ _ _ _ So).
    split; [reflexivity|]. pose proof max_money_pos.
    assert (Hz : 0 <= 0 <= BTC_MAX_MONEY) by lia.
    destruct (sanity_outputs_fail _ _ _ Hz So) as [B|B].
    - right; right; right; left. exact B.
    - right; right; right; right; left. exact B. }
  apply outputs_in_range_iff in So. destruct So as [N4 N5].
  destruct (btc_tx_has_duplicate_inputs tx) eqn:D.
  { left. eexists. split; [reflexivity|].
    do 5 right. left. apply has_duplicate_inputs_iff. exact D. }
  assert (N6 : ~ duplicate_inputs tx)
    by (intro A; apply has_duplicate_inputs_iff in A; congruence).
  destruct (btc_tx_is_coinbase tx) eqn:C.
  - apply is_coinbase_iff in C.
    set (size := Z.of_nat (length (in_script (inp_at tx 0)))).
    destruct (Z.ltb_spec size 2) as [S2|S2]; simpl.
    { left. eexists. split; [reflexivity|]. do 6 right.
      split; [exact C|]. fold size. lia. }
    destruct (Z.gtb_spec size 100) as [S100|S100].
    { left. eexists. split; [reflexivity|]. do 6 right.
      split; [exact C|]. fold size. lia. }
    right; right. split; [reflexivity|]. split.
    + intros [A|[A|[A|[A|[A|[A|[_ A]]]]]]]; try contradiction.
      apply A. fold size. lia.
    + intros [A _]. contradiction.
  - assert (N7 : ~ is_coinbase tx)
      by (intro A; apply is_coinbase_iff in A; congruence).
    assert (N100 : ~ (vin_empty tx \/ vout_empty tx \/ oversize tx
                      \/ bad_output_value tx \/ bad_output_total tx
                      \/ duplicate_inputs tx \/ bad_coinbase_length tx)).
    { intros [A|[A|[A|[A|[A|[A|[A _]]]]]]]; contradiction. }
    destruct (existsb (fun i => btc_outpoint_is_null (in_prevout i))
                      (tx_inputs tx)) eqn:Np.
    + right; left. eexists. split; [reflexivity|]. split; [exact N100|].
      split; [exact N7|]. apply null_prevout_found. exact Np.
    + right; right. split; [reflexivity|]. split; [exact N100|].
      intros [_ A]. apply null_prevout_found in A. congruence.
Qed.

(** C6.  [btc_tx_check_sanity] fails exactly when one of the listed
    conditions holds: no inputs, no outputs, base size above
    MAX_BLOCK_SIZE, an output value negative or above MAX_MONEY, a
    running output total outside [0, MAX_MONEY], two inputs with the same
    outpoint, a coinbase whose input script length is outside [2, 100]
    (all scored 100), or a non-coinbase with a null prevout (scored 10).
    The score reported is 100 when one of the first seven holds and 10
    when only the last does; otherwise the check succeeds and leaves the
    error untouched. *)
Theorem check_sanity_rejections :
  forall (e : btc_verify_error_t) (tx : btc_tx_t),
    (fst (btc_tx_check_sanity (Some e) tx) = 0
     <-> rejected_100 tx \/ rejected_10 tx)
    /\ (rejected_100 tx ->
        exists m, btc_tx_check_sanity (Some e) tx
                  = (0, Some {| msg := m; score := 100 |}))
    /\ (~ rejected_100 tx -> rejected_10 tx ->
        exists m, btc_tx_check_sanity (Some e) tx
                  = (0, Some {| msg := m; score := 10 |}))
    /\ (~ (rejected_100 tx \/ rejected_10 tx) ->
        btc_tx_check_sanity (Some e) tx = (1, Some e)).
Proof.
  intros e tx.
  destruct (check_sanity_cases e tx)
    as [[m [E R]]|[[m [E [N R]]]|[E [N1 N2]]]]; rewrite E; simpl.
  - split; [split; [intros _; left; exact R|reflexivity]|].
    split; [intros _; exists m; reflexivity|].
    split; [intros N; contradiction|].
    intro N. exfalso. apply N. left. exact R.
  - split; [split; [intros _; right; exact R|reflexivity]|].
    split; [intros R'; contradiction|].
    split; [intros _ _; exists m; reflexivity|].
    intro N'. exfalso. apply N'. right. exact R.
  - split; [split; [discriminate|intros [A|A]; contradiction]|].
    split; [intros R; contradiction|].
    split; [intros _ R; contradiction|].
    reflexivity.
Qed.

End Sanity.

(** The check on the samples: accepted; a null prevout alone scores 10;
    with a duplicate as well the duplicate is found first and scores 100. *)
Example check_sanity_accepts_sample :
  @btc_tx_check_sanity sample (Some sample_error) sample_tx
  = (1, Some sample_error).
Proof. vm_compute. reflexivity. Qed.

Example check_sanity_null_prevout_scores_10 :
  @btc_tx_check_sanity sample (Some sample_error) sample_null_prevout_tx
  = (0, Some {| msg := "bad-txns-prevout-null"; score := 10 |}).
Proof. vm_compute. reflexivity. Qed.

Example check_sanity_duplicate_scores_100 :
  @btc_tx_check_sanity sample (Some sample_error) sample_twice_null_tx
  = (0, Some {| msg := "bad-txns-inputs-duplicate"; score := 100 |}).
Proof. vm_compute. reflexivity. Qed.

(** *** Codec round trips *)

Section CodecFacts.

Lemma Z_of_byte_range : forall b, 0 <= Z_of_byte b < 256.
Proof.
  intro b. unfold Z_of_byte. pose proof (Byte.to_N_bounded b). lia.
Qed.

Lemma Z_of_byte_of_Z : forall x, Z_of_byte (byte_of_Z x) = x mod 256.
Proof.
  intro x. unfold Z_of_byte, byte_of_Z.
  pose proof (Z.mod_pos_bound x 256 ltac:(lia)) as Hm.
  destruct (Byte.of_N (Z.to_N (x mod 256))) as [b|] eqn:E.
  - apply Byte.to_of_N in E. rewrite E. lia.
  - apply Byte.of_N_None_iff in E. lia.
Qed.

Lemma le_bytes_length : forall n x, length (le_bytes n x) = n.
Proof.
  induction n as [|n IH]; intro x; simpl; [reflexivity|].
  now rewrite IH.
Qed.

Lemma le_value_le_bytes :
  forall n x, le_value (le_bytes n x) = x mod 2 ^ (8 * Z.of_nat n).
Proof.
  induction n as [|n IH]; intro x.
  - simpl. now rewrite Z.mod_1_r.
  - cbn [le_bytes le_value]. rewrite Z_of_byte_of_Z, IH.
    replace (8 * Z.of_nat (S n)) with (8 + 8 * Z.of_nat n) by lia.
    rewrite Z.pow_add_r by lia.
    change (2 ^ 8) with 256.
    rewrite Z.rem_mul_r by lia. reflexivity.
Qed.

Lemma firstn_exact :
  forall (A : Type) (l r : list A), firstn (length l) (l ++ r) = l.
Proof.
  intros A l r. induction l as [|a l IH]; simpl; [|now rewrite IH].
  destruct r; reflexivity.
Qed.

Lemma skipn_exact :
  forall (A : Type) (l r : list A), skipn (length l) (l ++ r) = r.
Proof.
  intros A l r. induction l as [|a l IH]; simpl; auto.
Qed.

Lemma read_le_bytes :
  forall n x rest,
    read_le n (le_bytes n x ++ rest)
    = Some (x mod 2 ^ (8 * Z.of_nat n), rest).
Proof.
  intros n x rest. unfold read_le.
  rewrite length_app, le_bytes_length.
  destruct (Nat.leb_spec n (n + length rest)) as [_|Hlt]; [|lia].
  rewrite <- (le_bytes_length n x) at 1 3.
  rewrite firstn_exact, skipn_exact, le_value_le_bytes. reflexivity.
Qed.

Lemma uint8_read_write :
  forall x rest, 0 <= x < 256 ->
    btc_uint8_read (btc_uint8_write [] x ++ rest) = Some (x, rest).
Proof.
  intros x rest Hx. unfold btc_uint8_read, btc_uint8_write. simpl app.
  change (byte_of_Z x :: rest) with (le_bytes 1 x ++ rest).
  rewrite read_le_bytes. rewrite Z.mod_small; [reflexivity|].
  change (2 ^ (8 * Z.of_nat 1)) with 256. exact Hx.
Qed.

Lemma uint16_read_write :
  forall x rest, 0 <= x < 2 ^ 16 ->
    btc_uint16_read (btc_uint16_write [] x ++ rest) = Some (x, rest).
Proof.
  intros x rest Hx. unfold btc_uint16_read, btc_uint16_write.
  rewrite app_nil_l, read_le_bytes. rewrite Z.mod_small; [reflexivity|].
  exact Hx.
Qed.

Lemma uint32_read_write :
  forall x rest, fits_u32 x ->
    btc_uint32_read (btc_uint32_write [] x ++ rest) = Some (x, rest).
Proof.
  intros x rest Hx. unfold btc_uint32_read, btc_uint32_write.
  rewrite app_nil_l, read_le_bytes. rewrite Z.mod_small; [reflexivity|].
  exact Hx.
Qed.

Lemma uint64_read_write :
  forall x rest, 0 <= x < 2 ^ 64 ->
    btc_uint64_read (btc_uint64_write [] x ++ rest) = Some (x, rest).
Proof.
  intros x rest Hx. unfold btc_uint64_read, btc_uint64_write.
  rewrite app_nil_l, read_le_bytes. rewrite Z.mod_small; [reflexivity|].
  exact Hx.
Qed.

Lemma i64_of_u64 : forall x, fits_i64 x -> i64 (x mod 2 ^ 64) = x.
Proof.
  intros x [Hlo Hhi]. unfold i64, sint. rewrite Z.mod_mod by lia.
  change (64 - 1) with 63.
  destruct (Z_lt_le_dec x 0) as [Hneg|Hpos].
  - assert (E : x mod 2 ^ 64 = x + 2 ^ 64).
    { symmetry. apply (Z.mod_unique x (2 ^ 64) (-1)); lia. }
    rewrite E. destruct (Z.ltb_spec (x + 2 ^ 64) (2 ^ 63)); lia.
  - rewrite Z.mod_small by lia.
    destruct (Z.ltb_spec x (2 ^ 63)); lia.
Qed.

Lemma int64_read_write :
  forall x rest, fits_i64 x ->
    btc_int64_read (btc_int64_write [] x ++ rest) = Some (x, rest).
Proof.
  intros x rest Hx. unfold btc_int64_read, btc_int64_write.
  rewrite app_nil_l, read_le_bytes.
  change (2 ^ (8 * Z.of_nat 8)) with (2 ^ 64).
  now rewrite i64_of_u64.
Qed.

(** Writers extend what was written so far. *)
Lemma size_write_app :
  forall zp x, btc_size_write zp x = zp ++ btc_size_write [] x.
Proof.
  intros zp x. unfold btc_size_write, btc_uint8_write, btc_uint16_write,
    btc_uint32_write, btc_uint64_write.
  destruct (x <? 253); [reflexivity|].
  destruct (x <=? 65535); [now rewrite <- app_assoc|].
  destruct (x <=? 4294967295); now rewrite <- app_assoc.
Qed.

Lemma script_write_app :
  forall zp s, btc_script_write zp s = zp ++ btc_script_write [] s.
Proof.
  intros zp s. unfold btc_script_write, btc_raw_write.
  rewrite (size_write_app zp). now rewrite <- app_assoc.
Qed.

Lemma outpoint_write_app :
  forall zp o, btc_outpoint_write zp o = zp ++ btc_outpoint_write [] o.
Proof.
  intros zp o. unfold btc_outpoint_write, btc_uint32_write, btc_raw_write.
  now rewrite <- !app_assoc.
Qed.

Lemma input_write_app :
  forall zp i, btc_input_write zp i = zp ++ btc_input_write [] i.
Proof.
  intros zp i. unfold btc_input_write, btc_uint32_write.
  rewrite (outpoint_write_app zp).
  rewrite (script_write_app (zp ++ _)), (script_write_app (btc_outpoint_write [] _)).
  now rewrite <- !app_assoc.
Qed.

Lemma output_write_app :
  forall zp o, btc_output_write zp o = zp ++ btc_output_write [] o.
Proof.
  intros zp o. unfold btc_output_write, btc_int64_write.
  rewrite (script_write_app (zp ++ _)), (script_write_app ([] ++ _)).
  now rewrite <- !app_assoc.
Qed.

Lemma fold_write_app :
  forall (A : Type) (w : bytes -> A -> bytes),
    (forall zp a, w zp a = zp ++ w [] a) ->
    forall l zp, fold_left w l zp = zp ++ concat (map (w []) l).
Proof.
  intros A w Hw l. induction l as [|a l IH]; intro zp; simpl.
  - now rewrite app_nil_r.
  - rewrite IH, (Hw zp a). now rewrite <- app_assoc.
Qed.

Lemma vector_write_app :
  forall (A : Type) (w : bytes -> A -> bytes),
    (forall zp a, w zp a = zp ++ w [] a) ->
    forall l zp,
      fold_left w l (btc_size_write zp (Z.of_nat (length l)))
      = zp ++ btc_size_write [] (Z.of_nat (length l))
           ++ concat (map (w []) l).
Proof.
  intros A w Hw l zp.
  rewrite (fold_write_app A w Hw), (size_write_app zp).
  now rewrite <- app_assoc.
Qed.

Lemma stack_write_app :
  forall zp st, btc_stack_write zp st = zp ++ btc_stack_write [] st.
Proof.
  intros zp st. unfold btc_stack_write.
  rewrite !(vector_write_app _ _ script_write_app). reflexivity.
Qed.

(** Readers undo writers. *)
Lemma size_read_write :
  forall x rest, 0 <= x < 2 ^ 64 ->
    btc_size_read (btc_size_write [] x ++ rest) = Some (x, rest).
Proof.
  intros x rest Hx. unfold btc_size_write.
  destruct (Z.ltb_spec x 253) as [H1|H1].
  { unfold btc_size_read. rewrite uint8_read_write by lia.
    destruct (Z.eqb_spec x 255); [lia|].
    destruct (Z.eqb_spec x 254); [lia|].
    destruct (Z.eqb_spec x 253); [lia|]. reflexivity. }
  destruct (Z.leb_spec x 65535) as [H2|H2].
  { unfold btc_size_read, btc_uint16_write.
    rewrite <- app_assoc, uint8_read_write by lia. simpl.
    apply (uint16_read_write x rest). change (2 ^ 16) with 65536. lia. }
  destruct (Z.leb_spec x 4294967295) as [H3|H3].
  { unfold btc_size_read, btc_uint32_write.
    rewrite <- app_assoc, uint8_read_write by lia. simpl.
    apply (uint32_read_write x rest). unfold fits_u32.
    change (2 ^ 32) with 4294967296. lia. }
  unfold btc_size_read, btc_uint64_write.
  rewrite <- app_assoc, uint8_read_write by lia. simpl.
  apply (uint64_read_write x rest). lia.
Qed.

Lemma raw_read_exact :
  forall (s rest : bytes),
    btc_raw_read (length s) (s ++ rest) = Some (s, rest).
Proof.
  intros s rest. unfold btc_raw_read. rewrite length_app.
  destruct (Nat.leb_spec (length s) (length s + length rest)); [|lia].
  now rewrite firstn_exact, skipn_exact.
Qed.

Lemma script_read_write :
  forall s rest, fits_size (length s) ->
    btc_script_read (btc_script_write [] s ++ rest) = Some (s, rest).
Proof.
  intros s rest Hs. unfold btc_script_read, btc_script_write, btc_raw_write.
  rewrite firstn_all, <- app_assoc.
  rewrite size_read_write by (unfold fits_size in Hs; lia).
  rewrite Nat2Z.id. apply raw_read_exact.
Qed.

Lemma outpoint_read_write :
  forall o rest, outpoint_wf o ->
    btc_outpoint_read (btc_outpoint_write [] o ++ rest) = Some (o, rest).
Proof.
  intros [h i] rest [Hh Hi]. simpl in Hh, Hi.
  unfold btc_outpoint_read, btc_outpoint_write, btc_raw_write,
    btc_uint32_write. simpl op_hash. simpl op_index.
  rewrite <- Hh, firstn_all, app_nil_l, <- app_assoc.
  rewrite Hh at 1. rewrite <- Hh at 1. rewrite raw_read_exact.
  change (le_bytes 4 i ++ rest) with (btc_uint32_write [] i ++ rest).
  rewrite uint32_read_write by exact Hi. reflexivity.
Qed.

End CodecFacts.

(** *** Transactions: decoding what the serializer wrote *)

Section TxRoundTrip.

Lemma input_read_write :
  forall i rest, input_wf i ->
    btc_input_read (btc_input_write [] i ++ rest)
    = Some (set_witness i [], rest).
Proof.
  intros i rest (Ho & Hs & Hq & _). unfold btc_input_read, btc_input_write.
  unfold btc_uint32_write.
  rewrite (script_write_app (btc_outpoint_write [] _)), <- !app_assoc.
  rewrite outpoint_read_write by exact Ho.
  rewrite script_read_write by exact Hs.
  change (le_bytes 4 (in_sequence i) ++ rest)
    with (btc_uint32_write [] (in_sequence i) ++ rest).
  rewrite uint32_read_write by exact Hq. reflexivity.
Qed.

Lemma output_read_write :
  forall o rest, output_wf o ->
    btc_output_read (btc_output_write [] o ++ rest) = Some (o, rest).
Proof.
  intros [v s] rest [Hv Hs]. simpl in Hv, Hs.
  unfold btc_output_read, btc_output_write. simpl out_value. simpl out_script.
  rewrite (script_write_app (btc_int64_write [] v)), <- app_assoc.
  rewrite int64_read_write by exact Hv.
  rewrite script_read_write by exact Hs. reflexivity.
Qed.

Lemma read_items_written :
  forall (A : Type) (rd : bytes -> option (A * bytes)) (enc : A -> bytes)
         (f : A -> A) (P : A -> Prop),
    (forall a rest, P a -> rd (enc a ++ rest) = Some (f a, rest)) ->
    forall l rest, Forall P l ->
      read_items rd (length l) (concat (map enc l) ++ rest)
      = Some (map f l, rest).
Proof.
  intros A rd enc f P Hrd l. induction l as [|a l IH]; intros rest Hl.
  - reflexivity.
  - inversion Hl; subst. simpl. rewrite <- app_assoc.
    rewrite Hrd by assumption. rewrite IH by assumption. reflexivity.
Qed.

Lemma read_vector_written :
  forall (A : Type) (rd : bytes -> option (A * bytes))
         (w : bytes -> A -> bytes) (f : A -> A) (P : A -> Prop),
    (forall zp a, w zp a = zp ++ w [] a) ->
    (forall a rest, P a -> rd (w [] a ++ rest) = Some (f a, rest)) ->
    forall l rest, fits_size (length l) -> Forall P l ->
      read_vector rd
        (fold_left w l (btc_size_write [] (Z.of_nat (length l))) ++ rest)
      = Some (map f l, rest).
Proof.
  intros A rd w f P Hw Hrd l rest Hn Hl. unfold read_vector.
  rewrite (vector_write_app A w Hw), app_nil_l, <- app_assoc.
  rewrite size_read_write by (unfold fits_size in Hn; lia).
  rewrite Nat2Z.id.
  apply (read_items_written A rd (w []) f P Hrd l rest Hl).
Qed.

Lemma inpvec_read_write :
  forall v rest, fits_size (length v) -> Forall input_wf v ->
    btc_inpvec_read (btc_inpvec_write [] v ++ rest)
    = Some (map (fun i => set_witness i []) v, rest).
Proof.
  intros v rest Hn Hv. unfold btc_inpvec_read, btc_inpvec_write.
  apply (read_vector_written _ btc_input_read btc_input_write
           (fun i => set_witness i []) input_wf
           input_write_app input_read_write v rest Hn Hv).
Qed.

Lemma outvec_read_write :
  forall v rest, fits_size (length v) -> Forall output_wf v ->
    btc_outvec_read (btc_outvec_write [] v ++ rest) = Some (v, rest).
Proof.
  intros v rest Hn Hv. unfold btc_outvec_read, btc_outvec_write.
  rewrite (read_vector_written _ btc_output_read btc_output_write
             (fun o => o) output_wf
             output_write_app output_read_write v rest Hn Hv).
  now rewrite map_id.
Qed.

Lemma stack_read_write :
  forall st rest,
    fits_size (length st) -> Forall (fun item => fits_size (length item)) st ->
    btc_stack_read (btc_stack_write [] st ++ rest) = Some (st, rest).
Proof.
  intros st rest Hn Hst. unfold btc_stack_read, btc_stack_write.
  rewrite (read_vector_written _ btc_script_read btc_script_write
             (fun s => s) (fun item => fits_size (length item))
             script_write_app script_read_write st rest Hn Hst).
  now rewrite map_id.
Qed.

Lemma set_witness_back :
  forall i, set_witness (set_witness i []) (in_witness i) = i.
Proof. intros [o s w q]. reflexivity. Qed.

Lemma witnesses_read_write :
  forall v rest, Forall input_wf v ->
    read_witnesses (map (fun i => set_witness i []) v)
      (concat (map (fun i => btc_stack_write [] (in_witness i)) v) ++ rest)
    = Some (v, rest).
Proof.
  induction v as [|i v IH]; intros rest Hv; [reflexivity|].
  inversion Hv as [|? ? Hi Hv']; subst.
  destruct Hi as (_ & _ & _ & Hn & Hitems).
  simpl. rewrite <- app_assoc.
  rewrite stack_read_write by assumption.
  rewrite IH by assumption. rewrite set_witness_back. reflexivity.
Qed.

(** A transaction without witness has only empty stacks, and reading its
    inputs back loses nothing. *)
Lemma no_witness_inputs :
  forall tx, btc_tx_has_witness tx = false ->
    map (fun i => set_witness i []) (tx_inputs tx) = tx_inputs tx.
Proof.
  intros tx Hw. unfold btc_tx_has_witness in Hw.
  induction (tx_inputs tx) as [|i v IH]; [reflexivity|].
  simpl in Hw. apply orb_false_iff in Hw. destruct Hw as [Hi Hv].
  simpl. rewrite (IH Hv). f_equal.
  destruct i as [o s w q]. simpl in Hi. destruct w; [reflexivity|discriminate].
Qed.

(** The first byte of a var-int of a positive number is not 0. *)
Lemma size_write_head :
  forall x, 0 < x ->
    exists b tl, btc_size_write [] x = b :: tl /\ Z_of_byte b <> 0.
Proof.
  intros x Hx. unfold btc_size_write, btc_uint8_write, btc_uint16_write,
    btc_uint32_write, btc_uint64_write.
  destruct (Z.ltb_spec x 253) as [H1|H1].
  { exists (byte_of_Z x), []. split; [reflexivity|].
    rewrite Z_of_byte_of_Z, Z.mod_small; lia. }
  destruct (x <=? 65535); [|destruct (x <=? 4294967295)];
    eexists; eexists; (split; [reflexivity|]);
    rewrite Z_of_byte_of_Z; vm_compute; discriminate.
Qed.

Lemma read_marker_absent :
  forall b tl, Z_of_byte b <> 0 -> read_marker (b :: tl) = (0, b :: tl).
Proof.
  intros b tl Hb. unfold read_marker.
  destruct tl as [|b1 tl]; [reflexivity|].
  destruct (Z.eqb_spec (Z_of_byte b) 0); [contradiction|reflexivity].
Qed.

Lemma inpvec_write_app :
  forall zp v, btc_inpvec_write zp v = zp ++ btc_inpvec_write [] v.
Proof.
  intros zp v. unfold btc_inpvec_write.
  rewrite !(vector_write_app _ _ input_write_app). reflexivity.
Qed.

Lemma outvec_write_app :
  forall zp v, btc_outvec_write zp v = zp ++ btc_outvec_write [] v.
Proof.
  intros zp v. unfold btc_outvec_write.
  rewrite !(vector_write_app _ _ output_write_app). reflexivity.
Qed.

(** The two layouts the serializer produces. *)
Lemma tx_write_marked_layout :
  forall tx,
    btc_tx_write_marked [] tx
    = le_bytes 4 (tx_version tx)
      ++ x00 :: x01
         :: btc_inpvec_write [] (tx_inputs tx)
         ++ btc_outvec_write [] (tx_outputs tx)
         ++ concat (map (fun i => btc_stack_write [] (in_witness i))
                        (tx_inputs tx))
         ++ le_bytes 4 (tx_locktime tx).
Proof.
  intro tx. unfold btc_tx_write_marked, btc_uint32_write, btc_uint8_write.
  rewrite (fold_write_app _ (fun z i => btc_stack_write z (in_witness i)))
    by (intros zp a; apply stack_write_app).
  rewrite (outvec_write_app (btc_inpvec_write _ _)).
  rewrite (inpvec_write_app (_ ++ _)).
  rewrite app_nil_l, <- !app_assoc. reflexivity.
Qed.

Lemma tx_write_layout :
  forall tx,
    btc_tx_write [] tx
    = if btc_tx_has_witness tx then btc_tx_write_marked [] tx
      else le_bytes 4 (tx_version tx)
           ++ btc_inpvec_write [] (tx_inputs tx)
           ++ btc_outvec_write [] (tx_outputs tx)
           ++ le_bytes 4 (tx_locktime tx).
Proof.
  intro tx. unfold btc_tx_write.
  destruct (btc_tx_has_witness tx); [reflexivity|].
  unfold btc_uint32_write.
  rewrite (outvec_write_app (btc_inpvec_write _ _)).
  rewrite (inpvec_write_app (_ ++ _)).
  rewrite app_nil_l, <- !app_assoc. reflexivity.
Qed.

Lemma not_inputless :
  forall (ins : list btc_input_t) (outs : list btc_output_t),
    ins <> [] \/ outs = [] ->
    (length ins =? 0)%nat && negb (length outs =? 0)%nat = false.
Proof.
  intros ins outs [Hi|Ho].
  - destruct ins; [contradiction|reflexivity].
  - subst. simpl. apply andb_false_r.
Qed.

Lemma tx_read_marked :
  forall tx rest,
    tx_wf tx -> tx_inputs tx <> [] \/ tx_outputs tx = [] ->
    btc_tx_read (btc_tx_write_marked [] tx ++ rest) = Some (tx, rest).
Proof.
  intros tx rest (Hv & Hl & Hni & Hno & Hi & Ho) Hshape.
  rewrite tx_write_marked_layout. unfold btc_tx_read.
  rewrite <- app_assoc.
  change (le_bytes 4 (tx_version tx) ++ ?r)
    with (btc_uint32_write [] (tx_version tx) ++ r).
  rewrite uint32_read_write by exact Hv.
  rewrite <- !app_comm_cons. cbn [read_marker].
  change (Z_of_byte x00 =? 0) with true.
  change (Z_of_byte x01 =? 0) with false.
  change (Z_of_byte x01) with 1. cbn [andb negb].
  rewrite <- !app_assoc.
  rewrite inpvec_read_write by assumption.
  rewrite outvec_read_write by assumption.
  unfold read_flagged. change (negb (Z.land 1 1 =? 0)) with true. cbv iota.
  rewrite witnesses_read_write by assumption.
  change (Z.lxor 1 1) with 0. change (negb (0 =? 0)) with false. cbv iota.
  rewrite not_inputless by exact Hshape.
  change (le_bytes 4 (tx_locktime tx) ++ rest)
    with (btc_uint32_write [] (tx_locktime tx) ++ rest).
  rewrite uint32_read_write by exact Hl.
  destruct tx; reflexivity.
Qed.

Lemma tx_read_plain :
  forall tx rest,
    tx_wf tx -> tx_inputs tx <> [] \/ tx_outputs tx = [] ->
    btc_tx_has_witness tx = false ->
    btc_tx_read (btc_tx_write [] tx ++ rest) = Some (tx, rest).
Proof.
  intros tx rest (Hv & Hl & Hni & Hno & Hi & Ho) Hshape Hw.
  rewrite tx_write_layout, Hw. unfold btc_tx_read.
  rewrite <- app_assoc.
  change (le_bytes 4 (tx_version tx) ++ ?r)
    with (btc_uint32_write [] (tx_version tx) ++ r).
  rewrite uint32_read_write by exact Hv.
  assert (Hm : forall r,
             read_marker ((btc_inpvec_write [] (tx_inputs tx)
                           ++ btc_outvec_write [] (tx_outputs tx)
                           ++ le_bytes 4 (tx_locktime tx)) ++ r)
             = (0, (btc_inpvec_write [] (tx_inputs tx)
                    ++ btc_outvec_write [] (tx_outputs tx)
                    ++ le_bytes 4 (tx_locktime tx)) ++ r)).
  { intro r. destruct (tx_inputs tx) as [|i ins] eqn:Ei.
    - destruct Hshape as [Hne|Hout]; [contradiction|].
      rewrite Hout. reflexivity.
    - unfold btc_inpvec_write.
      rewrite (vector_write_app _ _ input_write_app), app_nil_l.
      destruct (size_write_head (Z.of_nat (length (i :: ins))))
        as (b & tl & Eb & Hb); [simpl; lia|].
      rewrite Eb. simpl app. apply read_marker_absent. exact Hb. }
  rewrite Hm. rewrite <- !app_assoc.
  rewrite inpvec_read_write by assumption.
  rewrite outvec_read_write by assumption.
  rewrite (no_witness_inputs tx Hw).
  unfold read_flagged. change (negb (Z.land 0 1 =? 0)) with false. cbv iota.
  change (negb (0 =? 0)) with false. cbv iota.
  rewrite not_inputless by exact Hshape.
  change (le_bytes 4 (tx_locktime tx) ++ rest)
    with (btc_uint32_write [] (tx_locktime tx) ++ rest).
  rewrite uint32_read_write by exact Hl.
  destruct tx; reflexivity.
Qed.

Lemma empty_stacks_written :
  forall v : list btc_input_t,
    map (fun i => set_witness i []) v = v ->
    Forall (fun i => btc_stack_write [] (in_witness i) = [x00]) v.
Proof.
  induction v as [|i v IH]; intro Hn; constructor.
  - simpl in Hn. injection Hn as Hi _.
    destruct i as [o s w q]. unfold set_witness in Hi. simpl in Hi.
    injection Hi as <-. reflexivity.
  - apply IH. simpl in Hn. injection Hn as _ Hn. exact Hn.
Qed.

(** C4, as the code has it.  For a transaction whose fields fit their C
    types and that is not "no inputs but some outputs", decoding what
    [btc_tx_write] produced gives the transaction back (with or without
    witness), and for a witness-free transaction so does decoding the
    layout with the 0x00 0x01 marker and one empty stack per input. *)
Theorem tx_read_write :
  forall (tx : btc_tx_t) (rest : bytes),
    tx_wf tx ->
    tx_inputs tx <> [] \/ tx_outputs tx = [] ->
    btc_tx_read (btc_tx_write [] tx ++ rest) = Some (tx, rest)
    /\ (btc_tx_has_witness tx = false ->
        btc_tx_read (btc_tx_write_marked [] tx ++ rest)
        = btc_tx_read (btc_tx_write [] tx ++ rest)
        /\ Forall (fun i => btc_stack_write [] (in_witness i) = [x00])
                  (tx_inputs tx)).
Proof.
  intros tx rest Hwf Hshape.
  assert (Hplain : btc_tx_read (btc_tx_write [] tx ++ rest) = Some (tx, rest)).
  { destruct (btc_tx_has_witness tx) eqn:Hw.
    - rewrite tx_write_layout, Hw. apply tx_read_marked; assumption.
    - apply tx_read_plain; assumption. }
  split; [exact Hplain|].
  intro Hw. split.
  - rewrite Hplain. apply tx_read_marked; assumption.
  - apply empty_stacks_written. apply no_witness_inputs. exact Hw.
Qed.

End TxRoundTrip.

Lemma sample_tx_wf : tx_wf sample_tx.
Proof. fits. Qed.

Lemma sample_witness_tx_wf : tx_wf sample_witness_tx.
Proof. fits. Qed.

Lemma tx_read_write_witness :
  btc_tx_read (btc_tx_write [] sample_tx ++ [x99]) = Some (sample_tx, [x99])
  /\ (btc_tx_has_witness sample_tx = false ->
      btc_tx_read (btc_tx_write_marked [] sample_tx ++ [x99])
      = btc_tx_read (btc_tx_write [] sample_tx ++ [x99])
      /\ Forall (fun i => btc_stack_write [] (in_witness i) = [x00])
                (tx_inputs sample_tx)).
Proof.
  apply (tx_read_write sample_tx [x99] sample_tx_wf).
  left. discriminate.
Defined.

(** The witness-bearing sample: marker, inputs, outputs, stacks. *)
Lemma tx_read_write_with_witness :
  btc_tx_has_witness sample_witness_tx = true
  /\ btc_tx_read (btc_tx_write [] sample_witness_tx)
     = Some (sample_witness_tx, []).
Proof.
  split; [reflexivity|].
  rewrite <- (app_nil_r (btc_tx_write [] sample_witness_tx)).
  rewrite tx_write_layout.
  change (btc_tx_has_witness sample_witness_tx) with true. cbv iota.
  apply (tx_read_marked sample_witness_tx [] sample_witness_tx_wf).
  left. discriminate.
Qed.

(** C4 as stated covers every transaction.  One with no inputs and one
    output is written as version, 00, 01, ...: the reader takes 00 01 for
    the witness marker and fails. *)
Lemma tx_read_rejects_inputless :
  tx_wf sample_inputless_tx
  /\ btc_tx_read (btc_tx_write [] sample_inputless_tx) = None.
Proof.
  split; [fits|].
  vm_compute. reflexivity.
Qed.

(** ** Properties of [src/bip152.c] *)

(** *** Compact blocks: placing the prefilled transactions *)

Section Setup.

Lemma vec_set_length :
  forall (A : Type) (l : list A) i x, length (vec_set l i x) = length l.
Proof.
  intros A l. induction l as [|a l IH]; intros [|i] x; simpl; auto.
Qed.

Lemma vec_set_same :
  forall (A : Type) (l : list A) i x,
    (i < length l)%nat -> nth_error (vec_set l i x) i = Some x.
Proof.
  intros A l. induction l as [|a l IH]; intros [|i] x Hi; simpl in *;
    try lia; auto.
  apply IH. lia.
Qed.

Lemma vec_set_other :
  forall (A : Type) (l : list A) i j x,
    i <> j -> nth_error (vec_set l i x) j = nth_error l j.
Proof.
  intros A l. induction l as [|a l IH]; intros [|i] [|j] x Hij; simpl;
    try reflexivity; try congruence.
  apply IH. congruence.
Qed.

Lemma setup_place_rejects_iff :
  forall blk i last tx,
    snd (setup_place blk i last tx) = None
    <-> cursor_rejected blk i (setup_cursor last tx).
Proof.
  intros blk i last tx. unfold setup_place, cursor_rejected.
  set (c := setup_cursor last tx).
  destruct (Z.ltb_spec c 0) as [H0|H0]; simpl.
  { split; [intros _; left; exact H0|reflexivity]. }
  destruct (Z.gtb_spec c 65535) as [H1|H1]; simpl.
  { split; [intros _; right; left; lia|reflexivity]. }
  destruct (Z.gtb_spec c (Z.of_nat (length (ids blk)) + Z.of_nat i))
    as [H2|H2]; simpl.
  { split; [intros _; right; right; lia|reflexivity]. }
  split; [discriminate|]. intros [A|[A|A]]; lia.
Qed.

(** C3, as the code has it.  At the [i]-th prefilled transaction the
    cursor becomes [last + _index + 1] (an int), and setup answers -1
    exactly when the cursor is negative, or above 0xffff, or strictly
    above [ids.length + i]; otherwise the transaction is stored at the
    cursor's slot and [count] grows by one.  A cursor equal to
    [ids.length + i] is accepted: it is the last slot still reachable. *)
Theorem setup_places_prefilled :
  forall (blk : btc_cmpct_t) (i : nat) (last : Z) (tx : btc_ptx_t),
    (snd (setup_place blk i last tx) = None
     <-> cursor_rejected blk i (setup_cursor last tx))
    /\ (forall rest,
          cursor_rejected blk i (setup_cursor last tx) ->
          setup_prefilled (tx :: rest) i last blk = (-1, blk))
    /\ (forall rest,
          ~ cursor_rejected blk i (setup_cursor last tx) ->
          exists blk',
            setup_place blk i last tx = (setup_cursor last tx, Some blk')
            /\ setup_prefilled (tx :: rest) i last blk
               = setup_prefilled rest (S i) (setup_cursor last tx) blk'
            /\ count blk' = count blk + 1
            /\ ids blk' = ids blk /\ ptx blk' = ptx blk
            /\ length (avail blk') = length (avail blk)
            /\ ((Z.to_nat (setup_cursor last tx) < length (avail blk))%nat ->
                nth_error (avail blk') (Z.to_nat (setup_cursor last tx))
                = Some (Some (ptx_tx tx)))).
Proof.
  intros blk i last tx.
  pose proof (setup_place_rejects_iff blk i last tx) as Hiff.
  split; [exact Hiff|]. split.
  - intros rest Hrej. apply Hiff in Hrej. cbn [setup_prefilled].
    destruct (setup_place blk i last tx) as [c [b|]]; [discriminate|reflexivity].
  - intros rest Hacc.
    assert (Hsome : snd (setup_place blk i last tx) <> None)
      by (intro E; apply Hacc, Hiff, E).
    cbn [setup_prefilled].
    unfold setup_place in *.
    destruct ((setup_cursor last tx <? 0) || (setup_cursor last tx >? 65535));
      [exfalso; apply Hsome; reflexivity|].
    destruct (setup_cursor last tx
              >? Z.of_nat (length (ids blk)) + Z.of_nat i);
      [exfalso; apply Hsome; reflexivity|].
    eexists. split; [reflexivity|]. split; [reflexivity|]. simpl.
    split; [reflexivity|]. split; [reflexivity|]. split; [reflexivity|].
    split; [apply vec_set_length|].
    intro Hin. rewrite vec_set_same by exact Hin.
    destruct (ptx_tx tx); reflexivity.
Qed.

End Setup.

(** C3 as stated rejects a cursor equal to [ids.length + i].  A compact
    block that is only its coinbase (no short ids, one prefilled
    transaction with [_index] 0) has cursor 0 = ids.length + 0 there, and
    setup places the coinbase and returns 1. *)
Lemma setup_accepts_cursor_at_bound :
  setup_cursor (-1) {| _index := 0; ptx_tx := sample_coinbase |}
    >= Z.of_nat (length (ids (sample_cmpct []))) + Z.of_nat 0
  /\ (exists blk',
        @btc_cmpct_setup sample (sample_cmpct []) = Some (1, blk')
        /\ avail blk' = [Some sample_coinbase]
        /\ count blk' = 1).
Proof.
  split.
  - vm_compute. discriminate.
  - eexists. split; [vm_compute; reflexivity|]. split; reflexivity.
Qed.

(** *** Compact blocks: filling the missing transactions *)

Section Fill.

Lemma slots_total :
  forall a, (filled_slots a + empty_slots a = length a)%nat.
Proof.
  induction a as [|[t|] a IH]; simpl; lia.
Qed.

(** Enough transactions left: every empty slot is filled, in order. *)
Lemma fill_from_enough :
  forall msg slots offset cnt,
    (offset + empty_slots slots <= length (bt_txs msg))%nat ->
    exists slots',
      fill_from slots msg offset cnt
      = (true, slots', (offset + empty_slots slots)%nat,
         cnt + Z.of_nat (empty_slots slots))
      /\ Forall is_filled slots'
      /\ length slots' = length slots.
Proof.
  intros msg slots. induction slots as [|[t|] slots IH]; intros offset cnt Hn.
  - exists []. simpl. rewrite Nat.add_0_r, Z.add_0_r. auto.
  - simpl in *. destruct (IH offset cnt Hn) as (s' & E & F & L).
    exists (Some t :: s'). rewrite E. repeat split.
    + constructor; [discriminate|exact F].
    + simpl. now rewrite L.
  - simpl in *.
    destruct (nth_error (bt_txs msg) offset) as [t|] eqn:G.
    + destruct (IH (S offset) (cnt + 1)) as (s' & E & F & L); [lia|].
      exists (Some (btc_tx_clone t) :: s'). rewrite E. repeat split.
      * f_equal; [f_equal; lia|lia].
      * constructor; [discriminate|exact F].
      * simpl. now rewrite L.
    + apply nth_error_None in G. lia.
Qed.

(** Too few transactions left: the loop returns early. *)
Lemma fill_from_short :
  forall msg slots offset cnt,
    (length (bt_txs msg) < offset + empty_slots slots)%nat ->
    (offset <= length (bt_txs msg))%nat ->
    fst (fst (fst (fill_from slots msg offset cnt))) = false.
Proof.
  intros msg slots. induction slots as [|[t|] slots IH]; intros offset cnt Hn Ho.
  - simpl in Hn. lia.
  - simpl in *. specialize (IH offset cnt Hn Ho).
    destruct (fill_from slots msg offset cnt) as [[[d s] o] c]. exact IH.
  - simpl in *.
    destruct (nth_error (bt_txs msg) offset) as [t|] eqn:G; [|reflexivity].
    assert (offset < length (bt_txs msg))%nat
      by (apply nth_error_Some; congruence).
    specialize (IH (S offset) (cnt + 1) ltac:(lia) ltac:(lia)).
    destruct (fill_from slots msg (S offset) (cnt + 1)) as [[[d s] o] c].
    exact IH.
Qed.

(** The response has exactly one transaction per empty slot. *)
Lemma fill_missing_exact :
  forall blk msg,
    length (avail blk) = (length (ptx blk) + length (ids blk))%nat ->
    length (bt_txs msg) = empty_slots (avail blk) ->
    exists blk',
      btc_cmpct_fill_missing blk msg = Some (1, blk')
      /\ Forall is_filled (avail blk')
      /\ count blk' = count blk + Z.of_nat (empty_slots (avail blk))
      /\ ptx blk' = ptx blk /\ ids blk' = ids blk.
Proof.
  intros blk msg Hlen Heq. unfold btc_cmpct_fill_missing.
  rewrite Hlen, Nat.eqb_refl. simpl negb. cbv iota.
  destruct (fill_from_enough msg (avail blk) 0 (count blk) ltac:(simpl; lia))
    as (s' & E & F & L).
  rewrite E. simpl. rewrite Heq, Nat.eqb_refl.
  eexists. split; [reflexivity|]. simpl.
  split; [exact F|]. split; [reflexivity|]. split; reflexivity.
Qed.

(** C2, as the code has it.  [btc_cmpct_fill_missing] returns 0 when the
    response holds fewer transactions than there are empty slots and
    the same 0 when it holds more; when the numbers agree it returns 1,
    every slot is filled and [count] has grown by the number of slots
    that were empty, so that it equals the total when it counted the
    filled slots before. *)
Theorem fill_missing_result :
  forall (blk : btc_cmpct_t) (msg : btc_blocktxn_t),
    length (avail blk) = (length (ptx blk) + length (ids blk))%nat ->
    ((length (bt_txs msg) < empty_slots (avail blk))%nat ->
       exists blk', btc_cmpct_fill_missing blk msg = Some (0, blk'))
    /\ ((length (bt_txs msg) > empty_slots (avail blk))%nat ->
       exists blk', btc_cmpct_fill_missing blk msg = Some (0, blk'))
    /\ (length (bt_txs msg) = empty_slots (avail blk) ->
       exists blk',
         btc_cmpct_fill_missing blk msg = Some (1, blk')
         /\ Forall is_filled (avail blk')
         /\ count blk' = count blk + Z.of_nat (empty_slots (avail blk))
         /\ (count blk = Z.of_nat (filled_slots (avail blk)) ->
             count blk' = Z.of_nat (length (ptx blk') + length (ids blk')))).
Proof.
  intros blk msg Hlen. unfold btc_cmpct_fill_missing.
  rewrite Hlen, Nat.eqb_refl. simpl negb. cbv iota.
  split; [|split].
  - intro Hfew.
    pose proof (fill_from_short msg (avail blk) 0 (count blk)
                  ltac:(simpl; lia) ltac:(lia)) as Hd.
    destruct (fill_from (avail blk) msg 0 (count blk)) as [[[d s] o] c].
    simpl in Hd. subst d. eexists. reflexivity.
  - intro Hmany.
    destruct (fill_from_enough msg (avail blk) 0 (count blk) ltac:(simpl; lia))
      as (s' & E & F & L).
    rewrite E. simpl.
    destruct (Nat.eqb_spec (empty_slots (avail blk)) (length (bt_txs msg)));
      [lia|]. eexists. reflexivity.
  - intro Heq.
    destruct (fill_missing_exact blk msg Hlen Heq)
      as (blk' & E & F & C & P & I).
    unfold btc_cmpct_fill_missing in E.
    rewrite Hlen, Nat.eqb_refl in E. simpl negb in E. cbv iota in E.
    exists blk'. split; [exact E|]. split; [exact F|]. split; [exact C|].
    intro Hc. rewrite C, P, I. pose proof (slots_total (avail blk)). lia.
Qed.

End Fill.

Lemma sample_ready_slots :
  avail sample_ready = [Some sample_coinbase; None]
  /\ count sample_ready = 1
  /\ ids sample_ready = [0x123456]
  /\ length (ptx sample_ready) = 1%nat.
Proof. repeat split. Qed.

Lemma fill_missing_result_witness :
  exists blk',
    btc_cmpct_fill_missing sample_ready
      {| bt_hash := []; bt_txs := [sample_tx] |} = Some (1, blk')
    /\ Forall is_filled (avail blk')
    /\ count blk' = count sample_ready
                    + Z.of_nat (empty_slots (avail sample_ready))
    /\ (count sample_ready = Z.of_nat (filled_slots (avail sample_ready)) ->
        count blk' = Z.of_nat (length (ptx blk') + length (ids blk'))).
Proof.
  apply (fill_missing_result sample_ready
           {| bt_hash := []; bt_txs := [sample_tx] |}).
  - reflexivity.
  - reflexivity.
Defined.

(** C2 as stated asks for two distinct results, "incomplete" for a short
    response and "malformed" for a long one.  With one empty slot, an
    empty response and a response of two transactions both get 0. *)
Lemma fill_missing_short_and_long_same_code :
  option_map fst
    (btc_cmpct_fill_missing sample_ready
       {| bt_hash := []; bt_txs := [] |}) = Some 0
  /\ option_map fst
       (btc_cmpct_fill_missing sample_ready
          {| bt_hash := []; bt_txs := [sample_tx; sample_tx] |}) = Some 0.
Proof. split; reflexivity. Qed.

(** *** Compact blocks: what setup hands to fill *)

Section SetupInvariant.
Context `{Collaborators}.

Lemma i32_small : forall x, - 2 ^ 31 <= x < 2 ^ 31 -> i32 x = x.
Proof.
  intros x Hx. unfold i32, sint. change (32 - 1) with 31.
  destruct (Z_lt_le_dec x 0) as [Hneg|Hpos].
  - assert (E : x mod 2 ^ 32 = x + 2 ^ 32).
    { symmetry. apply (Z.mod_unique x (2 ^ 32) (-1)); lia. }
    rewrite E. destruct (Z.ltb_spec (x + 2 ^ 32) (2 ^ 31)); lia.
  - rewrite Z.mod_small by lia.
    destruct (Z.ltb_spec x (2 ^ 31)); lia.
Qed.

Lemma filled_slots_vec_set :
  forall a c t,
    nth_error a c = Some None ->
    filled_slots (vec_set a c (Some t)) = S (filled_slots a).
Proof.
  induction a as [|s a IH]; intros [|c] t Hc; simpl in *; try discriminate.
  - injection Hc as ->. reflexivity.
  - destruct s; rewrite (IH c t Hc); reflexivity.
Qed.

Lemma filled_slots_repeat : forall n, filled_slots (repeat None n) = 0%nat.
Proof. induction n; simpl; auto. Qed.

Lemma nth_error_repeat_none :
  forall n p, (p < n)%nat ->
    nth_error (repeat (@None btc_tx_t) n) p = Some None.
Proof.
  induction n as [|n IH]; intros [|p] Hp; simpl; try lia; auto.
  apply IH. lia.
Qed.

(** An accepted placement keeps the invariant at the new cursor. *)
Lemma setup_place_keeps :
  forall blk i last tx blk',
    prefilled_ok tx ->
    setup_inv blk last ->
    (i < length (ptx blk))%nat ->
    length (avail blk) = (length (ptx blk) + length (ids blk))%nat ->
    snd (setup_place blk i last tx) = Some blk' ->
    setup_inv blk' (fst (setup_place blk i last tx))
    /\ length (avail blk') = length (avail blk)
    /\ ids blk' = ids blk /\ ptx blk' = ptx blk /\ id_map blk' = id_map blk.
Proof.
  intros blk i last tx blk' Hok (Hc & Hempty & Hlast) Hi Hlen.
  unfold setup_place, setup_cursor.
  unfold prefilled_ok in Hok.
  rewrite i32_small by lia.
  set (c := last + (_index tx + 1)).
  destruct (Z.ltb_spec c 0) as [H0|H0]; simpl; [discriminate|].
  destruct (Z.gtb_spec c 65535) as [H1|H1]; simpl; [discriminate|].
  destruct (Z.gtb_spec c (Z.of_nat (length (ids blk)) + Z.of_nat i))
    as [H2|H2]; simpl; [discriminate|].
  intro E. injection E as <-. simpl.
  assert (Hin : (Z.to_nat c < length (avail blk))%nat) by lia.
  assert (Hnone : nth_error (avail blk) (Z.to_nat c) = Some None)
    by (apply Hempty; lia).
  split; [|rewrite vec_set_length; auto].
  split; [|split]; simpl.
  - rewrite filled_slots_vec_set by exact Hnone. lia.
  - intros p Hp Hpl. rewrite vec_set_length in Hpl.
    rewrite vec_set_other by lia. apply Hempty; lia.
  - lia.
Qed.

Lemma setup_prefilled_code :
  forall l i last blk,
    fst (setup_prefilled l i last blk) = 1
    \/ fst (setup_prefilled l i last blk) = -1.
Proof.
  induction l as [|t l IH]; intros i last blk; simpl; [now left|].
  destruct (setup_place blk i last t) as [c [b|]]; [apply IH|now right].
Qed.

Lemma setup_prefilled_keeps :
  forall l i last blk blk',
    Forall prefilled_ok l ->
    setup_inv blk last ->
    (i + length l = length (ptx blk))%nat ->
    length (avail blk) = (length (ptx blk) + length (ids blk))%nat ->
    setup_prefilled l i last blk = (1, blk') ->
    count blk' = Z.of_nat (filled_slots (avail blk'))
    /\ length (avail blk') = length (avail blk)
    /\ ids blk' = ids blk /\ ptx blk' = ptx blk /\ id_map blk' = id_map blk.
Proof.
  induction l as [|tx l IH]; intros i last blk blk' Hl Hinv Hi Hlen.
  - simpl. intro E. injection E as <-. destruct Hinv as [Hc _]. auto.
  - inversion Hl as [|? ? Htx Hl']; subst. cbn [setup_prefilled].
    pose proof (setup_place_keeps blk i last tx) as Hk.
    destruct (setup_place blk i last tx) as [c [b|]]; [|discriminate].
    simpl in Hk, Hi.
    destruct (Hk b Htx Hinv ltac:(lia) Hlen eq_refl)
      as (Hinv' & Ha & Hids & Hptx & Hmap).
    intro E.
    destruct (IH (S i) c b blk' Hl' Hinv') as (R1 & R2 & R3 & R4 & R5);
      [rewrite Hptx; lia|rewrite Ha, Hptx, Hids; exact Hlen|exact E|].
    repeat split; congruence.
Qed.

Lemma setup_ids_keeps :
  forall l i offset blk r blk',
    setup_ids l i offset blk = (r, blk') ->
    (r = 0 \/ r = 1)
    /\ avail blk' = avail blk /\ count blk' = count blk
    /\ ids blk' = ids blk /\ ptx blk' = ptx blk.
Proof.
  induction l as [|id l IH]; intros i offset blk r blk'; simpl.
  - intro E. injection E as <- <-. auto.
  - destruct (btc_longtab_put _ _ _) as [m|].
    + intro E. apply IH in E. simpl in E. exact E.
    + intro E. injection E as <- <-. auto.
Qed.

(** When [btc_cmpct_setup] does not answer -1, [avail] has one slot per
    transaction of the block and [count] is the number of filled ones. *)
Lemma setup_counts_filled :
  forall blk r blk',
    Forall prefilled_ok (ptx blk) ->
    btc_cmpct_setup blk = Some (r, blk') ->
    r <> -1 ->
    (r = 0 \/ r = 1)
    /\ length (avail blk') = (length (ptx blk') + length (ids blk'))%nat
    /\ count blk' = Z.of_nat (filled_slots (avail blk'))
    /\ ids blk' = ids blk /\ ptx blk' = ptx blk.
Proof.
  intros blk r blk' Hok. unfold btc_cmpct_setup.
  set (total := Z.of_nat (length (ptx blk) + length (ids blk))).
  destruct (total =? 0); [intros E N; injection E as <- _; congruence|].
  destruct (total >? BTC_MAX_BLOCK_SIZE / 10);
    [intros E N; injection E as <- _; congruence|].
  destruct (total >? (BTC_MAX_BLOCK_SIZE - 81) / 60);
    [intros E N; injection E as <- _; congruence|].
  destruct (Nat.eqb_spec (length (avail blk)) 0) as [Ea|Ea]; [|discriminate].
  destruct (Z.eqb_spec (count blk) 0) as [Ec|Ec]; [|discriminate].
  simpl negb. cbv iota.
  set (blk0 := set_avail blk (repeat None (Z.to_nat total)) (count blk)).
  assert (Hlen0 : length (avail blk0)
                  = (length (ptx blk0) + length (ids blk0))%nat).
  { simpl. rewrite repeat_length. unfold total. lia. }
  assert (Hinv0 : setup_inv blk0 (-1)).
  { split; [|split; [|lia]].
    - simpl. rewrite filled_slots_repeat. exact Ec.
    - simpl. intros p _ Hp. rewrite repeat_length in Hp.
      apply nth_error_repeat_none. exact Hp. }
  pose proof (setup_prefilled_keeps (ptx blk0) 0 (-1) blk0) as Hk.
  pose proof (setup_prefilled_code (ptx blk0) 0 (-1) blk0) as Hcode.
  destruct (setup_prefilled (ptx blk0) 0 (-1) blk0) as [r1 b1].
  simpl in Hcode.
  destruct (Z.eqb_spec r1 1) as [E1|E1]; simpl negb; cbv iota.
  - subst r1.
    destruct (Hk b1 Hok Hinv0 eq_refl Hlen0 eq_refl)
      as (R1 & R2 & R3 & R4 & R5).
    destruct (length (id_map b1) =? 0)%nat; simpl; [|discriminate].
    intros E N. injection E as E.
    apply setup_ids_keeps in E. destruct E as (Hr & Sa & Sc & Si & Sp).
    split; [exact Hr|].
    rewrite Sa, Sc, Si, Sp.
    split; [rewrite R2, R3, R4; exact Hlen0|].
    split; [exact R1|].
    split; [rewrite R3; reflexivity|rewrite R4; reflexivity].
  - intros E N. injection E as <- <-. exfalso. lia.
Qed.

(** After a setup that answered 1, a response with one transaction per
    empty slot completes the block: fill answers 1, every slot is filled
    and [count] is the total. *)
Lemma setup_then_fill_completes :
  forall blk blk1 msg,
    Forall prefilled_ok (ptx blk) ->
    btc_cmpct_setup blk = Some (1, blk1) ->
    length (bt_txs msg) = empty_slots (avail blk1) ->
    exists blk2,
      btc_cmpct_fill_missing blk1 msg = Some (1, blk2)
      /\ Forall is_filled (avail blk2)
      /\ count blk2 = Z.of_nat (length (ptx blk) + length (ids blk)).
Proof.
  intros blk blk1 msg Hok Hsetup Hn.
  destruct (setup_counts_filled blk 1 blk1 Hok Hsetup ltac:(lia))
    as (_ & Hlen & Hc & Hi & Hp).
  destruct (fill_missing_exact blk1 msg Hlen Hn)
    as (blk2 & E & F & C & P & I).
  exists blk2. split; [exact E|]. split; [exact F|].
  rewrite C, Hc, <- Hp, <- Hi, <- Hlen.
  pose proof (slots_total (avail blk1)). lia.
Qed.

End SetupInvariant.

Lemma setup_then_fill_completes_witness :
  exists blk2,
    btc_cmpct_fill_missing sample_ready
      {| bt_hash := []; bt_txs := [sample_tx] |} = Some (1, blk2)
    /\ Forall is_filled (avail blk2)
    /\ count blk2
       = Z.of_nat (length (ptx (sample_cmpct [0x123456]))
                   + length (ids (sample_cmpct [0x123456]))).
Proof.
  apply (@setup_then_fill_completes sample (sample_cmpct [0x123456])
           sample_ready {| bt_hash := []; bt_txs := [sample_tx] |}).
  - repeat constructor; simpl; lia.
  - vm_compute. reflexivity.
  - reflexivity.
Defined.

(** *** Compact blocks: when setup answers -1 *)

Section SetupMalformed.
Context `{Collaborators}.

Lemma cursor_rejected_ids :
  forall blk blk' i c,
    ids blk' = ids blk ->
    cursor_rejected blk' i c <-> cursor_rejected blk i c.
Proof.
  intros blk blk' i c E. unfold cursor_rejected. rewrite E. tauto.
Qed.

Lemma setup_place_ids :
  forall blk i last tx blk',
    snd (setup_place blk i last tx) = Some blk' ->
    ids blk' = ids blk
    /\ fst (setup_place blk i last tx) = setup_cursor last tx.
Proof.
  intros blk i last tx blk'. unfold setup_place.
  destruct ((setup_cursor last tx <? 0) || (setup_cursor last tx >? 65535));
    [discriminate|].
  destruct (setup_cursor last tx >? Z.of_nat (length (ids blk)) + Z.of_nat i);
    [discriminate|].
  simpl. intro E. injection E as <-. split; reflexivity.
Qed.

(** The prefilled loop answers -1 exactly when one of its cursors is
    rejected. *)
Lemma setup_prefilled_rejects_iff :
  forall l i last blk,
    fst (setup_prefilled l i last blk) = -1
    <-> some_cursor_rejected blk l i last.
Proof.
  unfold some_cursor_rejected.
  induction l as [|tx l IH]; intros i last blk.
  - simpl. split; [discriminate|]. intros [k [Hk _]]. lia.
  - cbn [setup_prefilled cursors length].
    pose proof (setup_place_rejects_iff blk i last tx) as Hrej.
    pose proof (setup_place_ids blk i last tx) as Hids.
    destruct (setup_place blk i last tx) as [c [b|]]; simpl in Hrej, Hids.
    + destruct (Hids b eq_refl) as [Ei Ec]. subst c.
      rewrite IH. split.
      * intros [k [Hk R]]. exists (S k). split; [lia|].
        apply (cursor_rejected_ids blk b) in R; [|exact Ei].
        replace (i + S k)%nat with (S i + k)%nat by lia. exact R.
      * intros [[|k] [Hk R]].
        -- exfalso. rewrite Nat.add_0_r in R. simpl in R.
           apply Hrej in R. discriminate.
        -- exists k. split; [lia|].
           apply (cursor_rejected_ids blk b); [exact Ei|].
           replace (S i + k)%nat with (i + S k)%nat by lia. exact R.
    + simpl. split; [|reflexivity]. intros _. exists 0%nat.
      split; [lia|]. rewrite Nat.add_0_r. simpl. apply Hrej. reflexivity.
Qed.

(** On a compact block as the parser leaves it ([avail] empty, [count]
    0), [btc_cmpct_setup] answers -1 exactly when the total is 0 or above
    one of the two limits, or one of the prefilled cursors is negative,
    above 0xffff or above [ids.length + i]. *)
Lemma setup_malformed_iff :
  forall blk,
    length (avail blk) = 0%nat ->
    count blk = 0 ->
    let total := Z.of_nat (length (ptx blk) + length (ids blk)) in
    option_map fst (btc_cmpct_setup blk) = Some (-1)
    <-> total = 0
        \/ total > BTC_MAX_BLOCK_SIZE / 10
        \/ total > (BTC_MAX_BLOCK_SIZE - 81) / 60
        \/ some_cursor_rejected blk (ptx blk) 0 (-1).
Proof.
  intros blk Ha Hc total. unfold btc_cmpct_setup. fold total.
  destruct (Z.eqb_spec total 0) as [E0|E0];
    [split; [intros _; left; exact E0|reflexivity]|].
  destruct (Z.gtb_spec total (BTC_MAX_BLOCK_SIZE / 10)) as [E1|E1];
    [split; [intros _; right; left; lia|reflexivity]|].
  destruct (Z.gtb_spec total ((BTC_MAX_BLOCK_SIZE - 81) / 60)) as [E2|E2];
    [split; [intros _; right; right; left; lia|reflexivity]|].
  rewrite Ha, Hc. simpl negb. cbv iota.
  set (blk0 := set_avail blk (repeat None (Z.to_nat total)) 0).
  pose proof (setup_prefilled_rejects_iff (ptx blk0) 0 (-1) blk0) as Hrej.
  pose proof (setup_prefilled_code (ptx blk0) 0 (-1) blk0) as Hcode.
  assert (Hsame : some_cursor_rejected blk0 (ptx blk0) 0 (-1)
                  <-> some_cursor_rejected blk (ptx blk) 0 (-1)).
  { unfold some_cursor_rejected. simpl ptx.
    split; intros [k [Hk R]]; exists k; (split; [exact Hk|]);
      apply (cursor_rejected_ids blk blk0); try reflexivity; exact R. }
  destruct (setup_prefilled (ptx blk0) 0 (-1) blk0) as [r b1].
  simpl in Hrej, Hcode.
  destruct Hcode as [-> | ->]; simpl negb; cbv iota.
  - destruct (length (id_map b1) =? 0)%nat; simpl.
    + destruct (setup_ids (ids b1) 0 0 b1) as [r2 b2] eqn:Es.
      apply setup_ids_keeps in Es. destruct Es as [Hr _]. simpl.
      split.
      * intro E. injection E as E. lia.
      * intros [A|[A|[A|A]]]; try lia.
        apply Hsame, Hrej in A. discriminate.
    + split; [discriminate|].
      intros [A|[A|[A|A]]]; try lia.
      apply Hsame, Hrej in A. discriminate.
  - simpl. split; [|reflexivity]. intros _. do 3 right.
    apply Hsame, Hrej. reflexivity.
Qed.

End SetupMalformed.

Lemma setup_malformed_iff_witness :
  option_map fst (@btc_cmpct_setup sample (sample_cmpct [])) = Some (-1)
  <-> 1 = 0
      \/ 1 > @BTC_MAX_BLOCK_SIZE sample / 10
      \/ 1 > (@BTC_MAX_BLOCK_SIZE sample - 81) / 60
      \/ some_cursor_rejected (sample_cmpct [])
           (ptx (sample_cmpct [])) 0 (-1).
Proof.
  apply (@setup_malformed_iff sample (sample_cmpct [])); reflexivity.
Defined.

(** *** Building a BlockTxn response *)

Section BlockTxn.
Context `{Collaborators}.

Lemma btc_tx_clone_id : forall tx, btc_tx_clone tx = tx.
Proof. intros [v i o l]. reflexivity. Qed.

Lemma set_block_from_in_range :
  forall blk pre rest acc,
    Forall (in_block blk) pre ->
    set_block_from (pre ++ rest) blk acc
    = set_block_from rest blk (acc ++ map (tx_at blk) pre).
Proof.
  intros blk pre rest. induction pre as [|i pre IH]; intros acc Hpre.
  - simpl. rewrite app_nil_r. reflexivity.
  - inversion Hpre as [|? ? Hi Hpre']; subst.
    unfold in_block in Hi. simpl.
    destruct (Z.geb_spec i (Z.of_nat (length (txs blk)))) as [Hge|Hlt]; [lia|].
    destruct (nth_error (txs blk) (Z.to_nat i)) as [tx|] eqn:E.
    + rewrite IH by assumption. rewrite <- app_assoc. simpl.
      rewrite btc_tx_clone_id.
      unfold tx_at at 2. rewrite (nth_error_nth _ _ _ E). reflexivity.
    + apply nth_error_None in E. lia.
Qed.

(** C9.  The response copies the block's transactions at the requested
    indexes in order and stops, without an error, at the first index that
    is not below the number of transactions: it holds exactly the
    transactions of the in-range indexes before that one. *)
Theorem blocktxn_set_block_stops_silently :
  forall (res : btc_blocktxn_t) (blk : btc_block_t) (req : btc_getblocktxn_t)
         (pre : list Z) (k : Z) (post : list Z),
    bt_txs res = [] ->
    indexes req = pre ++ k :: post ->
    Forall (in_block blk) pre ->
    Z.of_nat (length (txs blk)) <= k ->
    btc_blocktxn_set_block res blk req
    = Some {| bt_hash := btc_header_hash (header blk);
              bt_txs := map (tx_at blk) pre |}.
Proof.
  intros res blk req pre k post Hres Hreq Hpre Hk.
  unfold btc_blocktxn_set_block. rewrite Hres, Hreq. simpl.
  rewrite set_block_from_in_range by assumption. simpl.
  destruct (Z.geb_spec k (Z.of_nat (length (txs blk)))) as [_|Hlt]; [|lia].
  reflexivity.
Qed.

(** When every requested index is in range the response holds them all. *)
Lemma blocktxn_set_block_all_in_range :
  forall res blk req,
    bt_txs res = [] ->
    Forall (in_block blk) (indexes req) ->
    btc_blocktxn_set_block res blk req
    = Some {| bt_hash := btc_header_hash (header blk);
              bt_txs := map (tx_at blk) (indexes req) |}.
Proof.
  intros res blk req Hres Hall.
  unfold btc_blocktxn_set_block. rewrite Hres. simpl.
  rewrite <- (app_nil_r (indexes req)) at 1.
  rewrite set_block_from_in_range by assumption. reflexivity.
Qed.

End BlockTxn.

Lemma blocktxn_set_block_stops_silently_witness :
  @btc_blocktxn_set_block sample
    {| bt_hash := []; bt_txs := [] |} sample_block
    {| gb_hash := []; indexes := [1; 0; 2; 1] |}
  = Some {| bt_hash := @btc_header_hash sample (header sample_block);
            bt_txs := [sample_tx; sample_coinbase] |}.
Proof.
  apply (@blocktxn_set_block_stops_silently sample
           {| bt_hash := []; bt_txs := [] |} sample_block
           {| gb_hash := []; indexes := [1; 0; 2; 1] |} [1; 0] 2 [1]).
  - reflexivity.
  - reflexivity.
  - repeat constructor; simpl; lia.
  - simpl. lia.
Defined.

Lemma blocktxn_set_block_all_in_range_witness :
  @btc_blocktxn_set_block sample
    {| bt_hash := []; bt_txs := [] |} sample_block
    {| gb_hash := []; indexes := [1; 0] |}
  = Some {| bt_hash := @btc_header_hash sample (header sample_block);
            bt_txs := [sample_tx; sample_coinbase] |}.
Proof.
  apply (@blocktxn_set_block_all_in_range sample
           {| bt_hash := []; bt_txs := [] |} sample_block
           {| gb_hash := []; indexes := [1; 0] |}).
  - reflexivity.
  - repeat constructor; simpl; lia.
Defined.

(** ** Properties of [src/node/chaindb.c] *)

(** *** The fsync policy *)

Lemma u32_range : forall x, 0 <= u32 x < 2 ^ 32.
Proof. intro x. unfold u32. apply Z.mod_pos_bound. lia. Qed.

Lemma u32_small : forall x, 0 <= x < 2 ^ 32 -> u32 x = x.
Proof. intros x Hx. unfold u32. apply Z.mod_small. exact Hx. Qed.

Lemma should_sync_unfold :
  forall now db e,
    0 <= e_time e < 2 ^ 32 ->
    btc_chaindb_should_sync now db e =
      if now =? -1 then 1
      else if u32 now <? e_time e then 1
      else if u32 now - e_time e <=? 24 * 60 * 60 then 1
      else if e_height e mod 1000 =? 0 then 1
      else 0.
Proof.
  intros now db e Ht. unfold btc_chaindb_should_sync.
  destruct (now =? -1); [reflexivity|].
  destruct (Z.ltb_spec (u32 now) (e_time e)) as [Hlt|Hge]; [reflexivity|].
  rewrite u32_small; [reflexivity|].
  pose proof (u32_range now). lia.
Qed.

Lemma should_sync_decides :
  forall now db e,
    0 <= e_time e < 2 ^ 32 ->
    now = -1 \/ 0 <= now < 2 ^ 32 ->
    (btc_chaindb_should_sync now db e = 1 /\ sync_wanted now e)
    \/ (btc_chaindb_should_sync now db e = 0 /\ ~ sync_wanted now e).
Proof.
  intros now db e Ht Hn. rewrite (should_sync_unfold now db e Ht).
  unfold sync_wanted.
  destruct (Z.eqb_spec now (-1)) as [Hm|Hm];
    [left; split; [reflexivity|now left]|].
  rewrite (u32_small now) by lia.
  destruct (Z.ltb_spec now (e_time e)) as [Hlt|Hge].
  { left; split; [reflexivity|]. right; left; exact Hlt. }
  destruct (Z.leb_spec (now - e_time e) (24 * 60 * 60)) as [Hd|Hd].
  { left; split; [reflexivity|]. right; right; left. lia. }
  destruct (Z.eqb_spec (e_height e mod 1000) 0) as [Hh|Hh].
  { left; split; [reflexivity|]. right; right; right; exact Hh. }
  right; split; [reflexivity|].
  intros [A|[A|[A|A]]]; lia.
Qed.

(** C7, as the code has it.  For a clock that is unavailable (-1) or a
    time below 2^32, and an entry whose time is a uint32_t, [should_sync]
    returns 1 exactly when the clock is unavailable, or the entry's time
    is ahead of the clock, or the entry's time is at most 24 hours
    behind the clock, or the height is a multiple of 1000; otherwise it
    returns 0. *)
Theorem should_sync_iff :
  forall (now : Z) (db : btc_chaindb) (e : btc_entry_t),
    0 <= e_time e < 2 ^ 32 ->
    now = -1 \/ 0 <= now < 2 ^ 32 ->
    (btc_chaindb_should_sync now db e = 1 <-> sync_wanted now e)
    /\ (btc_chaindb_should_sync now db e = 0 <-> ~ sync_wanted now e).
Proof.
  intros now db e Ht Hn.
  destruct (should_sync_decides now db e Ht Hn) as [[R W]|[R W]]; rewrite R.
  - split; split; intro; try assumption; try reflexivity; try discriminate.
    contradiction.
  - split; split; intro; try assumption; try reflexivity; try discriminate.
    contradiction.
Qed.

Lemma should_sync_iff_witness :
  (btc_chaindb_should_sync 1700090000 empty_db (sample_entry 123 1700000000) = 0
   <-> ~ sync_wanted 1700090000 (sample_entry 123 1700000000))
  /\ (btc_chaindb_should_sync 1700080000 empty_db (sample_entry 123 1700000000) = 1
      <-> sync_wanted 1700080000 (sample_entry 123 1700000000)).
Proof.
  split.
  - apply (should_sync_iff 1700090000 empty_db (sample_entry 123 1700000000)).
    + simpl; lia.
    + right; lia.
  - apply (should_sync_iff 1700080000 empty_db (sample_entry 123 1700000000)).
    + simpl; lia.
    + right; lia.
Defined.

(** C7 as stated covers every wall-clock time.  The code compares
    [(uint32_t)now], the low 32 bits of the clock.  At
    [now = 2^32 + 100000] a block timed 50000 at height 1 is synced,
    though over the wall clock it is neither ahead nor within 24 hours;
    at [now = -2] a block timed 1700000000 at height 123 is not synced,
    though its time is ahead of the clock. *)
Lemma should_sync_wrapped_clock :
  (btc_chaindb_should_sync (2 ^ 32 + 100000) empty_db (sample_entry 1 50000) = 1
   /\ ~ sync_wanted (2 ^ 32 + 100000) (sample_entry 1 50000))
  /\ (btc_chaindb_should_sync (-2) empty_db (sample_entry 123 1700000000) = 0
      /\ sync_wanted (-2) (sample_entry 123 1700000000)).
Proof.
  split; split.
  - reflexivity.
  - unfold sync_wanted. cbn [e_time e_height sample_entry].
    intros [A|[A|[A|A]]]; try lia. discriminate A.
  - reflexivity.
  - unfold sync_wanted. cbn [e_time sample_entry]. right; left. lia.
Qed.

(** On a clock that fits the 32 bits of a block time, the reading is the
    clock itself. *)
Corollary should_sync_on_u32_clock :
  forall (now : Z) (db : btc_chaindb) (e : btc_entry_t),
    0 <= e_time e < 2 ^ 32 ->
    now = -1 \/ 0 <= now < 2 ^ 32 ->
    (btc_chaindb_should_sync now db e = 1 <-> sync_wanted now e).
Proof.
  intros now db e Ht Hn.
  destruct (should_sync_decides now db e Ht Hn) as [[R W]|[R W]];
    rewrite R; split; intro; try assumption;
    try reflexivity; try discriminate; contradiction.
Qed.

Lemma should_sync_on_u32_clock_witness :
  btc_chaindb_should_sync 1700080000 empty_db (sample_entry 123 1700000000) = 1
  <-> sync_wanted 1700080000 (sample_entry 123 1700000000).
Proof.
  apply (should_sync_on_u32_clock 1700080000 empty_db
           (sample_entry 123 1700000000)).
  - simpl; lia.
  - right. lia.
Defined.

(** *** LMDB: what a call that returns 0 has done *)

Section LmdbFacts.
Context `{Collaborators}.

Lemma mdb_put_F_ok :
  forall txn v txn',
    mdb_put_F txn v = (txn', 0) ->
    txn' = {| meta_F := Some v; meta_R := meta_R txn;
              db_coin := db_coin txn; db_index := db_index txn;
              db_tip := db_tip txn |}.
Proof.
  intros txn v txn'. unfold mdb_put_F.
  destruct (Z.eqb_spec (mdb_rc (mdb_put DB_META info_key) txn) 0) as [E|E];
    simpl; intro P.
  - injection P as <-. reflexivity.
  - injection P as _ P'. contradiction.
Qed.

Lemma mdb_put_R_ok :
  forall txn v txn',
    mdb_put_R txn v = (txn', 0) ->
    txn' = {| meta_F := meta_F txn; meta_R := Some v;
              db_coin := db_coin txn; db_index := db_index txn;
              db_tip := db_tip txn |}.
Proof.
  intros txn v txn'. unfold mdb_put_R.
  destruct (Z.eqb_spec (mdb_rc (mdb_put DB_META tip_key) txn) 0) as [E|E];
    simpl; intro P.
  - injection P as <-. reflexivity.
  - injection P as _ P'. contradiction.
Qed.

Lemma mdb_put_index_ok :
  forall txn k v txn',
    mdb_put_index txn k v = (txn', 0) ->
    meta_F txn' = meta_F txn /\ meta_R txn' = meta_R txn
    /\ db_coin txn' = db_coin txn /\ db_tip txn' = db_tip txn.
Proof.
  intros txn k v txn'. unfold mdb_put_index.
  destruct (Z.eqb_spec (mdb_rc (mdb_put DB_INDEX k) txn) 0) as [E|E];
    simpl; intro P.
  - injection P as <-. repeat split.
  - injection P as _ P'. contradiction.
Qed.

Lemma mdb_put_tip_ok :
  forall txn k txn',
    mdb_put_tip txn k = (txn', 0) ->
    meta_F txn' = meta_F txn /\ meta_R txn' = meta_R txn
    /\ db_coin txn' = db_coin txn
    /\ db_tip txn' = k :: filter (fun h => negb (bytes_eqb h k)) (db_tip txn).
Proof.
  intros txn k txn'. unfold mdb_put_tip.
  destruct (Z.eqb_spec (mdb_rc (mdb_put DB_TIP k) txn) 0) as [E|E];
    simpl; intro P.
  - injection P as <-. repeat split.
  - injection P as _ P'. contradiction.
Qed.

Lemma mdb_del_tip_ok :
  forall txn k txn',
    mdb_del_tip txn k = (txn', 0) ->
    existsb (bytes_eqb k) (db_tip txn) = true
    /\ meta_F txn' = meta_F txn /\ meta_R txn' = meta_R txn
    /\ db_coin txn' = db_coin txn.
Proof.
  intros txn k txn'. unfold mdb_del_tip.
  destruct (Z.eqb_spec (mdb_rc (mdb_del DB_TIP k) txn) 0) as [E|E];
    simpl.
  - destruct (existsb (bytes_eqb k) (db_tip txn)); intro P.
    + injection P as <-. repeat split.
    + discriminate P.
  - intro P. injection P as _ P'. contradiction.
Qed.

(** Whatever [mdb_put] and [mdb_del] on the coin table return, the other
    tables are as they were. *)
Lemma mdb_put_coin_keeps :
  forall txn k v txn' rc,
    mdb_put_coin txn k v = (txn', rc) ->
    meta_F txn' = meta_F txn /\ meta_R txn' = meta_R txn
    /\ db_index txn' = db_index txn /\ db_tip txn' = db_tip txn.
Proof.
  intros txn k v txn' rc. unfold mdb_put_coin.
  destruct (negb (mdb_rc (mdb_put DB_COIN (coin_key k)) txn =? 0));
    intro P; injection P as <- _; repeat split.
Qed.

Lemma mdb_del_coin_keeps :
  forall txn k txn' rc,
    mdb_del_coin txn k = (txn', rc) ->
    meta_F txn' = meta_F txn /\ meta_R txn' = meta_R txn
    /\ db_index txn' = db_index txn /\ db_tip txn' = db_tip txn.
Proof.
  intros txn k txn' rc. unfold mdb_del_coin.
  destruct (negb (mdb_rc (mdb_del DB_COIN (coin_key k)) txn =? 0));
    [|destruct (coin_has (db_coin txn) k)];
    intro P; injection P as <- _; repeat split.
Qed.

End LmdbFacts.

(** *** Chain store: what the disconnect loop does in general *)

Section Disconnect.
Context `{Collaborators}.

Lemma coin_remove_other :
  forall (m : list (btc_outpoint_t * btc_coin_t)) p k,
    k <> p -> assoc_get (coin_remove m p) k = assoc_get m k.
Proof.
  induction m as [|[k' v] m IH]; intros p k Hk; simpl; [reflexivity|].
  destruct (btc_outpoint_equal k' p) eqn:Ep.
  - apply outpoint_equal_eq in Ep. subst k'.
    destruct (btc_outpoint_equal p k) eqn:Ek.
    + apply outpoint_equal_eq in Ek. congruence.
    + apply IH. exact Hk.
  - simpl. destruct (btc_outpoint_equal k' k); [reflexivity|].
    apply IH. exact Hk.
Qed.

Lemma view_put_other :
  forall view p c k,
    k <> p -> btc_view_get (btc_view_put view p c) k = btc_view_get view k.
Proof.
  intros view p c k Hk. unfold btc_view_get, btc_view_put. simpl.
  destruct (btc_outpoint_equal p k) eqn:E.
  - apply outpoint_equal_eq in E. congruence.
  - apply coin_remove_other. exact Hk.
Qed.

(** For a transaction [tx] that has an input at the block position [i]
    (so that [tx->inputs.items[i]] is read inside the vector), the input
    loop of [btc_chaindb_disconnect_block] changes the view at one
    outpoint only, [tx->inputs.items[i]->prevout]: no other input of
    [tx] gets its coin back. *)
Lemma disconnect_inputs_one_outpoint :
  forall n tx i view undo view' undo',
    (i < length (tx_inputs tx))%nat ->
    disconnect_inputs n tx i view undo = Ret (view', undo') ->
    forall k, k <> in_prevout (inp_at tx i) ->
      btc_view_get view' k = btc_view_get view k.
Proof.
  induction n as [|n IH]; intros tx i view undo view' undo' Hi; simpl.
  - intro E. injection E as <- <-. reflexivity.
  - destruct (nth_error (tx_inputs tx) i) as [input|] eqn:En; [|discriminate].
    assert (Ei : input = inp_at tx i).
    { unfold inp_at. symmetry. apply nth_error_nth. exact En. }
    subst input.
    destruct (btc_undo_pop undo) as [[coin undo1]|]; [|discriminate].
    intros E k Hk. rewrite (IH _ _ _ _ _ _ Hi E k Hk).
    apply view_put_other. exact Hk.
Qed.

(** When the disconnect returns a view, the tip is the previous entry
    and meta['R'] is the previous block's hash. *)
Lemma disconnect_moves_tip_back :
  forall db entry block view db',
    btc_chaindb_disconnect db entry block = Ret (Some view, db') ->
    tail db' = e_prev entry
    /\ meta_R (env db') = Some (prev_block (e_header entry))
    /\ heights db' = removelast (heights db).
Proof.
  intros db entry block view db'. unfold btc_chaindb_disconnect.
  destruct (negb (mdb_rc mdb_txn_begin (env db) =? 0)); [discriminate|].
  destruct (btc_chaindb_disconnect_block db (env db) entry block)
    as [[txn [v|]]|]; try discriminate.
  destruct (mdb_put_R txn (prev_block (e_header entry))) as [txn1 rc] eqn:EP.
  destruct (Z.eqb_spec rc 0) as [->|Hrc]; simpl; [|discriminate].
  apply mdb_put_R_ok in EP. subst txn1.
  match goal with
  | |- context [negb (mdb_rc mdb_txn_commit ?t =? 0)] =>
      destruct (negb (mdb_rc mdb_txn_commit t =? 0)); [discriminate|]
  end.
  simpl. destruct (e_prev entry) as [p|]; [|discriminate].
  destruct (rev (heights db)) as [|top below] eqn:Er; [discriminate|].
  destruct (bytes_eqb top (e_hash entry)); simpl; [|discriminate].
  intro E. injection E as _ <-. simpl.
  split; [reflexivity|]. split; [reflexivity|].
  assert (Eh : heights db = rev below ++ [top]).
  { rewrite <- (rev_involutive (heights db)), Er. reflexivity. }
  rewrite Eh. rewrite removelast_last. reflexivity.
Qed.

End Disconnect.

Lemma disconnect_inputs_one_outpoint_witness :
  btc_view_get {| view_map := [(coin_b, value_a)]; view_undo := [] |} coin_a
  = btc_view_get btc_view_create coin_a.
Proof.
  apply (disconnect_inputs_one_outpoint 2 spend_tx 1 btc_view_create
           [value_a; value_b] _ []).
  - simpl. lia.
  - vm_compute. reflexivity.
  - intro E. apply (f_equal op_index) in E. vm_compute in E. discriminate.
Defined.

Lemma disconnect_moves_tip_back_witness :
  tail db3' = e_prev entry2'_saved
  /\ meta_R (env db3') = Some (prev_block (e_header entry2'_saved))
  /\ heights db3' = removelast (heights db2').
Proof.
  apply (@disconnect_moves_tip_back sample db2' entry2'_saved block2'
           view3' db3').
  vm_compute. reflexivity.
Defined.

(** *** Chain store: disconnect after save *)

(** C1 on the sample chain.  [db1] holds two coins, at [coin_a] and
    [coin_b]; [block2] is a coinbase followed by a transaction that spends
    both.  Saving [block2] succeeds and writes the undo log
    [value_a; value_b].  In [btc_chaindb_disconnect_block] the input loop
    of the spending transaction (position 1 in the block) reads
    [tx->inputs.items[1]] on both turns, so both popped coins go to
    [coin_b] and none to [coin_a]; the loop then runs on the coinbase and
    pops the log once more, now empty.  The disconnect does not complete
    and the coin table stays as the save left it, without [coin_a] and
    [coin_b]. *)
Theorem disconnect_after_save_does_not_restore :
  (exists v, save2 = Ret (1, db2, entry2_saved, v))
  /\ assoc_get (coin_table db1) coin_a = Some value_a
  /\ assoc_get (coin_table db1) coin_b = Some value_b
  /\ assoc_get (coin_table db2) coin_a = None
  /\ assoc_get (coin_table db2) coin_b = None
  /\ @btc_chaindb_read_undo db2 entry2_saved = Some [value_a; value_b]
  /\ @disconnect_inputs 2 spend_tx 1 btc_view_create [value_a; value_b]
     = Ret ({| view_map := [(coin_b, value_a)]; view_undo := [] |}, [])
  /\ @btc_chaindb_disconnect sample db2 entry2_saved block2 = Aborted.
Proof.
  split; [eexists; vm_compute; reflexivity|].
  repeat split; vm_compute; reflexivity.
Qed.

(** The same spend in a block without a coinbase, so that the disconnect
    completes: the tip and meta['R'] go back to the previous entry, the
    block's output is deleted, but both popped coins went to
    [tx->inputs.items[0]]: [coin_a] is back and [coin_b] is not. *)
Lemma disconnect_puts_coins_at_block_position :
  exists view db3,
    (exists v, save2' = Ret (1, db2', entry2'_saved, v))
    /\ @btc_chaindb_disconnect sample db2' entry2'_saved block2'
       = Ret (Some view, db3)
    /\ tail db3 = e_prev entry2'
    /\ meta_R (env db3) = Some (e_hash entry1)
    /\ assoc_get (coin_table db3) coin_a = Some value_a
    /\ assoc_get (coin_table db1) coin_b = Some value_b
    /\ assoc_get (coin_table db3) coin_b = None.
Proof.
  do 2 eexists.
  split; [eexists; vm_compute; reflexivity|].
  split; [vm_compute; reflexivity|].
  repeat split; vm_compute; reflexivity.
Qed.

(* ================================================================== *)
(** * Part II, continued: the rest of the three files *)
(* ================================================================== *)

(** ** More of [src/tx.c] *)

(** *** Transaction ids and witnesses *)

Section TxIds.
Context `{Collaborators}.

Lemma input_write_ignores_witness :
  forall zp i, btc_input_write zp (set_witness i []) = btc_input_write zp i.
Proof. intros zp [o s w q]. reflexivity. Qed.

Lemma inpvec_write_ignores_witness :
  forall zp v,
    btc_inpvec_write zp (map (fun i => set_witness i []) v)
    = btc_inpvec_write zp v.
Proof.
  intros zp v. unfold btc_inpvec_write. rewrite length_map.
  generalize (btc_size_write zp (Z.of_nat (length v))).
  induction v as [|i v IH]; intro z; simpl; [reflexivity|].
  rewrite input_write_ignores_witness. apply IH.
Qed.

(** The txid does not depend on any witness stack, and a transaction
    without witness has its txid for wtxid. *)
Theorem txid_ignores_witness :
  forall tx tx',
    same_but_witness tx tx' ->
    btc_tx_txid tx' = btc_tx_txid tx
    /\ (btc_tx_has_witness tx = false -> btc_tx_wtxid tx = btc_tx_txid tx').
Proof.
  intros tx tx' (Ev & El & Eo & Ei).
  assert (E : btc_tx_txid tx' = btc_tx_txid tx).
  { unfold btc_tx_txid, btc_tx_digest, btc_inpvec_update.
    rewrite Ev, El, Eo.
    rewrite <- (inpvec_write_ignores_witness _ (tx_inputs tx')), Ei.
    rewrite inpvec_write_ignores_witness. reflexivity. }
  split; [exact E|].
  intro Hw. rewrite E. unfold btc_tx_wtxid, btc_tx_txid, btc_tx_digest.
  rewrite Hw. reflexivity.
Qed.

End TxIds.

Lemma txid_ignores_witness_witness :
  @btc_tx_txid sample sample_witness_tx
  = @btc_tx_txid sample
      {| tx_version := 2;
         tx_inputs := [set_witness (inp_at sample_witness_tx 0) [];
                       sample_input x0b 1];
         tx_outputs := tx_outputs sample_witness_tx;
         tx_locktime := 500000 |}.
Proof.
  exact (proj1 (@txid_ignores_witness sample _ sample_witness_tx
                  (conj eq_refl (conj eq_refl (conj eq_refl eq_refl))))).
Defined.

(** *** What a sighash type leaves unsigned *)

Section SighashScope.
Context `{Collaborators}.

(** With ANYONECANPAY the sighash, legacy or segwit, is the same for any
    two transactions that agree on version, locktime, outputs and the
    input being signed: the other inputs are not covered. *)
Theorem sighash_anyonecanpay_ignores_other_inputs :
  forall tx tx' index prev value type version,
    same_at_input tx tx' index ->
    Z.land type BTC_SIGHASH_ANYONECANPAY <> 0 ->
    btc_tx_sighash tx' index prev value type version None
    = btc_tx_sighash tx index prev value type version None.
Proof.
  intros tx tx' index prev value type version (Ev & El & Eo & Ei) Ha.
  apply Z.eqb_neq in Ha.
  unfold btc_tx_sighash, btc_tx_sighash_v0, btc_tx_sighash_v1, cached, out_at,
    hash_outputs.
  rewrite Ev, El, Eo, Ei, Ha. reflexivity.
Qed.

(** With type NONE the sighash, legacy or segwit, is the same for any
    two transactions that differ only in their outputs: no output is
    covered. *)
Theorem sighash_none_ignores_outputs :
  forall tx tx' index prev value type version,
    same_but_outputs tx tx' ->
    Z.land type 0x1f = BTC_SIGHASH_NONE ->
    BTC_SIGHASH_NONE <> BTC_SIGHASH_SINGLE ->
    btc_tx_sighash tx' index prev value type version None
    = btc_tx_sighash tx index prev value type version None.
Proof.
  intros tx tx' index prev value type version (Ev & El & Ei) Hn Hns.
  unfold btc_tx_sighash, btc_tx_sighash_v0, btc_tx_sighash_v1, cached,
    hash_prevouts, hash_sequences, inp_at.
  rewrite Ev, El, Ei, Hn.
  apply Z.eqb_neq in Hns. rewrite Hns, Z.eqb_refl. simpl.
  reflexivity.
Qed.

End SighashScope.

Lemma sighash_anyonecanpay_ignores_other_inputs_witness :
  @btc_tx_sighash sample sample_tx_other_input 1 [xab] 5000 0x81 1 None
  = @btc_tx_sighash sample sample_tx 1 [xab] 5000 0x81 1 None.
Proof.
  apply (@sighash_anyonecanpay_ignores_other_inputs sample).
  - repeat split.
  - simpl. discriminate.
Defined.

Lemma sighash_none_ignores_outputs_witness :
  @btc_tx_sighash sample sample_tx_other_output 0 [xab] 5000 2 0 None
  = @btc_tx_sighash sample sample_tx 0 [xab] 5000 2 0 None.
Proof.
  apply (@sighash_none_ignores_outputs sample).
  - repeat split.
  - reflexivity.
  - simpl. discriminate.
Defined.

(** *** Sizes *)

Section Sizes.
Context `{Collaborators}.

Lemma fold_sum :
  forall (A : Type) (f : A -> Z) (l : list A) (a : Z),
    fold_left (fun s x => s + f x) l a
    = a + fold_right (fun x s => f x + s) 0 l.
Proof.
  intros A f l. induction l as [|x l IH]; intro a; simpl; [lia|].
  rewrite IH. lia.
Qed.

Lemma concat_length_sum :
  forall (A : Type) (enc : A -> bytes) (l : list A),
    Z.of_nat (length (concat (map enc l)))
    = fold_right (fun x s => Z.of_nat (length (enc x)) + s) 0 l.
Proof.
  intros A enc l. induction l as [|x l IH]; simpl; [reflexivity|].
  rewrite length_app, Nat2Z.inj_add, IH. reflexivity.
Qed.

(** [btc_tx_size] is the number of bytes [btc_tx_write] emits, and
    [btc_tx_base_size] is that number for a transaction without witness. *)
Theorem tx_size_is_written_length :
  forall tx,
    btc_tx_size tx = Z.of_nat (length (btc_tx_write [] tx))
    /\ (btc_tx_has_witness tx = false -> btc_tx_base_size tx = btc_tx_size tx)
    /\ btc_tx_base_size tx <= btc_tx_size tx.
Proof.
  intro tx.
  assert (Hw : 0 <= btc_tx_witness_size tx
               /\ btc_tx_size tx = Z.of_nat (length (btc_tx_write [] tx))).
  { unfold btc_tx_size, btc_tx_witness_size, btc_tx_base_size,
      btc_inpvec_size, btc_outvec_size.
    rewrite tx_write_layout.
    destruct (btc_tx_has_witness tx).
    - rewrite tx_write_marked_layout.
      rewrite (fold_sum _ (fun i => btc_stack_size (in_witness i))).
      repeat (rewrite length_app || cbn [length]).
      rewrite !le_bytes_length.
      pose proof (concat_length_sum _
                    (fun i => btc_stack_write [] (in_witness i))
                    (tx_inputs tx)) as Hc.
      unfold btc_stack_size.
      assert (Hpos : 0 <= fold_right
                (fun x s => Z.of_nat (length (btc_stack_write [] (in_witness x))) + s)
                0 (tx_inputs tx)) by (rewrite <- Hc; lia).
      split; [lia|]. lia.
    - repeat rewrite length_app. rewrite !le_bytes_length.
      split; [lia|]. lia. }
  destruct Hw as [Hpos Hsize].
  split; [exact Hsize|]. split.
  - intro Hno. unfold btc_tx_size, btc_tx_witness_size. rewrite Hno. lia.
  - unfold btc_tx_size. lia.
Qed.

End Sizes.

(** *** Lock time *)

Section LockTime.
Context `{Params}.

(** A transaction that is final at a height and time is final at every
    later height and time. *)
Theorem is_final_monotone :
  forall tx height time height' time',
    btc_tx_is_final tx height time = true ->
    height <= height' -> time <= time' ->
    btc_tx_is_final tx height' time' = true.
Proof.
  intros tx h t h' t' Hf Hh Ht. unfold btc_tx_is_final in *.
  destruct (tx_locktime tx =? 0); [reflexivity|].
  destruct (tx_locktime tx <? BTC_LOCKTIME_THRESHOLD).
  - destruct (Z.ltb_spec (tx_locktime tx) h) as [A|A].
    + destruct (Z.ltb_spec (tx_locktime tx) h'); [reflexivity|lia].
    + destruct (tx_locktime tx <? h'); [reflexivity|exact Hf].
  - destruct (Z.ltb_spec (tx_locktime tx) t) as [A|A].
    + destruct (Z.ltb_spec (tx_locktime tx) t'); [reflexivity|lia].
    + destruct (tx_locktime tx <? t'); [reflexivity|exact Hf].
Qed.

(** When input [index] passes [btc_tx_verify_locktime] for a predicate
    and the transaction is final at a height and time, the predicate is
    0 or lies below the height (a block-height predicate) or below the
    time (a time predicate): the lock cannot be spent early. *)
Theorem verify_locktime_holds_until :
  forall tx index predicate height time,
    0 <= predicate ->
    (index < length (tx_inputs tx))%nat ->
    btc_tx_verify_locktime tx index predicate = true ->
    btc_tx_is_final tx height time = true ->
    predicate = 0
    \/ predicate < (if predicate <? BTC_LOCKTIME_THRESHOLD
                    then height else time).
Proof.
  intros tx index p h t Hp Hi Hv Hf.
  unfold btc_tx_verify_locktime in Hv. unfold btc_tx_is_final in Hf.
  destruct (Bool.eqb (tx_locktime tx <? BTC_LOCKTIME_THRESHOLD)
                     (p <? BTC_LOCKTIME_THRESHOLD)) eqn:Et;
    simpl in Hv; [|discriminate].
  apply Bool.eqb_prop in Et.
  destruct (Z.gtb_spec p (tx_locktime tx)) as [Hgt|Hle]; [discriminate|].
  destruct (Z.eqb_spec (in_sequence (inp_at tx index)) 4294967295)
    as [Hs|Hs]; [discriminate|].
  destruct (Z.eqb_spec (tx_locktime tx) 0) as [H0|H0]; [left; lia|].
  right. rewrite <- Et.
  destruct (Z.ltb_spec (tx_locktime tx)
              (if tx_locktime tx <? BTC_LOCKTIME_THRESHOLD then h else t))
    as [A|A]; [lia|].
  exfalso.
  assert (Hex : existsb (fun i => negb (in_sequence i =? 4294967295))
                        (tx_inputs tx) = true).
  { apply existsb_exists. exists (inp_at tx index). split.
    - unfold inp_at. apply nth_In. exact Hi.
    - apply negb_true_iff. apply Z.eqb_neq. exact Hs. }
  rewrite Hex in Hf. discriminate.
Qed.

End LockTime.

Lemma is_final_monotone_witness :
  @btc_tx_is_final sample_params sample_locked_tx 800000 1700000000 = true.
Proof.
  apply (@is_final_monotone sample_params sample_locked_tx
           700001 1600000000 800000 1700000000).
  - reflexivity.
  - lia.
  - lia.
Defined.

Lemma verify_locktime_holds_until_witness :
  650000 = 0
  \/ 650000 < (if 650000 <? @BTC_LOCKTIME_THRESHOLD sample_params
               then 700001 else 1600000000).
Proof.
  apply (@verify_locktime_holds_until sample_params sample_locked_tx 0%nat
           650000 700001 1600000000).
  - lia.
  - simpl. lia.
  - reflexivity.
  - reflexivity.
Defined.
(** *** Checking a transaction's inputs *)

Section CheckInputs.
Context `{Collaborators}.

Lemma i64_range : forall x, - 2 ^ 63 <= i64 x < 2 ^ 63.
Proof.
  intro x. unfold i64, sint. change (64 - 1) with 63.
  pose proof (Z.mod_pos_bound x (2 ^ 64) ltac:(lia)) as Hb.
  change (2 ^ 64) with (2 * 2 ^ 63) in *.
  destruct (Z.ltb_spec (x mod (2 * 2 ^ 63)) (2 ^ 63)); lia.
Qed.

Lemma i64_high : forall x, 2 ^ 63 <= x < 2 ^ 64 -> i64 x = x - 2 ^ 64.
Proof.
  intros x Hx. unfold i64, sint. change (64 - 1) with 63.
  rewrite Z.mod_small by lia.
  destruct (Z.ltb_spec x (2 ^ 63)); lia.
Qed.

Lemma output_value_range :
  forall tx, - 2 ^ 63 <= btc_tx_output_value tx < 2 ^ 63.
Proof.
  intro tx. unfold btc_tx_output_value.
  assert (G : forall outs t, - 2 ^ 63 <= t < 2 ^ 63 ->
            - 2 ^ 63 <= fold_left (fun total o => i64 (total + out_value o))
                          outs t < 2 ^ 63).
  { induction outs as [|o outs IH]; intros t Ht; simpl; [exact Ht|].
    apply IH. apply i64_range. }
  apply G. lia.
Qed.

Lemma output_value_after_sanity :
  forall outs total,
    0 <= total <= BTC_MAX_MONEY ->
    sanity_outputs outs total = None ->
    0 <= fold_left (fun t o => i64 (t + out_value o)) outs total
      <= BTC_MAX_MONEY.
Proof.
  induction outs as [|o outs IH]; intros total Ht; simpl; [intros _; exact Ht|].
  destruct (out_value o <? 0); [discriminate|].
  destruct (out_value o >? BTC_MAX_MONEY); [discriminate|].
  destruct (Z.ltb_spec (i64 (total + out_value o)) 0) as [A|A];
    [discriminate|].
  destruct (Z.gtb_spec (i64 (total + out_value o)) BTC_MAX_MONEY) as [B|B];
    [discriminate|].
  simpl. apply IH. lia.
Qed.

Lemma check_inputs_from_total :
  forall ins view height total total',
    0 <= total <= BTC_MAX_MONEY ->
    check_inputs_from ins view height total = Ret (inr total') ->
    input_value_from ins view total = total'
    /\ 0 <= total' <= BTC_MAX_MONEY
    /\ Forall (fun input =>
         exists coin,
           btc_view_get view (in_prevout input) = Some coin
           /\ 0 <= out_value (coin_output coin) <= BTC_MAX_MONEY
           /\ (coin_coinbase coin = true ->
               coin_height coin <= height
               /\ BTC_COINBASE_MATURITY <= u32 (height - coin_height coin)))
         ins.
Proof.
  induction ins as [|input ins IH]; intros view height total total' Ht; simpl.
  - intro E. injection E as <-. repeat split; auto; lia.
  - destruct (btc_view_get view (in_prevout input)) as [coin|] eqn:G;
      [|discriminate].
    destruct (coin_coinbase coin && negb (height >=? coin_height coin))
      eqn:C1; [discriminate|].
    destruct (coin_coinbase coin
              && (u32 (height - coin_height coin) <? BTC_COINBASE_MATURITY))
      eqn:C2; [discriminate|].
    destruct (Z.ltb_spec (out_value (coin_output coin)) 0) as [V1|V1];
      [discriminate|].
    destruct (Z.gtb_spec (out_value (coin_output coin)) BTC_MAX_MONEY)
      as [V2|V2]; [discriminate|].
    simpl.
    destruct (Z.ltb_spec (i64 (total + out_value (coin_output coin))) 0)
      as [T1|T1]; [discriminate|].
    destruct (Z.gtb_spec (i64 (total + out_value (coin_output coin)))
                BTC_MAX_MONEY) as [T2|T2]; [discriminate|].
    simpl. intro E.
    assert (Hn : 0 <= i64 (total + out_value (coin_output coin))
                 <= BTC_MAX_MONEY) by lia.
    destruct (IH view height _ total' Hn E) as (Ev & Er & Ef).
    split; [exact Ev|]. split; [exact Er|].
    constructor; [|exact Ef].
    exists coin. split; [exact G|]. split; [lia|].
    intro Cb. rewrite Cb in C1, C2. simpl in C1, C2.
    apply negb_false_iff in C1. apply Z.geb_le in C1.
    apply Z.ltb_ge in C2. lia.
Qed.

(** When [btc_check_inputs] accepts, [err] is left as it was, every
    input has a coin in the view with a value in [0, MAX_MONEY], every
    coinbase coin is at least COINBASE_MATURITY blocks deep, and the fee
    [btc_tx_fee] computes is inputs minus outputs, within [0, MAX_MONEY]. *)
Theorem check_inputs_accepts :
  forall err tx view height e',
    btc_check_inputs err tx view height = Ret (1, e') ->
    e' = err
    /\ (forall input, In input (tx_inputs tx) ->
          exists coin,
            btc_view_get view (in_prevout input) = Some coin
            /\ 0 <= out_value (coin_output coin) <= BTC_MAX_MONEY
            /\ (coin_coinbase coin = true ->
                coin_height coin <= height
                /\ BTC_COINBASE_MATURITY <= u32 (height - coin_height coin)))
    /\ 0 <= btc_tx_input_value tx view <= BTC_MAX_MONEY
    /\ btc_tx_fee tx view = btc_tx_input_value tx view - btc_tx_output_value tx
    /\ 0 <= btc_tx_fee tx view <= BTC_MAX_MONEY.
Proof.
  intros err tx view height e'. pose proof max_money_pos as Hp.
  pose proof max_money_small as Hm.
  unfold btc_check_inputs, btc_tx_fee, btc_tx_input_value.
  destruct (check_inputs_from (tx_inputs tx) view height 0)
    as [[[m s]|total]|] eqn:E; [unfold THROW; discriminate| |discriminate].
  assert (H0 : 0 <= 0 <= BTC_MAX_MONEY) by lia.
  destruct (check_inputs_from_total _ _ _ _ _ H0 E) as (Ev & Er & Ef).
  rewrite Ev.
  destruct (Z.ltb_spec total (btc_tx_output_value tx)) as [A|A];
    [unfold THROW; discriminate|].
  destruct (Z.ltb_spec (i64 (total - btc_tx_output_value tx)) 0) as [B|B];
    [unfold THROW; discriminate|].
  destruct (Z.gtb_spec (i64 (total - btc_tx_output_value tx)) BTC_MAX_MONEY)
    as [C|C]; [unfold THROW; discriminate|].
  intro R. injection R as <-.
  assert (Hfee : i64 (total - btc_tx_output_value tx)
                 = total - btc_tx_output_value tx).
  { pose proof (output_value_range tx) as Hv.
    destruct (Z.lt_ge_cases (total - btc_tx_output_value tx) (2 ^ 63))
      as [S|S]; [apply i64_small; lia|].
    rewrite i64_high in B by lia. lia. }
  split; [reflexivity|]. split.
  - rewrite Forall_forall in Ef. exact Ef.
  - destruct (Z.ltb_spec total 0); [lia|].
    rewrite Hfee in *. repeat split; lia.
Qed.

(** On a transaction that passed [btc_tx_check_sanity], the two fee
    checks at the end of [btc_check_inputs] never fire: the call accepts
    or makes one of the four other complaints. *)
Theorem check_inputs_after_sanity :
  forall e tx view height r e',
    btc_tx_check_sanity (Some e) tx = (1, Some e) ->
    btc_check_inputs (Some e) tx view height = Ret (r, e') ->
    (r = 1 /\ e' = Some e)
    \/ (r = 0
        /\ exists m s,
             e' = Some {| msg := m; score := s |}
             /\ In (m, s)
                  [("bad-txns-inputs-missingorspent"%string, 0);
                   ("bad-txns-premature-spend-of-coinbase"%string, 0);
                   ("bad-txns-inputvalues-outofrange"%string, 100);
                   ("bad-txns-in-belowout"%string, 100)]).
Proof.
  intros e tx view height r e' Hs. pose proof max_money_pos as Hp.
  pose proof max_money_small as Hm.
  assert (Hv : 0 <= btc_tx_output_value tx <= BTC_MAX_MONEY).
  { unfold btc_tx_output_value. apply output_value_after_sanity; [lia|].
    unfold btc_tx_check_sanity, THROW in Hs.
    destruct (length (tx_inputs tx) =? 0)%nat; [discriminate|].
    destruct (length (tx_outputs tx) =? 0)%nat; [discriminate|].
    destruct (btc_tx_base_size tx >? BTC_MAX_BLOCK_SIZE); [discriminate|].
    destruct (sanity_outputs (tx_outputs tx) 0) as [[m s]|];
      [discriminate|reflexivity]. }
  unfold btc_check_inputs.
  destruct (check_inputs_from (tx_inputs tx) view height 0)
    as [[[m s]|total]|] eqn:E; [| |discriminate].
  - (* a complaint of the input loop *)
    unfold THROW. intro R. injection R as <- <-. right.
    split; [reflexivity|]. exists m, s. split; [reflexivity|].
    clear Hs Hv. revert E. generalize 0 at 1.
    induction (tx_inputs tx) as [|input ins IH]; intro t; simpl;
      [discriminate|].
    destruct (btc_view_get view (in_prevout input)) as [coin|].
    + destruct (coin_coinbase coin && negb (height >=? coin_height coin));
        [discriminate|].
      destruct (coin_coinbase coin
                && (u32 (height - coin_height coin) <? BTC_COINBASE_MATURITY)).
      { intro R. injection R as <- <-. simpl. auto. }
      destruct ((out_value (coin_output coin) <? 0)
                || (out_value (coin_output coin) >? BTC_MAX_MONEY)).
      { intro R. injection R as <- <-. simpl. auto. }
      destruct ((i64 (t + out_value (coin_output coin)) <? 0)
                || (i64 (t + out_value (coin_output coin)) >? BTC_MAX_MONEY)).
      { intro R. injection R as <- <-. simpl. auto. }
      apply IH.
    + intro R. injection R as <- <-. simpl. auto.
  - assert (H0 : 0 <= 0 <= BTC_MAX_MONEY) by lia.
    destruct (check_inputs_from_total _ _ _ _ _ H0 E) as (_ & Er & _).
    destruct (Z.ltb_spec total (btc_tx_output_value tx)) as [A|A].
    { unfold THROW. intro R. injection R as <- <-. right.
      split; [reflexivity|]. do 2 eexists. split; [reflexivity|].
      simpl. auto. }
    rewrite i64_small by lia.
    destruct (Z.ltb_spec (total - btc_tx_output_value tx) 0); [lia|].
    destruct (Z.gtb_spec (total - btc_tx_output_value tx) BTC_MAX_MONEY);
      [lia|].
    intro R. injection R as <- <-. left. split; reflexivity.
Qed.

End CheckInputs.

Lemma check_inputs_accepts_witness :
  0 <= @btc_tx_fee spend_tx sample_view <= BTC_MAX_MONEY.
Proof.
  pose proof (@check_inputs_accepts (Some sample_error) spend_tx sample_view
                101 (Some sample_error) eq_refl) as (_ & _ & _ & _ & B).
  exact B.
Defined.

Lemma check_inputs_after_sanity_witness :
  (0 = 1 /\ Some {| msg := "bad-txns-premature-spend-of-coinbase";
                    score := 0 |} = Some sample_error)
  \/ (0 = 0
      /\ exists m s,
           Some {| msg := "bad-txns-premature-spend-of-coinbase";
                   score := 0 |} = Some {| msg := m; score := s |}
           /\ In (m, s)
                [("bad-txns-inputs-missingorspent"%string, 0);
                 ("bad-txns-premature-spend-of-coinbase"%string, 0);
                 ("bad-txns-inputvalues-outofrange"%string, 100);
                 ("bad-txns-in-belowout"%string, 100)]).
Proof.
  apply (@check_inputs_after_sanity sample sample_error spend_tx sample_view 50).
  - vm_compute. reflexivity.
  - vm_compute. reflexivity.
Defined.

(** *** Weight and virtual size *)

Section Weight.
Context `{Collaborators}.

Lemma witness_size_nonneg : forall tx, 0 <= btc_tx_witness_size tx.
Proof.
  intro tx. unfold btc_tx_witness_size.
  destruct (btc_tx_has_witness tx); [|lia].
  assert (G : forall ins a, 0 <= a ->
            0 <= fold_left (fun size i => size + btc_stack_size (in_witness i))
                   ins a).
  { induction ins as [|i ins IH]; intros a Ha; simpl; [exact Ha|].
    apply IH. unfold btc_stack_size. lia. }
  apply G. lia.
Qed.

(** The virtual size lies between the base size and the full size, it is
    the full size of a transaction without witness, and the weight is
    three times the base size plus the full size. *)
Theorem virtual_size_bounds :
  forall tx,
    btc_tx_base_size tx <= btc_tx_virtual_size tx <= btc_tx_size tx
    /\ (btc_tx_has_witness tx = false ->
        btc_tx_virtual_size tx = btc_tx_size tx)
    /\ btc_tx_weight tx = 3 * btc_tx_base_size tx + btc_tx_size tx.
Proof.
  intro tx. pose proof (witness_size_nonneg tx) as Hw.
  unfold btc_tx_virtual_size, btc_tx_weight, btc_tx_size,
    BTC_WITNESS_SCALE_FACTOR.
  split; [split|split].
  - apply Z.div_le_lower_bound; lia.
  - apply Z.lt_succ_r. apply Z.div_lt_upper_bound; lia.
  - intro Hn. unfold btc_tx_witness_size. rewrite Hn.
    replace (btc_tx_base_size tx * 4 + 0 + 4 - 1)
      with (3 + btc_tx_base_size tx * 4) by lia.
    rewrite Z.div_add by lia. change (3 / 4) with 0. lia.
  - lia.
Qed.

End Weight.

(** ** More of [src/bip152.c] *)

(** *** The GetBlockTxn codec *)

Section GetBlockTxn.
Context `{Collaborators} `{Params}.

Lemma u64_small : forall x, 0 <= x < 2 ^ 64 -> u64 x = x.
Proof. intros x Hx. unfold u64. apply Z.mod_small. exact Hx. Qed.

Lemma le_value_nonneg : forall bs, 0 <= le_value bs.
Proof.
  induction bs as [|b bs IH]; cbn [le_value]; [lia|].
  pose proof (Z_of_byte_range b). lia.
Qed.

Lemma read_le_nonneg :
  forall n xp v rest, read_le n xp = Some (v, rest) -> 0 <= v.
Proof.
  intros n xp v rest. unfold read_le.
  destruct (n <=? length xp)%nat; [|discriminate].
  intro E. injection E as <- _. apply le_value_nonneg.
Qed.

Lemma size_read_nonneg :
  forall xp v rest, btc_size_read xp = Some (v, rest) -> 0 <= v.
Proof.
  intros xp v rest. unfold btc_size_read, btc_uint8_read, btc_uint16_read,
    btc_uint32_read, btc_uint64_read.
  destruct (read_le 1 xp) as [[t r]|] eqn:E; [|discriminate].
  destruct (t =? 255); [apply read_le_nonneg|].
  destruct (t =? 254); [apply read_le_nonneg|].
  destruct (t =? 253); [apply read_le_nonneg|].
  intro R. injection R as <- _. eapply read_le_nonneg. exact E.
Qed.

Lemma indexes_write_deltas :
  forall l zp prev offset,
    offset = match prev with None => 0 | Some p => p + 1 end ->
    0 <= offset <= 0x10000 ->
    ascending_from offset l ->
    indexes_write zp prev l
    = zp ++ concat (map (btc_size_write []) (deltas offset l))
    /\ Forall (fun d => 0 <= d <= 0xffff) (deltas offset l).
Proof.
  induction l as [|x l IH]; intros zp prev offset Ho Hr Ha; simpl.
  - split; [now rewrite app_nil_r|constructor].
  - destruct Ha as [Hx Ha].
    assert (Hd : match prev with
                 | None => x
                 | Some p => u64 (x - u64 (p + 1))
                 end = x - offset).
    { destruct prev as [p|]; subst offset; [|lia].
      rewrite (u64_small (p + 1)) by lia. apply u64_small. lia. }
    rewrite Hd.
    destruct (IH (btc_size_write zp (x - offset)) (Some x) (x + 1)
                 eq_refl ltac:(lia) Ha) as [E F].
    rewrite E. split.
    + rewrite (size_write_app zp). now rewrite <- app_assoc.
    + constructor; [lia|exact F].
Qed.

Lemma absolute_from_deltas :
  forall l offset,
    0 <= offset <= 0x10000 ->
    ascending_from offset l ->
    absolute_from (deltas offset l) offset = Some l.
Proof.
  induction l as [|x l IH]; intros offset Hr Ha; simpl; [reflexivity|].
  destruct Ha as [Hx Ha].
  replace (x - offset + offset) with x by lia.
  rewrite (u64_small x) by lia.
  destruct (Z.gtb_spec x 65535) as [G|G]; [lia|].
  rewrite (u64_small (x + 1)) by lia.
  rewrite IH by (assumption || lia). reflexivity.
Qed.

Lemma index_read_written :
  forall d rest,
    0 <= d <= 0xffff ->
    index_read (btc_size_write [] d ++ rest) = Some (d, rest).
Proof.
  intros d rest Hd. unfold index_read.
  rewrite size_read_write by lia.
  destruct (Z.gtb_spec d 65535); [lia|reflexivity].
Qed.

Lemma deltas_length : forall l offset, length (deltas offset l) = length l.
Proof. induction l as [|x l IH]; intro o; simpl; [|rewrite IH]; reflexivity. Qed.

Lemma ascending_length :
  forall l lo, lo <= 0x10000 -> ascending_from lo l ->
    lo + Z.of_nat (length l) <= 0x10000.
Proof.
  induction l as [|x l IH]; intros lo Hl Ha; cbn [length].
  - lia.
  - destruct Ha as [Hx Ha].
    assert (Hx1 : x + 1 <= 0x10000) by lia.
    specialize (IH (x + 1) Hx1 Ha). lia.
Qed.

(** Decoding what [btc_getblocktxn_write] produced gives the request
    back, when its hash has 32 bytes and its indexes ascend strictly and
    none is above 0xffff. *)
Theorem getblocktxn_read_write :
  forall z x rest,
    indexes z = [] ->
    length (gb_hash x) = 32%nat ->
    ascending_from 0 (indexes x) ->
    btc_getblocktxn_read z (btc_getblocktxn_write [] x ++ rest)
    = Ret (Some (x, rest)).
Proof.
  intros z [hash l] rest Hz Hh Ha. simpl in *.
  assert (Hraw : btc_raw_write [] hash 32 = hash).
  { unfold btc_raw_write. rewrite <- Hh, firstn_all. reflexivity. }
  unfold btc_getblocktxn_read, btc_getblocktxn_write. rewrite Hz.
  cbn [length Nat.eqb negb gb_hash indexes].
  destruct (indexes_write_deltas l
              (btc_size_write (btc_raw_write [] hash 32)
                 (Z.of_nat (length l))) None 0 eq_refl ltac:(lia) Ha)
    as [E F].
  rewrite E, Hraw, size_write_app, <- !app_assoc.
  rewrite <- Hh at 1. rewrite raw_read_exact.
  assert (Hlen : Z.of_nat (length l) < 2 ^ 64).
  { pose proof (ascending_length l 0 ltac:(lia) Ha). lia. }
  rewrite size_read_write by lia.
  rewrite Nat2Z.id, <- (deltas_length l 0).
  rewrite (read_items_written Z index_read (btc_size_write [])
             (fun d => d) (fun d => 0 <= d <= 0xffff) index_read_written
             _ rest F).
  rewrite map_id, absolute_from_deltas by (assumption || lia).
  reflexivity.
Qed.

Lemma read_indexes_range :
  forall n xp l rest,
    read_items index_read n xp = Some (l, rest) ->
    Forall (fun d => 0 <= d <= 0xffff) l.
Proof.
  induction n as [|n IH]; intros xp l rest; simpl.
  - intro E. injection E as <- _. constructor.
  - unfold index_read at 1.
    destruct (btc_size_read xp) as [[d r]|] eqn:S; [|discriminate].
    destruct (Z.gtb_spec d 65535) as [G|G]; [discriminate|].
    destruct (read_items index_read n r) as [[l' r']|] eqn:R; [|discriminate].
    intro E. injection E as <- _.
    constructor; [|eapply IH; exact R].
    apply size_read_nonneg in S. lia.
Qed.

Lemma absolute_from_ascending :
  forall l offset l',
    0 <= offset <= 0x10000 ->
    Forall (fun d => 0 <= d <= 0xffff) l ->
    absolute_from l offset = Some l' ->
    ascending_from offset l'.
Proof.
  induction l as [|d l IH]; intros offset l' Ho F; simpl.
  - intro E. injection E as <-. exact I.
  - inversion F as [|? ? Hd F']; subst.
    rewrite (u64_small (d + offset)) by lia.
    destruct (Z.gtb_spec (d + offset) 65535) as [G|G]; [discriminate|].
    rewrite (u64_small (d + offset + 1)) by lia.
    destruct (absolute_from l (d + offset + 1)) as [l2|] eqn:A;
      [|discriminate].
    intro E. injection E as <-. simpl. split; [lia|].
    apply (IH (d + offset + 1)); [lia|exact F'|exact A].
Qed.

(** Whatever the bytes, a request [btc_getblocktxn_read] accepts has a
    32-byte hash and strictly ascending indexes, none above 0xffff. *)
Theorem getblocktxn_read_ascending :
  forall z xp x rest,
    btc_getblocktxn_read z xp = Ret (Some (x, rest)) ->
    length (gb_hash x) = 32%nat /\ ascending_from 0 (indexes x).
Proof.
  intros z xp x rest. unfold btc_getblocktxn_read.
  destruct (negb (length (indexes z) =? 0)%nat); [discriminate|].
  unfold btc_raw_read.
  destruct (Nat.leb_spec 32 (length xp)) as [L|L]; [|discriminate].
  assert (Hh : length (firstn 32 xp) = 32%nat)
    by (rewrite length_firstn; lia).
  revert Hh. generalize (firstn 32 xp) as h. intros h Hh.
  destruct (btc_size_read (skipn 32 xp)) as [[n r]|]; [|discriminate].
  destruct (read_items index_read (Z.to_nat n) r) as [[l r']|] eqn:R;
    [|discriminate].
  destruct (absolute_from l 0) as [l'|] eqn:A; [|discriminate].
  intro E. injection E as <- _. cbn [gb_hash indexes]. split.
  - exact Hh.
  - apply (absolute_from_ascending l 0 l'); [lia| |exact A].
    eapply read_indexes_range. exact R.
Qed.

Lemma missing_from_app :
  forall a i acc, missing_from a i acc = acc ++ missing_from a i [].
Proof.
  induction a as [|[t|] a IH]; intros i acc; simpl.
  - now rewrite app_nil_r.
  - apply IH.
  - rewrite IH, (IH _ [Z.of_nat i]). now rewrite <- app_assoc.
Qed.

Lemma missing_from_length :
  forall a i, length (missing_from a i []) = empty_slots a.
Proof.
  induction a as [|[t|] a IH]; intro i; simpl; [reflexivity|apply IH|].
  rewrite missing_from_app. simpl. now rewrite IH.
Qed.

Lemma missing_from_in :
  forall a i k,
    In k (missing_from a i [])
    <-> exists j, k = Z.of_nat (i + j) /\ nth_error a j = Some None.
Proof.
  induction a as [|[t|] a IH]; intros i k; simpl.
  - split; [intros []|]. intros [[|j] [_ E]]; discriminate.
  - rewrite IH. split.
    + intros [j [E N]]. exists (S j). split; [rewrite E; f_equal; lia|exact N].
    + intros [[|j] [E N]]; [discriminate|].
      exists j. split; [rewrite E; f_equal; lia|exact N].
  - rewrite missing_from_app. simpl. rewrite IH. split.
    + intros [E|[j [E N]]].
      * exists 0%nat. split; [rewrite <- E; f_equal; lia|reflexivity].
      * exists (S j). split; [rewrite E; f_equal; lia|exact N].
    + intros [[|j] [E N]].
      * left. rewrite E. f_equal. lia.
      * right. exists j. split; [rewrite E; f_equal; lia|exact N].
Qed.

Lemma missing_from_ascending :
  forall a i lo,
    lo <= Z.of_nat i ->
    Z.of_nat (i + length a) <= 0x10000 ->
    ascending_from lo (missing_from a i []).
Proof.
  induction a as [|[t|] a IH]; intros i lo Hl Hb; simpl; [exact I| |].
  - apply IH; [lia|simpl in Hb; lia].
  - rewrite missing_from_app. simpl in *. split; [lia|].
    apply IH; lia.
Qed.

(** The request [btc_getblocktxn_set_cmpct] builds names the block by
    its header hash and lists the empty slots of [avail], each once and
    no other position, in ascending order. *)
Theorem getblocktxn_set_cmpct_lists_empty_slots :
  forall z x req,
    btc_getblocktxn_set_cmpct z x = Some req ->
    gb_hash req = btc_header_hash (cm_header x)
    /\ length (indexes req) = empty_slots (avail x)
    /\ (forall k, In k (indexes req)
                  <-> 0 <= k /\ nth_error (avail x) (Z.to_nat k) = Some None)
    /\ (Z.of_nat (length (avail x)) <= 0x10000 ->
        ascending_from 0 (indexes req)).
Proof.
  intros z x req. unfold btc_getblocktxn_set_cmpct.
  destruct (indexes z) as [|i0 l0] eqn:Ez; [|discriminate]. simpl.
  intro E. injection E as <-. cbn [gb_hash indexes].
  split; [reflexivity|]. split; [apply missing_from_length|]. split.
  - intro k. rewrite missing_from_in. split.
    + intros [j [-> N]]. simpl. rewrite Nat2Z.id. split; [lia|exact N].
    + intros [Hk N]. exists (Z.to_nat k). split; [simpl; lia|exact N].
  - intro Hb. apply missing_from_ascending; simpl; lia.
Qed.

End GetBlockTxn.

Lemma getblocktxn_read_write_witness :
  btc_getblocktxn_read empty_request
    (btc_getblocktxn_write [] sample_request ++ [x07])
  = Ret (Some (sample_request, [x07])).
Proof.
  apply getblocktxn_read_write.
  - reflexivity.
  - reflexivity.
  - simpl. lia.
Defined.

Lemma getblocktxn_read_ascending_witness :
  length (gb_hash sample_request) = 32%nat
  /\ ascending_from 0 (indexes sample_request).
Proof.
  apply (getblocktxn_read_ascending empty_request
           (btc_getblocktxn_write [] sample_request ++ [x07])
           sample_request [x07]).
  vm_compute. reflexivity.
Defined.

Lemma getblocktxn_set_cmpct_lists_empty_slots_witness :
  length (indexes {| gb_hash := @btc_header_hash sample sample_header;
                     indexes := [1] |})
  = empty_slots (avail sample_ready).
Proof.
  apply (@getblocktxn_set_cmpct_lists_empty_slots sample empty_request
           sample_ready).
  reflexivity.
Defined.

(** *** The BlockTxn and CompactBlock codecs *)

Section CompactCodec.
Context `{Collaborators} `{Params}.

Lemma raw_write_32 :
  forall zp h, length h = 32%nat -> btc_raw_write zp h 32 = zp ++ h.
Proof.
  intros zp h Hh. unfold btc_raw_write. rewrite <- Hh, firstn_all.
  reflexivity.
Qed.

Lemma raw_read_32 :
  forall h rest, length h = 32%nat -> btc_raw_read 32 (h ++ rest) = Some (h, rest).
Proof. intros h rest Hh. rewrite <- Hh. apply raw_read_exact. Qed.

Lemma tx_write_app :
  forall zp tx, btc_tx_write zp tx = zp ++ btc_tx_write [] tx.
Proof.
  intros zp tx. unfold btc_tx_write, btc_uint32_write, btc_uint8_write.
  destruct (btc_tx_has_witness tx).
  - rewrite !(fold_write_app _ (fun z i => btc_stack_write z (in_witness i)))
      by (intros z a; apply stack_write_app).
    rewrite (outvec_write_app (btc_inpvec_write (((zp ++ _) ++ _) ++ _) _)).
    rewrite (inpvec_write_app (((zp ++ _) ++ _) ++ _)).
    rewrite (outvec_write_app (btc_inpvec_write ((([] ++ _) ++ _) ++ _) _)).
    rewrite (inpvec_write_app ((([] ++ _) ++ _) ++ _)).
    rewrite <- !app_assoc. reflexivity.
  - rewrite (outvec_write_app (btc_inpvec_write (zp ++ _) _)).
    rewrite (inpvec_write_app (zp ++ _)).
    rewrite (outvec_write_app (btc_inpvec_write ([] ++ _) _)).
    rewrite (inpvec_write_app ([] ++ _)).
    rewrite <- !app_assoc. reflexivity.
Qed.

Lemma tx_read_written :
  forall tx rest,
    tx_readable tx ->
    btc_tx_read (btc_tx_write [] tx ++ rest) = Some (tx, rest).
Proof.
  intros tx rest [Hwf Hshape].
  destruct (btc_tx_has_witness tx) eqn:Hw.
  - rewrite tx_write_layout, Hw. apply tx_read_marked; assumption.
  - apply tx_read_plain; assumption.
Qed.

Lemma txvec_read_written :
  forall l rest,
    fits_size (length l) -> Forall tx_readable l ->
    btc_txvec_read (btc_txvec_write [] l ++ rest) = Some (l, rest).
Proof.
  intros l rest Hn F. unfold btc_txvec_read, btc_txvec_write.
  rewrite (read_vector_written _ btc_tx_read btc_tx_write (fun t => t)
             tx_readable tx_write_app tx_read_written l rest Hn F).
  now rewrite map_id.
Qed.

(** Decoding what [btc_blocktxn_write] produced gives the response
    back, when its hash has 32 bytes and [btc_tx_read] reads each of its
    transactions back. *)
Theorem blocktxn_read_write :
  forall z x rest,
    bt_txs z = [] ->
    length (bt_hash x) = 32%nat ->
    fits_size (length (bt_txs x)) ->
    Forall tx_readable (bt_txs x) ->
    btc_blocktxn_read z (btc_blocktxn_write [] x ++ rest)
    = Ret (Some (x, rest)).
Proof.
  intros z [hash l] rest Hz Hh Hn F. cbn [bt_hash bt_txs] in *.
  unfold btc_blocktxn_read, btc_blocktxn_write. rewrite Hz.
  cbn [length Nat.eqb negb bt_hash bt_txs].
  rewrite raw_write_32 by exact Hh. rewrite app_nil_l.
  unfold btc_txvec_write.
  rewrite (vector_write_app _ _ tx_write_app), <- app_assoc.
  rewrite raw_read_32 by exact Hh.
  pose proof (txvec_read_written l rest Hn F) as R.
  unfold btc_txvec_write in R.
  rewrite (vector_write_app _ _ tx_write_app), app_nil_l in R.
  rewrite R. reflexivity.
Qed.

Lemma header_write_app :
  forall zp h, btc_header_write zp h = zp ++ btc_header_write [] h.
Proof.
  intros zp h. unfold btc_header_write, btc_uint32_write, btc_raw_write.
  rewrite <- !app_assoc. reflexivity.
Qed.

Lemma header_read_write :
  forall h rest,
    header_wf h ->
    btc_header_read (btc_header_write [] h ++ rest) = Some (h, rest).
Proof.
  intros [v p m t b n] rest (Hv & Hp & Hm & Ht & Hb & Hn).
  cbn [hdr_version prev_block merkle_root hdr_time hdr_bits hdr_nonce] in *.
  unfold btc_header_write, btc_header_read.
  cbn [hdr_version prev_block merkle_root hdr_time hdr_bits hdr_nonce].
  rewrite !raw_write_32 by assumption.
  unfold btc_uint32_write at 1 2 3. rewrite <- !app_assoc.
  rewrite uint32_read_write by exact Hv.
  rewrite raw_read_32 by exact Hp. rewrite raw_read_32 by exact Hm.
  change (le_bytes 4 t) with (btc_uint32_write [] t).
  rewrite uint32_read_write by exact Ht.
  change (le_bytes 4 b) with (btc_uint32_write [] b).
  rewrite uint32_read_write by exact Hb.
  change (le_bytes 4 n) with (btc_uint32_write [] n).
  rewrite uint32_read_write by exact Hn.
  reflexivity.
Qed.

Lemma split_id :
  forall id, 0 <= id ->
    Z.lor (Z.shiftl (Z.shiftr id 32) 32) (Z.land id 0xffffffff) = id.
Proof.
  intros id Hid. apply Z.bits_inj'. intros n Hn.
  change 0xffffffff with (Z.ones 32).
  rewrite Z.lor_spec, Z.land_spec.
  destruct (Z.lt_ge_cases n 32) as [L|G].
  - rewrite Z.shiftl_spec_low by lia.
    rewrite Z.ones_spec_low by lia. now rewrite andb_true_r.
  - rewrite Z.shiftl_spec by lia. rewrite Z.shiftr_spec by lia.
    rewrite Z.ones_spec_high by lia. rewrite andb_false_r, orb_false_r.
    f_equal. lia.
Qed.

Lemma id_write_app :
  forall zp id, id_write zp id = zp ++ id_write [] id.
Proof.
  intros zp id. unfold id_write, btc_uint16_write, btc_uint32_write.
  now rewrite <- !app_assoc.
Qed.

Lemma id_read_write :
  forall id rest,
    0 <= id < 2 ^ 48 ->
    id_read (id_write [] id ++ rest) = Some (id, rest).
Proof.
  intros id rest Hid. unfold id_write, id_read.
  assert (Hhi : 0 <= Z.shiftr id 32 < 2 ^ 16).
  { rewrite Z.shiftr_div_pow2 by lia. split.
    - apply Z.div_pos; lia.
    - apply Z.div_lt_upper_bound; [lia|].
      change (2 ^ 32 * 2 ^ 16) with (2 ^ 48). lia. }
  assert (Hlo : fits_u32 (Z.land id 0xffffffff)).
  { change 0xffffffff with (Z.ones 32). rewrite Z.land_ones by lia.
    unfold fits_u32. apply Z.mod_pos_bound. lia. }
  rewrite (Z.mod_small (Z.shiftr id 32)) by exact Hhi.
  unfold btc_uint16_write at 1. rewrite <- app_assoc.
  change (btc_uint32_write [] (Z.land id 4294967295)
          ++ le_bytes 2 (Z.shiftr id 32) ++ rest)
    with (btc_uint32_write [] (Z.land id 4294967295)
          ++ btc_uint16_write [] (Z.shiftr id 32) ++ rest).
  rewrite uint32_read_write by exact Hlo.
  rewrite uint16_read_write by exact Hhi.
  rewrite split_id by lia. reflexivity.
Qed.

Lemma ptx_write_app :
  forall zp p, ptx_write true zp p = zp ++ ptx_write true [] p.
Proof.
  intros zp p. unfold ptx_write.
  rewrite (tx_write_app (btc_size_write zp _)),
    (tx_write_app (btc_size_write [] _)), (size_write_app zp).
  now rewrite <- app_assoc.
Qed.

Lemma ptx_read_written :
  forall txlen idlen p rest,
    ptx_wf (u64 (txlen + idlen)) p ->
    ptx_read txlen idlen (ptx_write true [] p ++ rest) = Some (p, rest).
Proof.
  intros txlen idlen [index tx] rest (Hi & Ht & Hr).
  cbn [_index ptx_tx] in *. unfold ptx_write, ptx_read.
  cbn [_index ptx_tx].
  rewrite tx_write_app, <- app_assoc.
  rewrite size_read_write by lia.
  destruct (Z.gtb_spec index 65535); [lia|].
  destruct (Z.geb_spec index (u64 (txlen + idlen))); [lia|].
  rewrite tx_read_written by exact Hr. reflexivity.
Qed.

Lemma cmpct_read_written :
  forall z x rest,
    ids z = [] -> ptx z = [] ->
    cmpct_wf x ->
    btc_cmpct_read z (btc_cmpct_write [] x ++ rest)
    = Ret (Some ({| cm_hash := btc_header_hash (cm_header x);
                    cm_header := cm_header x;
                    key_nonce := key_nonce x;
                    ids := ids x; ptx := ptx x;
                    avail := avail z; id_map := id_map z; count := count z;
                    sipkey := btc_cmpct_key x; cm_now := cm_now z |}, rest)).
Proof.
  intros z x rest Hzi Hzp (Hh & Hk & Hn & Hids & Hptx).
  unfold btc_cmpct_write, btc_cmpct__write, btc_cmpct_read.
  rewrite (fold_write_app _ (ptx_write true) ptx_write_app).
  rewrite (size_write_app (fold_left _ _ _)).
  rewrite (fold_write_app _ id_write id_write_app).
  rewrite (size_write_app (btc_uint64_write _ _)).
  unfold btc_uint64_write at 1. rewrite <- !app_assoc.
  rewrite header_read_write by exact Hh.
  change (le_bytes 8 (key_nonce x)) with (btc_uint64_write [] (key_nonce x)).
  rewrite uint64_read_write by exact Hk.
  rewrite size_read_write by lia.
  cbn [ids ptx set_sipkey set_header]. rewrite Hzi, Hzp.
  cbn [length Nat.eqb negb]. rewrite Nat2Z.id.
  rewrite (read_items_written Z id_read (id_write []) (fun i => i)
             (fun id => 0 <= id < 2 ^ 48) id_read_write _ _ Hids).
  rewrite map_id.
  rewrite size_read_write by lia.
  rewrite Nat2Z.id.
  assert (Hp' : Forall (ptx_wf (u64 (Z.of_nat (length (ptx x))
                                     + Z.of_nat (length (ids x))))) (ptx x)).
  { rewrite u64_small by lia. rewrite <- Nat2Z.inj_add. exact Hptx. }
  rewrite (read_items_written _ (ptx_read _ _) (ptx_write true [])
             (fun p => p) _ (ptx_read_written _ _) _ _ Hp').
  rewrite map_id. reflexivity.
Qed.

Lemma ptx_base_write_plain :
  forall l zp,
    Forall (fun p => btc_tx_has_witness (ptx_tx p) = false) l ->
    fold_left (ptx_write false) l zp = fold_left (ptx_write true) l zp.
Proof.
  induction l as [|p l IH]; intros zp F; [reflexivity|].
  inversion F as [|? ? Hp F']; subst. cbn [fold_left].
  rewrite <- (IH _ F'). f_equal.
  unfold ptx_write, btc_tx_base_write, btc_tx_write. rewrite Hp.
  reflexivity.
Qed.

(** Decoding what [btc_cmpct_write] produced gives the compact block
    back: the header, key nonce, short ids and prefilled transactions
    are those written, the hash and the siphash key are recomputed from
    the header and nonce, and the other members are left as they were.
    When no prefilled transaction has a witness, [btc_cmpct_base_write]
    produces the same bytes. *)
Theorem cmpct_read_write :
  forall z x rest,
    ids z = [] -> ptx z = [] ->
    cmpct_wf x ->
    btc_cmpct_read z (btc_cmpct_write [] x ++ rest)
    = Ret (Some ({| cm_hash := btc_header_hash (cm_header x);
                    cm_header := cm_header x;
                    key_nonce := key_nonce x;
                    ids := ids x; ptx := ptx x;
                    avail := avail z; id_map := id_map z; count := count z;
                    sipkey := btc_cmpct_key x; cm_now := cm_now z |}, rest))
    /\ (Forall (fun p => btc_tx_has_witness (ptx_tx p) = false) (ptx x) ->
        btc_cmpct_base_write [] x = btc_cmpct_write [] x).
Proof.
  intros z x rest Hi Hp Hwf. split.
  - apply cmpct_read_written; assumption.
  - intro F. unfold btc_cmpct_base_write, btc_cmpct_write, btc_cmpct__write.
    apply ptx_base_write_plain. exact F.
Qed.

End CompactCodec.

(** *** From block to compact block and back *)

Section Reconstruction.
Context `{Collaborators} `{Params}.

Lemma lor_bound :
  forall a b n,
    0 < n -> 0 <= a < 2 ^ n -> 0 <= b < 2 ^ n -> 0 <= Z.lor a b < 2 ^ n.
Proof.
  intros a b n Hn Ha Hb.
  assert (Hl : 0 <= Z.lor a b) by (apply Z.lor_nonneg; lia).
  split; [exact Hl|].
  destruct (Z.eq_dec (Z.lor a b) 0) as [E|E]; [rewrite E; lia|].
  apply Z.log2_lt_pow2; [lia|].
  rewrite Z.log2_lor by lia.
  apply Z.max_lub_lt.
  - destruct (Z.eq_dec a 0) as [->|Na]; [simpl; lia|].
    apply Z.log2_lt_pow2; lia.
  - destruct (Z.eq_dec b 0) as [->|Nb]; [simpl; lia|].
    apply Z.log2_lt_pow2; lia.
Qed.

Lemma sid_range :
  forall blk hash, 0 <= btc_cmpct_sid blk hash < 2 ^ 48.
Proof.
  intros blk hash. unfold btc_cmpct_sid.
  change 0xffffffffffff with (Z.ones 48). rewrite Z.land_ones by lia.
  apply Z.mod_pos_bound. lia.
Qed.

(** What [btc_cmpct_set_block] builds, when it returns. *)
Lemma set_block_shape :
  forall z blk witness c,
    btc_cmpct_set_block z blk witness = Some c ->
    exists first rest,
      txs blk = first :: rest
      /\ ids z = [] /\ ptx z = []
      /\ cm_hash c = btc_header_hash (header blk)
      /\ cm_header c = header blk
      /\ key_nonce c = Z.lor (u64 (Z.shiftl (btc_random 0) 32)) (btc_random 1)
      /\ sipkey c = btc_cmpct_key c
      /\ length (ids c) = length rest
      /\ Forall (fun id => 0 <= id < 2 ^ 48) (ids c)
      /\ ptx c = [{| _index := 0; ptx_tx := first |}]
      /\ avail c = avail z /\ id_map c = id_map z /\ count c = count z
      /\ cm_now c = cm_now z.
Proof.
  intros z blk witness c. unfold btc_cmpct_set_block.
  destruct (txs blk) as [|first rest]; [discriminate|].
  cbn [ids ptx set_sipkey set_header].
  destruct (ids z) as [|i0 l0] eqn:Ei; [|discriminate].
  destruct (ptx z) as [|p0 l1] eqn:Ep; [|discriminate].
  cbn [length Nat.eqb negb]. intro E. injection E as <-.
  exists first, rest. rewrite btc_tx_clone_id.
  cbn [cm_hash cm_header key_nonce sipkey ids ptx avail id_map count cm_now
       set_ids_ptx set_sipkey set_header].
  repeat (split; [reflexivity|]).
  split; [apply length_map|].
  split; [|repeat split].
  apply Forall_forall. intros id Hin. apply in_map_iff in Hin.
  destruct Hin as [tx [<- _]]. apply sid_range.
Qed.

(** What [btc_cmpct_read] parses from the encoding of the compact block
    [btc_cmpct_set_block] built is that compact block. *)
Theorem cmpct_set_block_read_back :
  forall z blk witness c rest,
    btc_cmpct_set_block z blk witness = Some c ->
    header_wf (header blk) ->
    fits_u32 (btc_random 0) -> fits_u32 (btc_random 1) ->
    fits_size (length (txs blk)) ->
    tx_readable (tx_at blk 0) ->
    btc_cmpct_read z (btc_cmpct_write [] c ++ rest) = Ret (Some (c, rest)).
Proof.
  intros z blk witness c rest Hs Hh Hr0 Hr1 Hn Hcb.
  destruct (set_block_shape _ _ _ _ Hs)
    as (first & others & Et & Ei & Ep & Ehash & Ehdr & Ekey & Esip & Elen
        & Hids & Eptx & Ea & Em & Ec & Enow).
  unfold tx_at in Hcb. rewrite Et in Hcb, Hn. simpl in Hcb.
  unfold fits_size in Hn. cbn [length] in Hn.
  unfold fits_u32 in Hr0, Hr1.
  rewrite cmpct_read_written; [|exact Ei|exact Ep|].
  - do 3 f_equal. rewrite <- Esip, <- Ea, <- Em, <- Ec, <- Enow.
    replace (btc_header_hash (cm_header c)) with (cm_hash c)
      by (rewrite Ehash, Ehdr; reflexivity).
    destruct c. reflexivity.
  - unfold cmpct_wf. rewrite Ehdr, Ekey, Eptx, Elen. cbn [length].
    split; [exact Hh|]. split.
    + apply lor_bound; [lia| |lia].
      rewrite Z.shiftl_mul_pow2 by lia.
      rewrite u64_small; [lia|].
      change (2 ^ 64) with (2 ^ 32 * 2 ^ 32). nia.
    + split; [lia|]. split; [exact Hids|].
      constructor; [|constructor].
      unfold ptx_wf. cbn [_index ptx_tx]. repeat split; try lia; apply Hcb.
Qed.

Lemma setup_ids_header :
  forall l i offset blk r blk',
    setup_ids l i offset blk = (r, blk') -> cm_header blk' = cm_header blk.
Proof.
  induction l as [|id l IH]; intros i offset blk r blk'; simpl.
  - intro E. injection E as _ <-. reflexivity.
  - destruct (btc_longtab_put _ _ _) as [m|].
    + intro E. apply IH in E. exact E.
    + intro E. injection E as _ <-. reflexivity.
Qed.

(** After [btc_cmpct_setup] on a compact block whose only prefilled
    transaction is at position 0, that slot is filled and the others are
    empty. *)
Lemma setup_first_prefilled :
  forall c tx c1,
    ptx c = [{| _index := 0; ptx_tx := tx |}] ->
    btc_cmpct_setup c = Some (1, c1) ->
    avail c1 = Some tx :: repeat None (length (ids c))
    /\ count c1 = 1 /\ ids c1 = ids c /\ ptx c1 = ptx c
    /\ cm_header c1 = cm_header c.
Proof.
  intros c tx c1 Ep. unfold btc_cmpct_setup. rewrite Ep.
  cbn [length Nat.add].
  destruct (Z.of_nat (S (length (ids c))) =? 0); [discriminate|].
  destruct (Z.of_nat (S (length (ids c))) >? BTC_MAX_BLOCK_SIZE / 10);
    [discriminate|].
  destruct (Z.of_nat (S (length (ids c))) >? (BTC_MAX_BLOCK_SIZE - 81) / 60);
    [discriminate|].
  destruct (avail c) as [|a0 al] eqn:Ea; [|discriminate].
  cbn [length Nat.eqb negb].
  destruct (Z.eqb_spec (count c) 0) as [Ec|Ec]; [|discriminate].
  cbn [negb]. rewrite Nat2Z.id. cbn [repeat ptx set_avail].
  rewrite Ep. cbn [setup_prefilled].
  unfold setup_place.
  change (setup_cursor (-1) {| _index := 0; ptx_tx := tx |}) with 0.
  cbn [Z.ltb Z.gtb Z.compare orb Z.to_nat ids set_avail avail vec_set count].
  destruct (Z.gtb_spec 0 (Z.of_nat (length (ids c)) + Z.of_nat 0)) as [G|G];
    [lia|].
  cbn [setup_prefilled Z.eqb negb id_map set_avail length Nat.eqb ids].
  destruct (id_map c) as [|m0 ml]; [|discriminate].
  cbn [length Nat.eqb negb].
  intro E. injection E as E.
  destruct (setup_ids_keeps _ _ _ _ _ _ E) as (_ & Ka & Kc & Ki & Kp).
  pose proof (setup_ids_header _ _ _ _ _ _ E) as Kh.
  cbn [avail count ids ptx cm_header set_avail] in *.
  rewrite Ka, Kc, Ki, Kp, Kh, Ec, btc_tx_clone_id.
  repeat split; try reflexivity; try lia. exact Ep.
Qed.

Lemma missing_from_empty :
  forall n i,
    missing_from (repeat None n) i [] = map Z.of_nat (seq i n).
Proof.
  induction n as [|n IH]; intro i; simpl; [reflexivity|].
  rewrite missing_from_app, IH. reflexivity.
Qed.

Lemma map_nth_seq :
  forall (A : Type) (l : list A) (d : A),
    map (fun k => nth k l d) (seq 0 (length l)) = l.
Proof.
  intros A l d. induction l as [|a l IH]; [reflexivity|].
  cbn [length seq map nth]. f_equal.
  rewrite <- seq_shift, map_map. exact IH.
Qed.

Lemma txs_at_positions :
  forall blk first rest,
    txs blk = first :: rest ->
    map (tx_at blk) (map Z.of_nat (seq 1 (length rest))) = rest
    /\ Forall (in_block blk) (map Z.of_nat (seq 1 (length rest))).
Proof.
  intros blk first rest Et. split.
  - rewrite map_map. unfold tx_at. rewrite Et.
    rewrite <- seq_shift, map_map.
    erewrite map_ext; [apply (map_nth_seq _ rest btc_tx_init)|].
    intro k. rewrite Nat2Z.id. reflexivity.
  - apply Forall_forall. intros k Hin. apply in_map_iff in Hin.
    destruct Hin as [j [<- Hj]]. apply in_seq in Hj.
    unfold in_block. rewrite Et. cbn [length]. lia.
Qed.

Lemma fill_from_empty :
  forall msg l pre cnt,
    bt_txs msg = pre ++ l ->
    fill_from (repeat None (length l)) msg (length pre) cnt
    = (true, map Some l, (length pre + length l)%nat,
       cnt + Z.of_nat (length l)).
Proof.
  intros msg l. induction l as [|t l IH]; intros pre cnt Em.
  - simpl. rewrite Nat.add_0_r, Z.add_0_r. reflexivity.
  - cbn [length repeat fill_from].
    assert (G : nth_error (bt_txs msg) (length pre) = Some t).
    { rewrite Em, nth_error_app2 by lia. now rewrite Nat.sub_diag. }
    rewrite G.
    specialize (IH (pre ++ [t]) (cnt + 1)).
    rewrite length_app in IH. cbn [length] in IH.
    rewrite Nat.add_1_r in IH.
    rewrite IH by (rewrite Em, <- app_assoc; reflexivity).
    rewrite btc_tx_clone_id. cbn [map]. f_equal; [f_equal; lia|lia].
Qed.

Lemma take_slots_filled :
  forall l, take_slots (map Some l) = Some l.
Proof.
  induction l as [|t l IH]; simpl; [reflexivity|]. now rewrite IH.
Qed.

(** A block sent as a compact block comes out as it went in: when
    [btc_cmpct_setup] accepts what [btc_cmpct_set_block] built, the
    request for the empty slots, answered from the block, fills the
    compact block, and [btc_cmpct_finalize] yields the block. *)
Theorem compact_block_reconstructs :
  forall z blk witness c c1 zreq zres zblk,
    btc_cmpct_set_block z blk witness = Some c ->
    btc_cmpct_setup c = Some (1, c1) ->
    indexes zreq = [] -> bt_txs zres = [] -> txs zblk = [] ->
    exists req res c2 c3,
      btc_getblocktxn_set_cmpct zreq c1 = Some req
      /\ btc_blocktxn_set_block zres blk req = Some res
      /\ btc_cmpct_fill_missing c1 res = Some (1, c2)
      /\ btc_cmpct_finalize zblk c2 = Some (blk, c3).
Proof.
  intros z blk witness c c1 zreq zres zblk Hs Hsetup Hq Hr Hb.
  destruct (set_block_shape _ _ _ _ Hs)
    as (first & others & Et & _ & _ & _ & Ehdr & _ & _ & Elen
        & _ & Eptx & _).
  destruct (setup_first_prefilled _ _ _ Eptx Hsetup)
    as (Ea & Ec & Ei & Ep & Eh).
  rewrite Elen in Ea.
  destruct (txs_at_positions blk first others Et) as [Hmap Hin].
  eexists. eexists. eexists. eexists.
  split; [|split; [|split]].
  - unfold btc_getblocktxn_set_cmpct. rewrite Hq. cbn [length Nat.eqb negb].
    rewrite Ea. cbn [missing_from]. rewrite missing_from_empty. reflexivity.
  - unfold btc_blocktxn_set_block. rewrite Hr. cbn [length Nat.eqb negb].
    cbn [indexes].
    rewrite <- (app_nil_r (map Z.of_nat (seq 1 (length others)))).
    rewrite set_block_from_in_range by exact Hin.
    cbn [set_block_from app]. rewrite Hmap. reflexivity.
  - unfold btc_cmpct_fill_missing. rewrite Ea, Ei, Ep, Eptx, Elen.
    cbn [length Nat.add]. rewrite repeat_length, Nat.eqb_refl.
    cbn [negb fill_from].
    rewrite (fill_from_empty _ others [] _) by reflexivity.
    cbn [length Nat.add]. rewrite Nat.eqb_refl. reflexivity.
  - unfold btc_cmpct_finalize. rewrite Hb.
    cbn [length Nat.eqb negb ptx ids avail count cm_header set_avail].
    rewrite Ep, Ei, Eptx, Elen, Ec, Eh, Ehdr.
    cbn [length Nat.add]. rewrite length_map, Nat.eqb_refl. cbn [negb].
    replace (1 + Z.of_nat (length others) =? Z.of_nat (S (length others)))
      with true by (symmetry; apply Z.eqb_eq; lia).
    cbn [negb take_slots]. rewrite take_slots_filled, <- Et.
    destruct blk. reflexivity.
Qed.

End Reconstruction.

Lemma blocktxn_read_write_witness :
  btc_blocktxn_read empty_response
    (btc_blocktxn_write [] sample_response ++ [x07])
  = Ret (Some (sample_response, [x07])).
Proof.
  apply blocktxn_read_write.
  - reflexivity.
  - reflexivity.
  - unfold fits_size. simpl. lia.
  - unfold tx_readable, sample_response. cbn [bt_txs].
    constructor; [split; [fits|left; discriminate]|].
    constructor; [split; [fits|left; discriminate]|constructor].
Defined.

Lemma cmpct_read_write_witness :
  @btc_cmpct_read sample sample_params empty_cmpct
    (btc_cmpct_write [] (sample_cmpct [0x123456; 0xffffffffffff]) ++ [x07])
  = Ret (Some ({| cm_hash := @btc_header_hash sample sample_header;
                  cm_header := sample_header;
                  key_nonce := 0x0102030405060708;
                  ids := [0x123456; 0xffffffffffff];
                  ptx := [{| _index := 0; ptx_tx := sample_coinbase |}];
                  avail := []; id_map := []; count := 0;
                  sipkey := @btc_cmpct_key sample_params
                              (sample_cmpct [0x123456; 0xffffffffffff]);
                  cm_now := 0 |}, [x07])).
Proof.
  refine (proj1 (@cmpct_read_write sample sample_params empty_cmpct
                   (sample_cmpct [0x123456; 0xffffffffffff]) [x07]
                   eq_refl eq_refl _)).
  unfold cmpct_wf. cbn [sample_cmpct cm_header key_nonce ids ptx length].
  split; [unfold header_wf; cbn; repeat split; fits|].
  split; [lia|]. split; [simpl; lia|]. split.
  - constructor; [lia|]. constructor; [lia|constructor].
  - constructor; [|constructor].
    unfold ptx_wf, tx_readable. cbn [_index ptx_tx].
    split; [lia|]. split; [simpl; lia|].
    split; [fits|left; discriminate].
Defined.

Lemma cmpct_set_block_read_back_witness :
  @btc_cmpct_read sample sample_params empty_cmpct
    (btc_cmpct_write [] sample_sent ++ [])
  = Ret (Some (sample_sent, [])).
Proof.
  apply (@cmpct_set_block_read_back sample sample_params empty_cmpct
           sample_block3 true).
  - vm_compute. reflexivity.
  - unfold header_wf. cbn. repeat split; fits.
  - vm_compute. split; [discriminate|reflexivity].
  - vm_compute. split; [discriminate|reflexivity].
  - vm_compute. reflexivity.
  - unfold tx_readable. split; [fits|left; discriminate].
Defined.

Lemma compact_block_reconstructs_witness :
  exists req res c2 c3,
    @btc_getblocktxn_set_cmpct sample empty_request sample_received = Some req
    /\ @btc_blocktxn_set_block sample empty_response sample_block3 req
       = Some res
    /\ btc_cmpct_fill_missing sample_received res = Some (1, c2)
    /\ btc_cmpct_finalize empty_block c2 = Some (sample_block3, c3).
Proof.
  apply (@compact_block_reconstructs sample sample_params empty_cmpct
           sample_block3 true sample_sent).
  - vm_compute. reflexivity.
  - vm_compute. reflexivity.
  - reflexivity.
  - reflexivity.
  - reflexivity.
Defined.

(** ** More of [src/node/chaindb.c] *)

Section Store.
Context `{Collaborators}.

Lemma iterate_view_keeps :
  forall txn k c txn' ok,
    iterate_view txn k c = (txn', ok) ->
    meta_F txn' = meta_F txn /\ meta_R txn' = meta_R txn
    /\ db_index txn' = db_index txn /\ db_tip txn' = db_tip txn.
Proof.
  intros txn k c txn' ok. unfold iterate_view.
  destruct (coin_spent c).
  - destruct (mdb_del_coin txn k) as [t rc] eqn:D.
    pose proof (mdb_del_coin_keeps _ _ _ _ D) as K.
    destruct (negb (rc =? 0) && negb (rc =? MDB_NOTFOUND));
      intro E; injection E as <- _; exact K.
  - destruct (mdb_put_coin txn k c) as [t rc] eqn:D.
    pose proof (mdb_put_coin_keeps _ _ _ _ _ D) as K.
    destruct (negb (rc =? 0) && negb (rc =? MDB_NOTFOUND));
      intro E; injection E as <- _; exact K.
Qed.

Lemma save_view_keeps :
  forall m txn txn' ok,
    btc_chaindb_save_view_from txn m = (txn', ok) ->
    meta_F txn' = meta_F txn /\ meta_R txn' = meta_R txn
    /\ db_index txn' = db_index txn /\ db_tip txn' = db_tip txn.
Proof.
  induction m as [|[k c] m IH]; intros txn txn' ok; simpl.
  - intro E. injection E as <- _. auto.
  - destruct (iterate_view txn k c) as [t1 ok1] eqn:E1.
    destruct (iterate_view_keeps _ _ _ _ _ E1) as (F & R & I & T).
    destruct (ok1 =? 0).
    + intro E. injection E as <- _. auto.
    + intro E. destruct (IH _ _ _ E) as (F' & R' & I' & T').
      repeat split; congruence.
Qed.

Lemma same_chain_refl : forall db, same_chain db db.
Proof. intro db. unfold same_chain. repeat split. Qed.

Lemma same_chain_trans :
  forall a b c, same_chain a b -> same_chain b c -> same_chain a c.
Proof.
  unfold same_chain. intros a b c (A1 & A2 & A3 & A4 & A5) (B1 & B2 & B3 & B4 & B5).
  repeat split; congruence.
Qed.

Lemma same_entry_refl : forall e, same_entry e e.
Proof. intro e. unfold same_entry. repeat split. Qed.

Lemma same_entry_trans :
  forall a b c, same_entry a b -> same_entry b c -> same_entry a c.
Proof.
  unfold same_entry. intros a b c A B. intuition congruence.
Qed.

(** The cursor [btc_chaindb_alloc] leaves for a record of [len] bytes:
    where it was, or at the start of the next file. *)
Lemma alloc_cursor :
  forall db len db' r,
    btc_chaindb_alloc db len = (db', r) ->
    env db' = env db /\ files db' = files db /\ same_chain db db'
    /\ ((r = 0 /\ file db' = file db /\ pos db' = pos db)
        \/ (r = 1 /\ file db' = file db /\ pos db' = pos db
            /\ u64 (pos db + len) <= 512 * 2 ^ 20)
        \/ (r = 1 /\ file db' = file db + 1 /\ pos db' = 0)).
Proof.
  intros db len db' r. unfold btc_chaindb_alloc, same_chain.
  destruct (Z.gtb_spec (u64 (pos db + len)) (512 * 2 ^ 20)) as [G|G].
  - destruct (btc_fs_open_ok (file db + 1)); intro E; injection E as <- <-;
      simpl; repeat split; auto.
  - intro E. injection E as <- <-. repeat split; auto.
    right; left. repeat split; auto.
Qed.

Lemma write_block_record :
  forall db entry block db' e' r,
    btc_chaindb_write_block db entry block = (db', e', r) ->
    exists f p,
      written db db' (RecBlock block)
        (u64 (u64 (btc_block_size block) + 4)) r f p
      /\ (r = 0 -> e' = entry)
      /\ (r = 1 -> e' = set_block_pos entry f p).
Proof.
  intros db entry block db' e' r. unfold btc_chaindb_write_block, written.
  cbv zeta.
  destruct (btc_chaindb_alloc db (u64 (u64 (btc_block_size block) + 4)))
    as [d1 r1] eqn:A.
  destruct (alloc_cursor _ _ _ _ A)
    as (Ee & Ef & (S1 & S2 & S3 & S4 & S5) & C).
  destruct C as [(-> & Cf & Cp)|[(-> & Cf & Cp & Cu)|(-> & Cf & Cp)]];
    cbn [Z.eqb].
  - intro E. injection E as <- <- <-. exists (file d1), (pos d1).
    split; [|split; [reflexivity|discriminate]].
    repeat split; auto. left. repeat split; auto.
  - destruct (btc_fs_write_ok (file d1) (pos d1) _); cbn [negb];
      intro E; injection E as <- <- <-; exists (file d1), (pos d1); simpl.
    + split; [|split; [discriminate|reflexivity]].
      repeat split; auto. right. rewrite Ef, Cp. repeat split; auto.
    + split; [|split; [reflexivity|discriminate]].
      repeat split; auto. left. repeat split; auto.
  - destruct (btc_fs_write_ok (file d1) (pos d1) _); cbn [negb];
      intro E; injection E as <- <- <-; exists (file d1), (pos d1); simpl.
    + split; [|split; [discriminate|reflexivity]].
      repeat split; auto. right. rewrite Ef. repeat split; auto.
    + split; [|split; [reflexivity|discriminate]].
      repeat split; auto. left. repeat split; auto.
Qed.


Lemma write_undo_record :
  forall db entry undo db' e' r,
    btc_chaindb_write_undo db entry undo = Ret (db', e', r) ->
    exists f p,
      written db db' (RecUndo undo)
        (u64 (u64 (btc_undo_size undo) + 4)) r f p
      /\ (r = 0 -> e' = entry)
      /\ (r = 1 -> e' = set_undo_pos entry f p).
Proof.
  intros db entry undo db' e' r. unfold btc_chaindb_write_undo, written.
  cbv zeta.
  destruct ((u64 (btc_undo_size undo) >? BTC_MAX_RAW_BLOCK_SIZE)
            && negb (malloc_ok (u64 (4 + u64 (btc_undo_size undo)))));
    [discriminate|].
  destruct (btc_chaindb_alloc db (u64 (u64 (btc_undo_size undo) + 4)))
    as [d1 r1] eqn:A.
  destruct (alloc_cursor _ _ _ _ A)
    as (Ee & Ef & (S1 & S2 & S3 & S4 & S5) & C).
  destruct C as [(-> & Cf & Cp)|[(-> & Cf & Cp & Cu)|(-> & Cf & Cp)]];
    cbn [Z.eqb].
  - intro E. injection E as <- <- <-. exists (file d1), (pos d1).
    split; [|split; [reflexivity|discriminate]].
    repeat split; auto. left. repeat split; auto.
  - destruct (btc_fs_write_ok (file d1) (pos d1) _); cbn [negb];
      intro E; injection E as <- <- <-; exists (file d1), (pos d1); simpl.
    + split; [|split; [discriminate|reflexivity]].
      repeat split; auto. right. rewrite Ef, Cp. repeat split; auto.
    + split; [|split; [reflexivity|discriminate]].
      repeat split; auto. left. repeat split; auto.
  - destruct (btc_fs_write_ok (file d1) (pos d1) _); cbn [negb];
      intro E; injection E as <- <- <-; exists (file d1), (pos d1); simpl.
    + split; [|split; [discriminate|reflexivity]].
      repeat split; auto. right. rewrite Ef. repeat split; auto.
    + split; [|split; [reflexivity|discriminate]].
      repeat split; auto. left. repeat split; auto.
Qed.

(** With memory for its buffer, [btc_chaindb_write_undo] returns. *)
Lemma write_undo_returns :
  forall db entry undo,
    (forall n, malloc_ok n = true) ->
    exists db' e' r, btc_chaindb_write_undo db entry undo = Ret (db', e', r).
Proof.
  intros db entry undo M. unfold btc_chaindb_write_undo. cbv zeta.
  rewrite M, andb_false_r.
  destruct (btc_chaindb_alloc db _) as [d1 r1].
  destruct (r1 =? 0); [eauto|].
  destruct (negb (btc_fs_write_ok _ _ _)); eauto.
Qed.

Lemma written_entry :
  forall db db' rec len r f p,
    written db db' rec len r f p -> env db' = env db /\ same_chain db db'.
Proof. intros db db' rec len r f p (Ee & Sc & _). split; assumption. Qed.

Lemma connect_block_keeps :
  forall db txn entry block view db' txn' e' v' ok,
    btc_chaindb_connect_block db txn entry block view
    = Ret (db', txn', e', v', ok) ->
    env db' = env db /\ same_chain db db' /\ same_entry entry e'
    /\ block_file e' = block_file entry /\ block_pos e' = block_pos entry
    /\ meta_F txn' = meta_F txn /\ meta_R txn' = meta_R txn
    /\ db_index txn' = db_index txn /\ db_tip txn' = db_tip txn.
Proof.
  intros db txn entry block view db' txn' e' v' ok.
  unfold btc_chaindb_connect_block, btc_chaindb_save_view,
    btc_chaindb_prune_block.
  destruct (e_height entry =? 0).
  { intro E. injection E as <- <- <- <- <-.
    repeat split; auto using same_chain_refl. }
  destruct (btc_chaindb_save_view_from txn (view_map view)) as [t1 ok1] eqn:S.
  destruct (save_view_keeps _ _ _ _ S) as (F & R & I & T).
  destruct (ok1 =? 0).
  { intro E. injection E as <- <- <- <- <-.
    repeat split; auto using same_chain_refl. }
  cbv zeta.
  destruct (negb (length (view_undo view) =? 0)%nat).
  2:{ intro E. injection E as <- <- <- <- <-.
      repeat split; auto using same_chain_refl. }
  destruct (undo_pos entry =? -1).
  - destruct (btc_chaindb_write_undo db entry (view_undo view))
      as [[[d2 e2] r2]|] eqn:W; [|discriminate].
    destruct (write_undo_record _ _ _ _ _ _ W) as (f & p & Wr & E0 & E1).
    destruct (written_entry _ _ _ _ _ _ _ Wr) as [Ee Sc].
    assert (Se : same_entry entry e2 /\ block_file e2 = block_file entry
                 /\ block_pos e2 = block_pos entry).
    { destruct Wr as (_ & _ & _ & [(-> & _)|(-> & _)]).
      - rewrite (E0 eq_refl). repeat split.
      - rewrite (E1 eq_refl). repeat split. }
    destruct Se as (Se & Bf & Bp).
    destruct (r2 =? 0); intro E; injection E as <- <- <- <- <-;
      (split; [exact Ee|]); (split; [exact Sc|]); (split; [exact Se|]);
      repeat split; auto.
  - cbn [Z.eqb]. intro E. injection E as <- <- <- <- <-.
    repeat split; auto using same_chain_refl.
Qed.

Lemma save_block_keeps :
  forall db txn entry block view db' txn' e' v' ok,
    btc_chaindb_save_block db txn entry block view
    = Ret (db', txn', e', v', ok) ->
    env db' = env db /\ same_chain db db' /\ same_entry entry e'
    /\ meta_F txn' = meta_F txn /\ meta_R txn' = meta_R txn
    /\ db_index txn' = db_index txn /\ db_tip txn' = db_tip txn
    /\ (view = None -> txn' = txn /\ v' = None).
Proof.
  intros db txn entry block view db' txn' e' v' ok.
  unfold btc_chaindb_save_block.
  assert (W : exists d1 e1 r1,
            (if block_pos entry =? -1
             then btc_chaindb_write_block db entry block
             else (db, entry, 1)) = (d1, e1, r1)
            /\ env d1 = env db /\ same_chain db d1 /\ same_entry entry e1).
  { destruct (block_pos entry =? -1).
    - destruct (btc_chaindb_write_block db entry block) as [[d1 e1] r1] eqn:W.
      destruct (write_block_record _ _ _ _ _ _ W) as (f & p & Wr & E0 & E1).
      destruct (written_entry _ _ _ _ _ _ _ Wr) as [Ee Sc].
      exists d1, e1, r1. split; [reflexivity|]. split; [exact Ee|].
      split; [exact Sc|].
      destruct Wr as (_ & _ & _ & [(-> & _)|(-> & _)]).
      + rewrite (E0 eq_refl). apply same_entry_refl.
      + rewrite (E1 eq_refl). repeat split.
    - exists db, entry, 1. split; [reflexivity|]. split; [reflexivity|].
      split; [apply same_chain_refl|apply same_entry_refl]. }
  destruct W as (d1 & e1 & r1 & -> & Ee & Sc & Se).
  destruct (r1 =? 0).
  { intro E. injection E as <- <- <- <- <-.
    split; [exact Ee|]. split; [exact Sc|]. split; [exact Se|].
    repeat split; auto. }
  destruct view as [v|].
  - destruct (btc_chaindb_connect_block d1 txn e1 block v)
      as [[[[[d2 t2] e2] v2] ok2]|] eqn:C; [|discriminate].
    destruct (connect_block_keeps _ _ _ _ _ _ _ _ _ _ C)
      as (Ee2 & Sc2 & Se2 & _ & _ & F & R & I & T).
    intro E. injection E as <- <- <- <- <-.
    split; [congruence|].
    split; [eapply same_chain_trans; eassumption|].
    split; [eapply same_entry_trans; eassumption|].
    repeat split; auto; discriminate.
  - intro E. injection E as <- <- <- <- <-.
    split; [exact Ee|]. split; [exact Sc|].
    split; [exact Se|]. repeat split.
Qed.


(** The ways [btc_chaindb_save] returns: 0 before anything was done when
    the transaction cannot begin; 0 with what [btc_chaindb_save_block]
    left of the store when a later step fails; 1 with the transaction
    committed and the chain updated. *)
Lemma save_cases :
  forall db entry block view r db' e' v',
    btc_chaindb_save db entry block view = Ret (r, db', e', v') ->
    (r = 0 /\ db' = db /\ e' = entry /\ v' = view)
    \/ exists d1 t1 ok,
         btc_chaindb_save_block db (env db) entry block view
         = Ret (d1, t1, e', v', ok)
         /\ ((r = 0 /\ db' = d1)
             \/ (r = 1 /\ ok <> 0
                 /\ files db' = files d1 /\ file db' = file d1
                 /\ pos db' = pos d1
                 /\ hashes db' = e_hash e' :: hashes d1
                 /\ db_coin (env db') = db_coin t1
                 /\ meta_R (env db')
                    = match view with
                      | Some _ => Some (e_hash e')
                      | None => meta_R t1
                      end
                 /\ existsb (bytes_eqb (e_hash e')) (db_tip (env db')) = true
                 /\ match view with
                    | None =>
                        db_entries db' = (e_hash e', e') :: db_entries d1
                        /\ heights db' = heights d1 /\ head db' = head d1
                        /\ tail db' = tail d1
                    | Some _ =>
                        heights db' = heights d1 ++ [e_hash e']
                        /\ Z.of_nat (length (heights d1)) = e_height e'
                        /\ head db' = (if e_height e' =? 0
                                       then Some (e_hash e') else head d1)
                        /\ tail db' = Some (e_hash e')
                    end)).
Proof.
  intros db entry block view r db' e' v'. unfold btc_chaindb_save.
  destruct (negb (mdb_rc mdb_txn_begin (env db) =? 0)).
  { intro E. injection E as <- <- <- <-. left. auto. }
  cbv zeta.
  destruct (btc_chaindb_save_block db (env db) entry block view)
    as [[[[[d1 t1] e1] v1] ok1]|] eqn:S; [|discriminate].
  intro E. right. exists d1, t1, ok1.
  assert (Fail : forall x : outcome (Z * btc_chaindb * btc_entry_t
                                     * option btc_view_t),
            x = Ret (0, d1, e1, v1) -> x = Ret (r, db', e', v') ->
            Ret (d1, t1, e1, v1, ok1) = Ret (d1, t1, e', v', ok1)
            /\ r = 0 /\ db' = d1).
  { intros x -> E'. injection E' as <- <- <- <-. auto. }
  revert E.
  destruct (Z.eqb_spec ok1 0) as [->|Hok].
  { intro E. destruct (Fail _ eq_refl E) as (-> & R & D). auto. }
  destruct (mdb_put_F t1 (file d1, pos d1)) as [t2 rc2] eqn:P2.
  destruct (Z.eqb_spec rc2 0) as [->|H2]; cbn [negb].
  2:{ intro E. destruct (Fail _ eq_refl E) as (-> & R & D). auto. }
  apply mdb_put_F_ok in P2.
  destruct (mdb_put_index t2 (e_hash e1) e1) as [t3 rc3] eqn:P3.
  destruct (Z.eqb_spec rc3 0) as [->|H3]; cbn [negb].
  2:{ intro E. destruct (Fail _ eq_refl E) as (-> & R & D). auto. }
  apply mdb_put_index_ok in P3. destruct P3 as (F3 & R3 & C3 & T3).
  destruct (if negb (e_height e1 =? 0)
            then mdb_del_tip t3 (prev_block (e_header e1))
            else (t3, 0)) as [t4 rc4] eqn:P4.
  destruct (Z.eqb_spec rc4 0) as [->|H4]; cbn [negb].
  2:{ intro E. destruct (Fail _ eq_refl E) as (-> & R & D). auto. }
  assert (K4 : meta_R t4 = meta_R t3 /\ db_coin t4 = db_coin t3).
  { destruct (negb (e_height e1 =? 0)).
    - apply mdb_del_tip_ok in P4. destruct P4 as (_ & _ & R4 & C4). auto.
    - injection P4 as <-. auto. }
  destruct K4 as [R4 C4].
  destruct (mdb_put_tip t4 (e_hash e1)) as [t5 rc5] eqn:P5.
  destruct (Z.eqb_spec rc5 0) as [->|H5]; cbn [negb].
  2:{ intro E. destruct (Fail _ eq_refl E) as (-> & R & D). auto. }
  apply mdb_put_tip_ok in P5. destruct P5 as (F5 & R5 & C5 & T5).
  destruct (match view with
            | Some _ => mdb_put_R t5 (e_hash e1)
            | None => (t5, 0)
            end) as [t6 rc6] eqn:P6.
  destruct (Z.eqb_spec rc6 0) as [->|H6]; cbn [negb].
  2:{ intro E. destruct (Fail _ eq_refl E) as (-> & R & D). auto. }
  assert (K6 : db_coin t6 = db_coin t5 /\ db_tip t6 = db_tip t5
               /\ meta_R t6 = match view with
                              | Some _ => Some (e_hash e1)
                              | None => meta_R t5
                              end).
  { destruct view.
    - apply mdb_put_R_ok in P6. subst t6. auto.
    - injection P6 as <-. auto. }
  destruct K6 as (C6 & T6 & R6).
  destruct (negb (mdb_rc mdb_txn_commit t6 =? 0)).
  { intro E. destruct (Fail _ eq_refl E) as (-> & R & D). auto. }
  cbn [commit env files db_entries hashes heights head tail file pos].
  destruct (existsb (bytes_eqb (e_hash e1)) (hashes d1)); [discriminate|].
  assert (Tip : existsb (bytes_eqb (e_hash e1)) (db_tip t6) = true).
  { rewrite T6, T5. simpl.
    rewrite (proj2 (bytes_eqb_eq _ _) eq_refl). reflexivity. }
  assert (Coin : db_coin t6 = db_coin t1).
  { rewrite C6, C5, C4, C3, P2. reflexivity. }
  assert (MR : meta_R t6 = match view with
                           | Some _ => Some (e_hash e1)
                           | None => meta_R t1
                           end).
  { rewrite R6. destruct view; [reflexivity|].
    rewrite R5, R4, R3, P2. reflexivity. }
  destruct view as [v|].
  - destruct (Z.eqb_spec (Z.of_nat (length (heights d1))) (e_height e1))
      as [El|El]; cbn [negb]; [|discriminate].
    intro E. injection E as <- <- <- <-.
    split; [reflexivity|]. right.
    cbn [files file pos hashes env heights head tail].
    repeat split; auto.
  - intro E. injection E as <- <- <- <-.
    split; [reflexivity|]. right.
    cbn [files file pos hashes env heights head tail db_entries].
    repeat split; auto.
Qed.


(** A save that returns 0 commits nothing, whichever step failed (the
    begin of the transaction, a write to the block files, a put or the
    delete of the old tip, the commit): the environment, the entry
    table, the hash set, the heights and the tip are as they were. *)
Theorem save_failure_commits_nothing :
  forall db entry block view db' e' v',
    btc_chaindb_save db entry block view = Ret (0, db', e', v') ->
    env db' = env db /\ same_chain db db'.
Proof.
  intros db entry block view db' e' v' E.
  destruct (save_cases _ _ _ _ _ _ _ _ E)
    as [(_ & -> & _)|(d1 & t1 & ok & S & [(_ & ->)|(R & _)])].
  - split; [reflexivity|apply same_chain_refl].
  - destruct (save_block_keeps _ _ _ _ _ _ _ _ _ _ S) as (Ee & Sc & _).
    split; assumption.
  - discriminate R.
Qed.

(** A block saved on a side chain (view NULL) leaves the chain state
    alone: the coin table, meta['R'], the heights, head and tail are as
    they were; the entry is a tip and is in the entry table. *)
Theorem save_side_chain_keeps_state :
  forall db entry block db' e' v',
    btc_chaindb_save db entry block None = Ret (1, db', e', v') ->
    db_coin (env db') = db_coin (env db)
    /\ meta_R (env db') = meta_R (env db)
    /\ heights db' = heights db /\ head db' = head db /\ tail db' = tail db
    /\ v' = None
    /\ existsb (bytes_eqb (e_hash entry)) (db_tip (env db')) = true
    /\ db_entries db' = (e_hash entry, e') :: db_entries db
    /\ hashes db' = e_hash entry :: hashes db.
Proof.
  intros db entry block db' e' v' E.
  destruct (save_cases _ _ _ _ _ _ _ _ E)
    as [(R & _)|(d1 & t1 & ok & S & [(R & _)|
         (_ & _ & _ & _ & _ & Hh & Hc & Hr & Ht & He & Hg & Hd & Hl)])];
    try discriminate R.
  destruct (save_block_keeps _ _ _ _ _ _ _ _ _ _ S)
    as (Ee & (S1 & S2 & S3 & S4 & S5) & (Eh & _) & _ & _ & _ & _ & Hn).
  destruct (Hn eq_refl) as [-> ->].
  rewrite Eh in *.
  repeat split; congruence.
Qed.


Lemma written_files :
  forall db db' rec len r f p,
    written db db' rec len r f p ->
    forall x, In x (files db) -> In x (files db').
Proof.
  intros db db' rec len r f p (_ & _ & _ & [(_ & -> & _)|(_ & -> & _)]) x Hx.
  - exact Hx.
  - right. exact Hx.
Qed.

Lemma connect_block_files :
  forall db txn entry block view db' txn' e' v' ok,
    btc_chaindb_connect_block db txn entry block view
    = Ret (db', txn', e', v', ok) ->
    forall x, In x (files db) -> In x (files db').
Proof.
  intros db txn entry block view db' txn' e' v' ok.
  unfold btc_chaindb_connect_block, btc_chaindb_prune_block.
  destruct (e_height entry =? 0);
    [intro E; injection E as <- _ _ _ _; auto|].
  destruct (btc_chaindb_save_view txn view) as [t1 ok1].
  destruct (ok1 =? 0); [intro E; injection E as <- _ _ _ _; auto|].
  cbv zeta.
  destruct (negb (length (view_undo view) =? 0)%nat);
    [|intro E; injection E as <- _ _ _ _; auto].
  destruct (undo_pos entry =? -1).
  - destruct (btc_chaindb_write_undo db entry (view_undo view))
      as [[[d2 e2] r2]|] eqn:W; [|discriminate].
    destruct (write_undo_record _ _ _ _ _ _ W) as (f & p & Wr & _).
    destruct (r2 =? 0); intro E; injection E as <- _ _ _ _;
      exact (written_files _ _ _ _ _ _ _ Wr).
  - cbn [Z.eqb]. intro E. injection E as <- _ _ _ _. auto.
Qed.

Lemma connect_block_returns :
  forall db txn entry block view,
    (forall n, malloc_ok n = true) ->
    exists x, btc_chaindb_connect_block db txn entry block view = Ret x.
Proof.
  intros db txn entry block view M. unfold btc_chaindb_connect_block.
  destruct (e_height entry =? 0); [eauto|].
  destruct (btc_chaindb_save_view txn view) as [t1 ok1].
  destruct (ok1 =? 0); [eauto|]. cbv zeta.
  destruct (negb (length (view_undo view) =? 0)%nat); [|eauto].
  destruct (undo_pos entry =? -1).
  - destruct (write_undo_returns db entry (view_undo view) M)
      as (d2 & e2 & r2 & ->).
    destruct (r2 =? 0); eauto.
  - cbn [Z.eqb]. eauto.
Qed.

Lemma save_block_returns :
  forall db txn entry block view,
    (forall n, malloc_ok n = true) ->
    exists x, btc_chaindb_save_block db txn entry block view = Ret x.
Proof.
  intros db txn entry block view M. unfold btc_chaindb_save_block.
  destruct (if block_pos entry =? -1
            then btc_chaindb_write_block db entry block
            else (db, entry, 1)) as [[d1 e1] r1].
  destruct (r1 =? 0); [eauto|].
  destruct view as [v|]; [|eauto].
  destruct (connect_block_returns d1 txn e1 block v M)
    as ([[[[d2 t2] e2] v2] ok2] & ->).
  eauto.
Qed.

(** Saving a block that is not the genesis block on a parent that is no
    tip fails.  With memory for the undo buffer the call returns 0, for
    a side-chain block as for a main-chain one, whichever step fails
    first, and nothing is committed; when the transaction began and the
    block was written, the block stays appended to the block files all
    the same. *)
Theorem save_needs_parent_tip :
  forall db entry block view,
    e_height entry <> 0 ->
    existsb (bytes_eqb (prev_block (e_header entry))) (db_tip (env db))
    = false ->
    (forall n, malloc_ok n = true) ->
    exists db' e' v',
      btc_chaindb_save db entry block view = Ret (0, db', e', v')
      /\ env db' = env db /\ same_chain db db'
      /\ (forall d0 e0,
            mdb_rc mdb_txn_begin (env db) = 0 ->
            block_pos entry = -1 ->
            btc_chaindb_write_block db entry block = (d0, e0, 1) ->
            In (RecBlock block) (map snd (files db'))).
Proof.
  intros db entry block view Hh Ht M. unfold btc_chaindb_save.
  destruct (Z.eqb_spec (mdb_rc mdb_txn_begin (env db)) 0) as [Hb|Hb];
    cbn [negb].
  2:{ exists db, entry, view. split; [reflexivity|].
      split; [reflexivity|]. split; [apply same_chain_refl|].
      intros d0 e0 Hb'. contradiction. }
  cbv zeta.
  destruct (save_block_returns db (env db) entry block view M)
    as ([[[[d1 t1] e1] v1] ok1] & S).
  rewrite S.
  destruct (save_block_keeps _ _ _ _ _ _ _ _ _ _ S)
    as (Ee & Sc & (_ & Ehd & Ehg & _) & _ & _ & _ & Et & _).
  exists d1, e1, v1.
  split; [|split; [exact Ee|split; [exact Sc|]]].
  - destruct (ok1 =? 0); [reflexivity|].
    destruct (mdb_put_F t1 (file d1, pos d1)) as [t2 rc2] eqn:P2.
    destruct (Z.eqb_spec rc2 0) as [->|H2]; cbn [negb]; [|reflexivity].
    apply mdb_put_F_ok in P2.
    destruct (mdb_put_index t2 (e_hash e1) e1) as [t3 rc3] eqn:P3.
    destruct (Z.eqb_spec rc3 0) as [->|H3]; cbn [negb]; [|reflexivity].
    apply mdb_put_index_ok in P3. destruct P3 as (_ & _ & _ & T3).
    rewrite Ehg. destruct (Z.eqb_spec (e_height entry) 0) as [|_];
      [contradiction|]. cbn [negb].
    destruct (mdb_del_tip t3 (prev_block (e_header e1))) as [t4 rc4] eqn:P4.
    destruct (Z.eqb_spec rc4 0) as [->|H4]; cbn [negb]; [|reflexivity].
    apply mdb_del_tip_ok in P4. destruct P4 as (P4 & _).
    rewrite T3, P2 in P4. cbn [db_tip] in P4.
    rewrite Et, Ehd, Ht in P4. discriminate P4.
  - intros d0 e0 _ Hp W. unfold btc_chaindb_save_block in S.
    rewrite Hp, Z.eqb_refl, W in S. cbn [Z.eqb] in S.
    destruct (write_block_record _ _ _ _ _ _ W)
      as (f & p & (_ & _ & _ & [(R0 & _)|(_ & Ef & _)]) & _);
      [discriminate R0|].
    assert (Hin : In ((f, p), RecBlock block) (files d0))
      by (rewrite Ef; left; reflexivity).
    apply (in_map snd) with (x := ((f, p), RecBlock block)).
    destruct view as [v|].
    + destruct (btc_chaindb_connect_block d0 (env db) e0 block v)
        as [[[[[d2 t2] e2] v2] ok2]|] eqn:C; [|discriminate].
      injection S as <- _ _ _ _.
      exact (connect_block_files _ _ _ _ _ _ _ _ _ _ C _ Hin).
    + injection S as <- _ _ _ _. exact Hin.
Qed.


Lemma appends_refl : forall db, appends db db.
Proof. intro db. unfold appends. split; auto. Qed.

Lemma appends_trans :
  forall a b c, appends a b -> appends b c -> appends a c.
Proof.
  unfold appends. intros a b c [A1 A2] [B1 B2]. split.
  - intros f p Hb. destruct (A1 f p Hb) as [Hb' E].
    destruct (B1 f p Hb') as [Hb2 E']. split; [exact Hb2|congruence].
  - auto.
Qed.

Lemma appends_same_files :
  forall a b c,
    appends a b -> files c = files b -> file c = file b -> pos c = pos b ->
    appends a c.
Proof.
  unfold appends, files_before_cursor, before_cursor.
  intros a b c [A1 A2] Ef Ei Ep. rewrite Ef, Ei, Ep. split; assumption.
Qed.

(** The sum [db->pos + len] in size_t when it is found to be at most
    512 MiB, for an int [pos] and a length below 2^31. *)
Lemma cursor_sum :
  forall p len,
    - 2 ^ 31 <= p < 2 ^ 31 -> 0 < len < 2 ^ 31 ->
    u64 (p + len) <= 512 * 2 ^ 20 ->
    0 <= p + len <= 512 * 2 ^ 20.
Proof.
  intros p len Hp Hl Hu.
  destruct (Z_lt_le_dec (p + len) 0) as [Hn|Hn].
  - assert (E : u64 (p + len) = p + len + 2 ^ 64).
    { unfold u64. symmetry. apply Z.mod_unique with (q := -1); lia. }
    lia.
  - rewrite u64_small in Hu by lia. lia.
Qed.

(** A write of a record of positive length below 2^31 at an int cursor
    only appends, and leaves an int cursor. *)
Lemma written_appends :
  forall db db' rec len r f p,
    written db db' rec len r f p ->
    - 2 ^ 31 <= pos db < 2 ^ 31 -> 0 < len < 2 ^ 31 ->
    appends db db' /\ - 2 ^ 31 <= pos db' < 2 ^ 31.
Proof.
  intros db db' rec len r f p (_ & _ & Ei & W) Hp Hl.
  unfold appends, files_before_cursor, before_cursor.
  destruct W as [(_ & Ef & Ep & C)|(_ & Ef & Ep & C)]; rewrite Ef, Ei, Ep.
  - split; [|destruct C as [[-> ->]|[-> ->]]; lia].
    split.
    + intros f0 p0 Hb. split; [|reflexivity].
      destruct C as [[-> ->]|[-> ->]]; lia.
    + intros Hall f0 p0 r0 Hin. specialize (Hall f0 p0 r0 Hin).
      destruct C as [[-> ->]|[-> ->]]; lia.
  - assert (Hs : i32 (p + len) = p + len
                 /\ - 2 ^ 31 <= p + len < 2 ^ 31).
    { destruct C as [(-> & -> & Cu)|[-> ->]].
      - pose proof (cursor_sum _ _ Hp Hl Cu) as B.
        rewrite i32_small by lia. lia.
      - rewrite i32_small by lia. lia. }
    destruct Hs as (-> & Hr).
    split; [|exact Hr].
    split.
    + intros f0 p0 Hb. split.
      * destruct C as [(-> & -> & _)|[-> ->]]; lia.
      * simpl. destruct (Z.eqb_spec f f0) as [E1|E1]; [|reflexivity].
        destruct (Z.eqb_spec p p0) as [E2|E2]; [|reflexivity].
        exfalso. destruct C as [(-> & -> & _)|[-> ->]]; lia.
    + intros Hall f0 p0 r0 [E|Hin].
      * injection E as <- <- _. lia.
      * specialize (Hall f0 p0 r0 Hin).
        destruct C as [(-> & -> & _)|[-> ->]]; lia.
Qed.

Lemma record_length :
  forall size, 0 <= size < 2 ^ 31 - 4 ->
    0 < u64 (u64 size + 4) < 2 ^ 31.
Proof.
  intros size Hs. rewrite (u64_small size) by lia.
  rewrite u64_small by lia. lia.
Qed.

Lemma save_block_appends :
  forall db txn entry block view d1 t1 e1 v1 ok,
    btc_chaindb_save_block db txn entry block view
    = Ret (d1, t1, e1, v1, ok) ->
    - 2 ^ 31 <= pos db < 2 ^ 31 ->
    0 <= btc_block_size block < 2 ^ 31 - 4 ->
    (forall v, view = Some v ->
       0 <= btc_undo_size (view_undo v) < 2 ^ 31 - 4) ->
    appends db d1.
Proof.
  intros db txn entry block view d1 t1 e1 v1 ok S Hp Hb Hu.
  unfold btc_chaindb_save_block in S.
  assert (W : exists d0 e0 r0,
            (if block_pos entry =? -1
             then btc_chaindb_write_block db entry block
             else (db, entry, 1)) = (d0, e0, r0)
            /\ appends db d0 /\ - 2 ^ 31 <= pos d0 < 2 ^ 31).
  { destruct (block_pos entry =? -1).
    - destruct (btc_chaindb_write_block db entry block) as [[d0 e0] r0] eqn:W.
      destruct (write_block_record _ _ _ _ _ _ W) as (f & p & Wr & _).
      exists d0, e0, r0. split; [reflexivity|].
      apply (written_appends _ _ _ _ _ _ _ Wr Hp).
      apply record_length. exact Hb.
    - exists db, entry, 1. split; [reflexivity|].
      split; [apply appends_refl|exact Hp]. }
  destruct W as (d0 & e0 & r0 & W & A0 & Hp0). rewrite W in S.
  destruct (r0 =? 0); [injection S as <- _ _ _ _; exact A0|].
  destruct view as [v|]; [|injection S as <- _ _ _; exact A0].
  destruct (btc_chaindb_connect_block d0 txn e0 block v)
    as [[[[[d2 t2] e2] v2] ok2]|] eqn:C; [|discriminate].
  injection S as <- _ _ _ _.
  apply (appends_trans _ _ _ A0).
  revert C. unfold btc_chaindb_connect_block, btc_chaindb_prune_block.
  destruct (e_height _ =? 0);
    [intro C; injection C as <- _ _ _ _; apply appends_refl|].
  destruct (btc_chaindb_save_view _ _) as [t3 ok3].
  destruct (ok3 =? 0);
    [intro C; injection C as <- _ _ _ _; apply appends_refl|].
  cbv zeta.
  destruct (negb (length (view_undo v) =? 0)%nat);
    [|intro C; injection C as <- _ _ _ _; apply appends_refl].
  destruct (undo_pos _ =? -1).
  - destruct (btc_chaindb_write_undo d0 _ (view_undo v))
      as [[[d3 e3] r3]|] eqn:U; [|discriminate].
    destruct (write_undo_record _ _ _ _ _ _ U) as (f' & p' & Wr & _).
    assert (A : appends d0 d3).
    { apply (written_appends _ _ _ _ _ _ _ Wr Hp0).
      apply record_length. apply (Hu v eq_refl). }
    destruct (r3 =? 0); intro C; injection C as <- _ _ _ _; exact A.
  - cbn [Z.eqb]. intro C. injection C as <- _ _ _ _. apply appends_refl.
Qed.

(** Whatever [btc_chaindb_save] returns, 1 or 0 at whichever step it
    failed, it only appends to the block files: every position before
    the write cursor reads as before, and if all records lay before the
    cursor they still do.  The cursor is an int, and the block and the
    undo log, with their 4 bytes of length, are shorter than 2^31
    bytes. *)
Theorem save_appends_only :
  forall db entry block view r db' e' v',
    btc_chaindb_save db entry block view = Ret (r, db', e', v') ->
    - 2 ^ 31 <= pos db < 2 ^ 31 ->
    0 <= btc_block_size block < 2 ^ 31 - 4 ->
    (forall v, view = Some v ->
       0 <= btc_undo_size (view_undo v) < 2 ^ 31 - 4) ->
    (forall f p, before_cursor db f p ->
       before_cursor db' f p
       /\ file_get (files db') f p = file_get (files db) f p)
    /\ (files_before_cursor db -> files_before_cursor db').
Proof.
  intros db entry block view r db' e' v' E Hp Hb Hu.
  change (appends db db').
  destruct (save_cases _ _ _ _ _ _ _ _ E)
    as [(_ & -> & _)|(d1 & t1 & ok & S & C)].
  - apply appends_refl.
  - pose proof (save_block_appends _ _ _ _ _ _ _ _ _ _ S Hp Hb Hu) as A.
    destruct C as [(_ & ->)|(_ & _ & Ef & Ei & Ep & _)]; [exact A|].
    apply (appends_same_files db d1 db'); assumption.
Qed.

(** Reconnecting the entry that was disconnected puts the tip back:
    the heights, the tail and meta['R'] are as before the disconnect. *)
Theorem disconnect_then_reconnect :
  forall db entry block view0 db1 block' view db2 e2 v2,
    btc_chaindb_disconnect db entry block = Ret (Some view0, db1) ->
    btc_chaindb_reconnect db1 entry block' view = Ret (1, db2, e2, v2) ->
    heights db2 = heights db
    /\ tail db2 = Some (e_hash entry)
    /\ meta_R (env db2) = Some (e_hash entry)
    /\ hashes db2 = hashes db /\ head db2 = head db.
Proof.
  intros db entry block view0 db1 block' view db2 e2 v2.
  unfold btc_chaindb_disconnect.
  destruct (negb (mdb_rc mdb_txn_begin (env db) =? 0)); [discriminate|].
  destruct (btc_chaindb_disconnect_block db (env db) entry block)
    as [[txn [v|]]|]; try discriminate.
  destruct (mdb_put_R txn (prev_block (e_header entry))) as [txn1 rc] eqn:EP.
  destruct (Z.eqb_spec rc 0) as [->|Hrc]; cbn [negb]; [|discriminate].
  destruct (negb (mdb_rc mdb_txn_commit txn1 =? 0)); [discriminate|].
  cbn [commit heights].
  destruct (e_prev entry) as [p|] eqn:Epv; [|discriminate].
  destruct (rev (heights db)) as [|top below] eqn:Er; [discriminate|].
  destruct (bytes_eqb top (e_hash entry)) eqn:Et; cbn [negb]; [|discriminate].
  apply bytes_eqb_eq in Et. subst top.
  intro E. injection E as _ <-.
  unfold btc_chaindb_reconnect. cbn [env].
  destruct (negb (mdb_rc mdb_txn_begin txn1 =? 0)); [discriminate|].
  cbv zeta.
  destruct (btc_chaindb_connect_block _ _ entry block' view)
    as [[[[[d t] e] v'] ok]|] eqn:C; [|discriminate].
  destruct (connect_block_keeps _ _ _ _ _ _ _ _ _ _ C)
    as (Ee & (S1 & S2 & S3 & S4 & S5) & (Eh & _ & Ehg & _ & Ep & _) & _).
  destruct (ok =? 0); [discriminate|].
  cbn [file pos env files db_entries hashes heights head tail].
  destruct (mdb_put_F t (file d, pos d)) as [t2 rc2] eqn:P2.
  destruct (Z.eqb_spec rc2 0) as [->|H2]; cbn [negb]; [|discriminate].
  destruct (mdb_put_R t2 (e_hash e)) as [t3 rc3] eqn:P3.
  destruct (Z.eqb_spec rc3 0) as [->|H3]; cbn [negb]; [|discriminate].
  apply mdb_put_R_ok in P3. subst t3.
  match goal with
  | |- context [negb (mdb_rc mdb_txn_commit ?t =? 0)] =>
      destruct (negb (mdb_rc mdb_txn_commit t =? 0)); [discriminate|]
  end.
  cbn [commit file pos env files db_entries hashes heights head tail].
  rewrite Ep, Epv.
  destruct (negb (_ =? e_height e)); [discriminate|].
  intro E. injection E as <- _ _.
  cbn [heights tail env meta_R hashes head].
  cbn [heights tail hashes head] in S2, S3, S4.
  rewrite S3, S2, S4, Eh.
  repeat split.
  rewrite <- (rev_involutive (heights db)), Er. reflexivity.
Qed.

End Store.

Lemma save_failure_commits_nothing_witness :
  env (saved save2c) = env db1 /\ same_chain db1 (saved save2c).
Proof.
  apply (@save_failure_commits_nothing commit_fails db1 entry2 block2
           (Some (block_view block2 2)) (saved save2c)
           (entry_saved save2c entry2) (view_saved save2c)).
  vm_compute. reflexivity.
Defined.

Lemma save_side_chain_keeps_state_witness :
  db_coin (env (saved save2s)) = db_coin (env db1)
  /\ meta_R (env (saved save2s)) = meta_R (env db1)
  /\ heights (saved save2s) = heights db1.
Proof.
  pose proof (@save_side_chain_keeps_state sample db1 entry2s block2s
                (saved save2s) (entry_saved save2s entry2s)
                (view_saved save2s)) as W.
  destruct W as (A & B & C & _); [vm_compute; reflexivity|].
  exact (conj A (conj B C)).
Defined.

Lemma save_needs_parent_tip_witness :
  exists db' e' v',
    @btc_chaindb_save sample db1 entry1f block1f (Some btc_view_create)
    = Ret (0, db', e', v')
    /\ env db' = env db1
    /\ In (RecBlock block1f) (map snd (files db')).
Proof.
  destruct (@save_needs_parent_tip sample db1 entry1f block1f
              (Some btc_view_create))
    as (db' & e' & v' & E & Ee & _ & Hin).
  - vm_compute. discriminate.
  - vm_compute. reflexivity.
  - reflexivity.
  - exists db', e', v'. split; [exact E|]. split; [exact Ee|].
    apply (Hin (fst (fst (@btc_chaindb_write_block sample db1 entry1f
                            block1f)))
               (snd (fst (@btc_chaindb_write_block sample db1 entry1f
                            block1f)))).
    + reflexivity.
    + reflexivity.
    + vm_compute. reflexivity.
Defined.

Lemma save_appends_only_witness :
  before_cursor (saved save2w) 0 0
  /\ file_get (files (saved save2w)) 0 0 = file_get (files db1) 0 0.
Proof.
  apply (@save_appends_only write_fails db1 entry2 block2
           (Some (block_view block2 2)) 0 (saved save2w)
           (entry_saved save2w entry2) (view_saved save2w)).
  - vm_compute. reflexivity.
  - vm_compute. split; [discriminate|reflexivity].
  - vm_compute. split; [discriminate|reflexivity].
  - intros v E. injection E as <-. vm_compute.
    split; [discriminate|reflexivity].
  - right. split; vm_compute; reflexivity.
Defined.

Lemma disconnect_then_reconnect_witness :
  heights (match reconnected2' with
           | Ret (_, db, _, _) => db
           | Aborted => empty_db
           end) = heights db2'.
Proof.
  pose proof (@disconnect_then_reconnect sample db2' entry2'_saved block2'
                view3' db3' block2' (block_view block2' 2)
                (match reconnected2' with
                 | Ret (_, db, _, _) => db
                 | Aborted => empty_db
                 end)
                (match reconnected2' with
                 | Ret (_, _, e, _) => e
                 | Aborted => entry2'
                 end)
                (match reconnected2' with
                 | Ret (_, _, _, v) => v
                 | Aborted => btc_view_create
                 end)) as W.
  destruct W as (A & _); [vm_compute; reflexivity|vm_compute; reflexivity|].
  exact A.
Defined.

(** *** Applying a view to the coin table *)

Section SaveView.
Context `{Collaborators}.

Lemma outpoint_equal_refl : forall k, btc_outpoint_equal k k = true.
Proof. intro k. apply outpoint_equal_eq. reflexivity. Qed.

Lemma coin_remove_same :
  forall (m : list (btc_outpoint_t * btc_coin_t)) k,
    assoc_get (coin_remove m k) k = None.
Proof.
  induction m as [|[k' v] m IH]; intro k; simpl; [reflexivity|].
  destruct (btc_outpoint_equal k' k) eqn:E; [apply IH|].
  simpl. rewrite E. apply IH.
Qed.

Lemma assoc_get_absent :
  forall (m : list (btc_outpoint_t * btc_coin_t)) k,
    ~ In k (map fst m) -> assoc_get m k = None.
Proof.
  induction m as [|[k' v] m IH]; intros k Hn; simpl; [reflexivity|].
  destruct (btc_outpoint_equal k' k) eqn:E.
  - apply outpoint_equal_eq in E. subst. exfalso. apply Hn. now left.
  - apply IH. intro Hin. apply Hn. now right.
Qed.

(** The coin table after a callback that returned 1, when the error
    codes of LMDB itself are never MDB_NOTFOUND. *)
Lemma iterate_view_table :
  forall txn k c txn',
    (forall call t, mdb_rc call t <> MDB_NOTFOUND) ->
    iterate_view txn k c = (txn', 1) ->
    forall k',
      assoc_get (db_coin txn') k'
      = if btc_outpoint_equal k k'
        then (if coin_spent c then None else Some c)
        else assoc_get (db_coin txn) k'.
Proof.
  intros txn k c txn' NF. unfold iterate_view, mdb_del_coin, mdb_put_coin.
  destruct (coin_spent c).
  - pose proof (NF (mdb_del DB_COIN (coin_key k)) txn) as Hnf.
    destruct (Z.eqb_spec (mdb_rc (mdb_del DB_COIN (coin_key k)) txn) 0)
      as [E0|E0]; cbn [negb].
    + unfold coin_has.
      destruct (assoc_get (db_coin txn) k) as [c0|] eqn:G; simpl;
        intro E; injection E as <-; intro k'; cbn [db_coin];
        destruct (btc_outpoint_equal k k') eqn:Ek.
      * apply outpoint_equal_eq in Ek. subst. apply coin_remove_same.
      * apply coin_remove_other. intro E'. subst.
        rewrite outpoint_equal_refl in Ek. discriminate.
      * apply outpoint_equal_eq in Ek. subst. exact G.
      * reflexivity.
    + destruct (Z.eqb_spec (mdb_rc (mdb_del DB_COIN (coin_key k)) txn) 0)
        as [E1|_]; [contradiction|].
      destruct (Z.eqb_spec (mdb_rc (mdb_del DB_COIN (coin_key k)) txn)
                           MDB_NOTFOUND) as [E2|_]; [contradiction|].
      simpl. discriminate.
  - destruct (Z.eqb_spec (mdb_rc (mdb_put DB_COIN (coin_key k)) txn) 0)
      as [E0|E0]; cbn [negb].
    + simpl. intro E. injection E as <-. intro k'. cbn [db_coin assoc_get].
      destruct (btc_outpoint_equal k k') eqn:Ek; [reflexivity|].
      apply coin_remove_other. intro E'. subst.
      rewrite outpoint_equal_refl in Ek. discriminate.
    + pose proof (NF (mdb_put DB_COIN (coin_key k)) txn) as Hnf.
      destruct (Z.eqb_spec (mdb_rc (mdb_put DB_COIN (coin_key k)) txn) 0)
        as [E1|_]; [contradiction|].
      destruct (Z.eqb_spec (mdb_rc (mdb_put DB_COIN (coin_key k)) txn)
                           MDB_NOTFOUND) as [E2|_]; [contradiction|].
      simpl. discriminate.
Qed.

Lemma iterate_view_flag :
  forall txn k c txn' ok,
    iterate_view txn k c = (txn', ok) -> ok = 0 \/ ok = 1.
Proof.
  intros txn k c txn' ok. unfold iterate_view.
  destruct (if coin_spent c then mdb_del_coin txn k
            else mdb_put_coin txn k c) as [t rc].
  destruct (negb (rc =? 0) && negb (rc =? MDB_NOTFOUND));
    intro E; injection E as _ <-; auto.
Qed.

Lemma save_view_from_table :
  forall m txn txn',
    (forall call t, mdb_rc call t <> MDB_NOTFOUND) ->
    btc_chaindb_save_view_from txn m = (txn', 1) ->
    NoDup (map fst m) ->
    forall k,
      assoc_get (db_coin txn') k
      = match assoc_get m k with
        | Some c => if coin_spent c then None else Some c
        | None => assoc_get (db_coin txn) k
        end.
Proof.
  induction m as [|[k0 c0] m IH]; intros txn txn' NF; simpl.
  - intros E _ k. injection E as <-. reflexivity.
  - destruct (iterate_view txn k0 c0) as [t1 ok1] eqn:I.
    destruct (iterate_view_flag _ _ _ _ _ I) as [->| ->]; cbn [Z.eqb].
    + discriminate.
    + intros E ND k. inversion ND as [|? ? Hnotin ND']; subst.
      rewrite (IH _ _ NF E ND' k), (iterate_view_table _ _ _ _ NF I k).
      destruct (btc_outpoint_equal k0 k) eqn:Ek; [|reflexivity].
      apply outpoint_equal_eq in Ek. subst.
      rewrite (assoc_get_absent m k Hnotin). reflexivity.
Qed.

(** When [btc_chaindb_save_view] returns 1 it has applied the view to
    the coin table: at an outpoint of the view the table then holds the
    view's coin, or nothing when that coin is spent; every other
    outpoint is as before.  The error codes of LMDB itself are taken
    to differ from MDB_NOTFOUND, which [mdb_del] gives for a key that
    is not there and which the callback lets pass. *)
Theorem save_view_applies :
  forall txn view txn',
    btc_chaindb_save_view txn view = (txn', 1) ->
    NoDup (map fst (view_map view)) ->
    (forall call t, mdb_rc call t <> MDB_NOTFOUND) ->
    forall k,
      assoc_get (db_coin txn') k
      = match btc_view_get view k with
        | Some c => if coin_spent c then None else Some c
        | None => assoc_get (db_coin txn) k
        end.
Proof.
  intros txn view txn' E ND NF. unfold btc_chaindb_save_view in E.
  apply (save_view_from_table _ _ _ NF E ND).
Qed.

Lemma connect_block_coins :
  forall db txn entry block view db' txn' e' v' ok,
    btc_chaindb_connect_block db txn entry block view
    = Ret (db', txn', e', v', ok) ->
    db_coin txn'
    = if e_height entry =? 0 then db_coin txn
      else db_coin (fst (btc_chaindb_save_view txn view)).
Proof.
  intros db txn entry block view db' txn' e' v' ok.
  unfold btc_chaindb_connect_block, btc_chaindb_prune_block.
  destruct (e_height entry =? 0).
  { intro E. injection E as _ <- _ _ _. reflexivity. }
  destruct (btc_chaindb_save_view txn view) as [t1 ok1] eqn:S.
  cbn [fst].
  destruct (ok1 =? 0); [intro E; injection E as _ <- _ _ _; reflexivity|].
  cbv zeta.
  destruct (negb (length (view_undo view) =? 0)%nat);
    [|intro E; injection E as _ <- _ _ _; reflexivity].
  destruct (if undo_pos entry =? -1
            then btc_chaindb_write_undo db entry (view_undo view)
            else Ret (db, entry, 1)) as [[[d2 e2] r2]|]; [|discriminate].
  destruct (r2 =? 0); intro E; injection E as _ <- _ _ _; reflexivity.
Qed.

(** A successful save with a view puts the entry at the tip of the main
    chain: tail and meta['R'] are the entry, heights has grown by it and
    had as many elements as the entry's height; the coin table is the
    old one with the view applied, except for the genesis block, whose
    view is not applied. *)
Theorem save_main_chain_advances_tip :
  forall db entry block view db' e' v',
    btc_chaindb_save db entry block (Some view) = Ret (1, db', e', v') ->
    tail db' = Some (e_hash entry)
    /\ meta_R (env db') = Some (e_hash entry)
    /\ heights db' = heights db ++ [e_hash entry]
    /\ Z.of_nat (length (heights db)) = e_height entry
    /\ head db' = (if e_height entry =? 0 then Some (e_hash entry)
                   else head db)
    /\ db_coin (env db')
       = (if e_height entry =? 0 then db_coin (env db)
          else db_coin (fst (btc_chaindb_save_view (env db) view))).
Proof.
  intros db entry block view db' e' v' E.
  destruct (save_cases _ _ _ _ _ _ _ _ E)
    as [(R & _)|(d1 & t1 & ok & S & [(R & _)|
         (_ & Hok & _ & _ & _ & _ & Hc & Hr & _ & Hg & Hl & Hd & Ht)])];
    try discriminate R.
  destruct (save_block_keeps _ _ _ _ _ _ _ _ _ _ S)
    as (Ee & (S1 & S2 & S3 & S4 & S5) & (Eh & _ & Ehg & _) & _).
  assert (Ec : db_coin t1
               = if e_height entry =? 0 then db_coin (env db)
                 else db_coin (fst (btc_chaindb_save_view (env db) view))).
  { unfold btc_chaindb_save_block in S.
    destruct (if block_pos entry =? -1
              then btc_chaindb_write_block db entry block
              else (db, entry, 1)) as [[d0 e0] r0] eqn:W.
    assert (Eh0 : r0 = 0 \/ e_height e0 = e_height entry).
    { destruct (block_pos entry =? -1).
      - destruct (write_block_record _ _ _ _ _ _ W)
          as (f & p & (_ & _ & _ & [(R0 & _)|(R1 & _)]) & E0 & E1).
        + left. exact R0.
        + right. rewrite (E1 R1). reflexivity.
      - injection W as _ <- _. right. reflexivity. }
    destruct Eh0 as [->|Eh0].
    { cbn [Z.eqb] in S. injection S as _ _ _ _ O. congruence. }
    destruct (r0 =? 0).
    { injection S as _ _ _ _ O. congruence. }
    destruct (btc_chaindb_connect_block d0 (env db) e0 block view)
      as [[[[[d2 t2] e2] v2] ok2]|] eqn:C; [|discriminate].
    injection S as _ <- _ _ _.
    rewrite (connect_block_coins _ _ _ _ _ _ _ _ _ _ C), Eh0. reflexivity. }
  rewrite Eh in Ht, Hr, Hg, Hd. rewrite Ehg in Hl, Hd.
  rewrite S3 in Hg, Hl. rewrite S4 in Hd.
  repeat split; congruence.
Qed.

End SaveView.

Lemma save_view_applies_witness :
  assoc_get
    (db_coin (fst (@btc_chaindb_save_view sample (env db1)
                     (block_view block2 2))))
    coin_a
  = None.
Proof.
  rewrite (@save_view_applies sample (env db1) (block_view block2 2)
             (fst (@btc_chaindb_save_view sample (env db1)
                     (block_view block2 2)))).
  - vm_compute. reflexivity.
  - vm_compute. reflexivity.
  - vm_compute. repeat constructor; simpl; intuition discriminate.
  - intros call t E. discriminate E.
Defined.

Lemma save_main_chain_advances_tip_witness :
  tail db2 = Some (e_hash entry2)
  /\ meta_R (env db2) = Some (e_hash entry2)
  /\ heights db2 = heights db1 ++ [e_hash entry2].
Proof.
  pose proof (@save_main_chain_advances_tip sample db1 entry2 block2
                (block_view block2 2) db2 entry2_saved (view_saved save2))
    as W.
  destruct W as (A & B & C & _); [vm_compute; reflexivity|].
  exact (conj A (conj B C)).
Defined.
